(** * Warrnsinnig: the Mattermost channel-presence collector (src/main.py)

    A shallow embedding of [main.py] and the properties of its snapshot
    pipeline: paginated member listing, per-team and per-channel failure
    isolation, the single global status/identity resolution, schema
    provisioning and the batched write-back.

    The script talks to two outside parties, the Mattermost driver and a
    PostgreSQL connection, and reads the clock.  They are a [Platform]: a
    state [W] of the outside world and, for every call the script makes, a
    function from the world before the call to the answer and the world
    after it.  Answers may therefore change from one call to the next.
    The script itself is written in a state-and-exception monad over [W]
    that also records every interaction, with its answer, in a trace. *)

From stdpp Require Import base gmap sets list strings.
From Stdlib Require Import ZArith QArith Ascii.

Local Open Scope Z_scope.

(** ** Data *)

(** The JSON objects of the Mattermost API ([team], [channel], [member],
    [user], [status]): Python dicts with string keys.  The fields the
    script reads are strings in the API's schema; a key may be missing. *)
Abbreviation dict := (gmap string string).

(** [psycopg.Error]: [e.diag.sqlstate] (absent on client-side errors) and
    [str(e)]. *)
Record pg_error := PgError { sqlstate : option string; pg_message : string }.

(** The exceptions that occur in a run; [ValueError] and [OverflowError]
    are those of [time.sleep]. *)
Inductive exn :=
| KeyError (key : string)
| ZeroDivisionError
| ValueError
| OverflowError
| PsycopgError (e : pg_error)
| ApiError (msg : string).

(** A Python [float]: a finite value, an infinity, or not a number. *)
Inductive pyfloat :=
| Finite (q : Q)
| PosInf
| NegInf
| NaN.

(** The tuples appended to [records_to_process_later] (main.py:195-197). *)
Record record := Record_ {
  r_now : Z;
  r_team_id : string;
  r_team_name : string;
  r_channel_id : string;
  r_channel_name : string;
  r_user_id : string
}.

(** The parameter tuple of the INSERT statement (main.py:231-234), one row
    of [channel_user_status]. *)
Record row := Row {
  timestamp : Z;
  team_id : string;
  team_name : string;
  channel_id : string;
  channel_name : string;
  user_id : string;
  username : string;
  status : string
}.

(** The SQL statements of the script. *)
Inductive sql :=
| CREATE_EXTENSION
| CREATE_TABLE
| CREATE_HYPERTABLE
| SET_COMPRESSION
| ADD_COMPRESSION_POLICY
| INSERT (r : row).

Inductive level := DEBUG | INFO | WARNING | ERROR.

(** Every interaction of the script with its surroundings, with the answer
    it got: [inl e] is the exception raised by an API call, [Some e] the
    [psycopg.Error] raised by a database call or the exception with which
    [time.sleep] refuses its argument. *)
Inductive event :=
| Log (lv : level) (msg : string)
| Sleep (secs : pyfloat) (ans : option exn)
| Login (ans : option exn)
| GetUserTeams (ans : exn + list dict)
| UtcNow (t : Z)
| GetChannelsForUser (team : string) (ans : exn + list dict)
| GetChannelMembers (channel : string) (page per_page : nat) (ans : exn + list dict)
| GetUserStatusesById (ids : list string) (ans : exn + list dict)
| GetUsersByIds (ids : list string) (ans : exn + list dict)
| Logout (ans : option exn)
| Connect (ans : option exn)
| Execute (q : sql) (ans : option pg_error)
| Commit (ans : option pg_error)
| Rollback (ans : option pg_error)
| ConnExit (raising : bool).

(** The configuration read from the environment (main.py:27-28):
    [float(...)] and [int(...)] of two variables. *)
Record config := Config { API_DELAY : pyfloat; BATCH_SIZE : Z }.

(** The outside world.  [time.sleep(secs)] raises for a delay that it
    does not accept, a [ValueError] for a negative one and an
    [OverflowError] for one too large for the clock; whether it does is
    settled by the delay alone ([sleep_error]), and the pause changes the
    world only when the delay is accepted ([time_sleep]). *)
Record Platform (W : Type) := {
  mm_login : W → option exn * W;
  mm_get_user_teams : W → (exn + list dict) * W;
  mm_get_channels_for_user : string → W → (exn + list dict) * W;
  mm_get_channel_members : string → nat → nat → W → (exn + list dict) * W;
  mm_get_user_statuses_by_id : list string → W → (exn + list dict) * W;
  mm_get_users_by_ids : list string → W → (exn + list dict) * W;
  mm_logout : W → option exn * W;
  clock_now : W → Z * W;
  sleep_error : pyfloat → option exn;
  time_sleep : pyfloat → W → W;
  pg_connect : W → option exn * W;
  pg_execute : sql → W → option pg_error * W;
  pg_commit : W → option pg_error * W;
  pg_rollback : W → option pg_error * W
}.

Arguments mm_login {W}.
Arguments mm_get_user_teams {W}.
Arguments mm_get_channels_for_user {W}.
Arguments mm_get_channel_members {W}.
Arguments mm_get_user_statuses_by_id {W}.
Arguments mm_get_users_by_ids {W}.
Arguments mm_logout {W}.
Arguments clock_now {W}.
Arguments sleep_error {W}.
Arguments time_sleep {W}.
Arguments pg_connect {W}.
Arguments pg_execute {W}.
Arguments pg_commit {W}.
Arguments pg_rollback {W}.

(** ** The monad of the script *)

(** A computation ends with a value, with a raised exception, or it is
    still running when the fuel of its [while True] loop is spent. *)
Inductive outcome (A : Type) :=
| Ok (a : A)
| Raise (e : exn)
| OutOfFuel.

Arguments Ok {A}.
Arguments Raise {A}.
Arguments OutOfFuel {A}.

Record run (W A : Type) := Run {
  out : outcome A;
  world : W;
  trace : list event
}.

Arguments Run {W A}.
Arguments out {W A}.
Arguments world {W A}.
Arguments trace {W A}.

Definition M (W A : Type) : Type := W → run W A.

Module Script.

Section Monad.
Context {W : Type}.

Definition ret {A} (a : A) : M W A := λ w, Run (Ok a) w [].

Definition raise {A} (e : exn) : M W A := λ w, Run (Raise e) w [].

Definition out_of_fuel {A} : M W A := λ w, Run OutOfFuel w [].

(** [after t r]: the run [r] with the events [t] before it. *)
Definition after {A} (t : list event) (r : run W A) : run W A :=
  Run (out r) (world r) (t ++ trace r).

Definition bind {A B} (m : M W A) (k : A → M W B) : M W B := λ w,
  match m w with
  | Run (Ok a) w1 t1 => after t1 (k a w1)
  | Run (Raise e) w1 t1 => Run (Raise e) w1 t1
  | Run OutOfFuel w1 t1 => Run OutOfFuel w1 t1
  end.

(** [try: m except Exception as e: h e]. *)
Definition try_except {A} (m : M W A) (h : exn → M W A) : M W A := λ w,
  match m w with
  | Run (Raise e) w1 t1 => after t1 (h e w1)
  | r => r
  end.

(** [try: m except psycopg.Error as e: h e]: other exceptions pass. *)
Definition try_except_pg {A} (m : M W A) (h : pg_error → M W A) : M W A :=
  try_except m (λ e, match e with PsycopgError pe => h pe | _ => raise e end).

(** [with ... : m]: the exit handler runs however [m] ends. *)
Definition finally {A} (m : M W A) (exit : bool → event) : M W A := λ w,
  match m w with
  | Run (Ok a) w1 t1 => Run (Ok a) w1 (t1 ++ [exit false])
  | Run (Raise e) w1 t1 => Run (Raise e) w1 (t1 ++ [exit true])
  | Run OutOfFuel w1 t1 => Run OutOfFuel w1 t1
  end.

Definition emit (ev : event) : M W unit := λ w, Run (Ok tt) w [ev].

(** A call that answers [inl e] (raise [e]) or [inr a] (return [a]). *)
Definition call {A} (f : W → (exn + A) * W) (ev : exn + A → event) : M W A := λ w,
  let '(ans, w1) := f w in
  Run (match ans with inl e => Raise e | inr a => Ok a end) w1 [ev ans].

(** A call that answers [Some e] (raise [inj e]) or [None] (return). *)
Definition command {E} (f : W → option E * W) (inj : E → exn)
    (ev : option E → event) : M W unit := λ w,
  let '(ans, w1) := f w in
  Run (match ans with Some e => Raise (inj e) | None => Ok tt end) w1 [ev ans].
End Monad.

End Script.

Import Script.

Declare Scope script_scope.
Delimit Scope script_scope with script.
Notation "x <- m ;; k" := (bind m (λ x, k))
  (at level 100, m at next level, right associativity) : script_scope.
Notation "m ;; k" := (bind m (λ _, k))
  (at level 100, right associativity) : script_scope.
Local Open Scope script_scope.

(** ** Python helpers *)

(** [d[k]]: raises [KeyError]. *)
Definition getitem {W} (d : dict) (k : string) : M W string :=
  match d !! k with
  | Some v => ret v
  | None => raise (KeyError k)
  end.

(** [a % b] on Python ints: the sign follows the divisor, as [Z.modulo]
    does; [b = 0] raises. *)
Definition py_mod {W} (a b : Z) : M W Z :=
  if b =? 0 then raise ZeroDivisionError else ret (a mod b).

(** Truth value of a string. *)
Definition truthy (s : string) : bool :=
  match s with
  | EmptyString => false
  | _ => true
  end.

(** [d.get(k) or alt]: [d.get(k)] is [None] when the key is missing. *)
Definition get_or (d : dict) (k : string) (alt : string) : string :=
  match d !! k with
  | Some v => if truthy v then v else alt
  | None => alt
  end.

(** [str.lower], on ASCII text. *)
Definition lower_char (c : ascii) : ascii :=
  let n := nat_of_ascii c in
  if ((65 <=? n) && (n <=? 90))%nat then ascii_of_nat (n + 32) else c.

Fixpoint lower (s : string) : string :=
  match s with
  | EmptyString => EmptyString
  | String c s' => String (lower_char c) (lower s')
  end.

(** [needle in hay]. *)
Fixpoint contains (needle hay : string) : bool :=
  String.prefix needle hay ||
  match hay with
  | EmptyString => false
  | String _ hay' => contains needle hay'
  end.

(** [for x in l: s = body x s]; a [continue] is a body that returns. *)
Fixpoint for_each {W A S} (l : list A) (body : A → S → M W S) (s : S) : M W S :=
  match l with
  | [] => ret s
  | x :: l' => s' <- body x s ;; for_each l' body s'
  end.

(** [{m[key] : m[val] for m in l}]: later entries overwrite earlier ones. *)
Definition dict_comprehension {W} (key val : string) (l : list dict) : M W dict :=
  for_each l (λ m (acc : dict),
    k <- getitem m key ;;
    v <- getitem m val ;;
    ret (<[k := v]> acc)) ∅.

(** [{m[key] for m in l}]. *)
Definition set_comprehension {W} (key : string) (l : list dict) : M W (gset string) :=
  for_each l (λ m (acc : gset string),
    k <- getitem m key ;;
    ret (acc ∪ {[k]})) ∅.

(** ** The script *)

Section Program.
Context {W : Type} (P : Platform W) (cfg : config).

(** *** The calls to the outside *)

Definition log (lv : level) (msg : string) : M W unit := emit (Log lv msg).

(** [time.sleep(secs)]: raises when the delay is refused. *)
Definition sleep (secs : pyfloat) : M W unit := λ w,
  match sleep_error P secs with
  | Some e => Run (Raise e) w [Sleep secs (Some e)]
  | None => Run (Ok tt) (time_sleep P secs w) [Sleep secs None]
  end.

(** [datetime.now(timezone.utc)]. *)
Definition utcnow : M W Z := λ w,
  let '(t, w1) := clock_now P w in Run (Ok t) w1 [UtcNow t].

Definition driver_login : M W unit := command (mm_login P) id Login.
Definition driver_logout : M W unit := command (mm_logout P) id Logout.
Definition get_user_teams : M W (list dict) :=
  call (mm_get_user_teams P) GetUserTeams.
Definition get_channels_for_user (team : string) : M W (list dict) :=
  call (mm_get_channels_for_user P team) (GetChannelsForUser team).
Definition get_channel_members (channel : string) (page per_page : nat)
    : M W (list dict) :=
  call (mm_get_channel_members P channel page per_page)
       (GetChannelMembers channel page per_page).
Definition get_user_statuses_by_id (ids : list string) : M W (list dict) :=
  call (mm_get_user_statuses_by_id P ids) (GetUserStatusesById ids).
Definition get_users_by_ids (ids : list string) : M W (list dict) :=
  call (mm_get_users_by_ids P ids) (GetUsersByIds ids).

Definition get_pg_conn : M W unit := command (pg_connect P) id Connect.
Definition execute (q : sql) : M W unit :=
  command (pg_execute P q) PsycopgError (Execute q).
Definition commit : M W unit := command (pg_commit P) PsycopgError Commit.
Definition rollback : M W unit := command (pg_rollback P) PsycopgError Rollback.

(** *** [ensure_table_exists] (main.py:51-141) *)

(** main.py:56-69. *)
Definition ensure_extension : M W unit :=
  try_except_pg
    (execute CREATE_EXTENSION ;;
     log INFO "TimescaleDB extension ensured.")
    (λ e,
      log WARNING "Could not ensure TimescaleDB extension" ;;
      try_except_pg rollback
        (λ rb_e, log WARNING "Rollback attempt failed")).

(** main.py:72-86. *)
Definition create_table : M W unit :=
  execute CREATE_TABLE ;;
  log INFO "Table 'channel_user_status' schema ensured.".

(** The two tests of main.py:95 and main.py:97. *)
Definition already_hypertable (e : pg_error) : bool :=
  bool_decide (sqlstate e = Some "42P07")
  || contains "already a hypertable" (lower (pg_message e)).

(** main.py:89-102. *)
Definition convert_hypertable : M W unit :=
  try_except_pg
    (execute CREATE_HYPERTABLE ;;
     log INFO "Table 'channel_user_status' converted to hypertable or already is one.")
    (λ e,
      if bool_decide (sqlstate e = Some "42P07") then
        log INFO "Table 'channel_user_status' is already a hypertable."
      else if contains "already a hypertable" (lower (pg_message e)) then
        log INFO "Table 'channel_user_status' is already a hypertable (detected by error string)."
      else
        log ERROR "Error converting table to hypertable" ;;
        rollback ;;
        raise (PsycopgError e)).

(** main.py:107-121. *)
Definition set_compression : M W unit :=
  try_except_pg
    (execute SET_COMPRESSION ;;
     log INFO "Compression settings applied to 'channel_user_status'.")
    (λ e,
      log WARNING "Could not apply compression settings" ;;
      rollback).

(** The test of main.py:135. *)
Definition policy_exists (e : pg_error) : bool :=
  bool_decide (sqlstate e = Some "42710")
  || contains "already has a compression policy" (lower (pg_message e)).

(** main.py:125-139. *)
Definition add_compression_policy : M W unit :=
  try_except_pg
    (execute ADD_COMPRESSION_POLICY ;;
     log INFO "Compression policy added or already exists for 'channel_user_status'.")
    (λ e,
      if policy_exists e then
        log INFO "Compression policy for 'channel_user_status' already exists."
      else
        log WARNING "Could not add compression policy" ;;
        rollback).

Definition ensure_table_exists : M W unit :=
  ensure_extension ;;
  create_table ;;
  convert_hypertable ;;
  set_compression ;;
  add_compression_policy ;;
  commit.

(** *** [get_all_channel_members] (main.py:143-154) *)

Definition per_page : nat := 200.

(** The [while True] loop, with [page] and [all_members] as they stand
    at the head of an iteration; [fuel] bounds the iterations. *)
Fixpoint fetch_pages (fuel : nat) (channel : string) (page : nat)
    (all_members : list dict) : M W (list dict) :=
  match fuel with
  | O => out_of_fuel
  | S fuel' =>
      members <- get_channel_members channel page per_page ;;
      match members with
      | [] => ret all_members
      | _ :: _ =>
          sleep (API_DELAY cfg) ;;
          fetch_pages fuel' channel (S page) (all_members ++ members)
      end
  end.

Definition get_all_channel_members (fuel : nat) (channel : string)
    : M W (list dict) :=
  fetch_pages fuel channel 0%nat [].

(** *** [main]: collection (main.py:157-200) *)

(** [all_user_ids_globally] and [records_to_process_later]. *)
Definition acc : Type := gset string * list record.

(** main.py:183. *)
Definition channel_display_name (channel : dict) : string :=
  get_or channel "display_name" (default "unknown" (channel !! "name")).

(** The records of one channel, one for each element of the set; the
    order in which Python iterates over a set is not specified, here it
    is that of [elements]. *)
Definition channel_records (now : Z) (team_id team_name channel_id channel_name : string)
    (channel_user_ids : gset string) : list record :=
  (λ user_id, Record_ now team_id team_name channel_id channel_name user_id)
    <$> elements channel_user_ids.

(** The body of the loop over channels, main.py:181-200.  The two
    exits by [continue] return the accumulators as they are: nothing is
    added before main.py:193, and nothing can raise from there on. *)
Definition process_channel (fuel : nat) (now : Z) (team_id team_name : string)
    (channel : dict) (a : acc) : M W acc :=
  channel_id <- getitem channel "id" ;;
  let channel_name := channel_display_name channel in
  log DEBUG "Processing channel" ;;
  try_except
    (members <- get_all_channel_members fuel channel_id ;;
     channel_user_ids <- set_comprehension "user_id" members ;;
     if bool_decide (channel_user_ids = ∅) then
       log DEBUG "No members found in channel" ;;
       ret a
     else
       ret (a.1 ∪ channel_user_ids,
            a.2 ++ channel_records now team_id team_name channel_id channel_name
                     channel_user_ids))
    (λ e,
      log ERROR "Error processing channel" ;;
      ret a).

(** The body of the loop over teams, main.py:170-200. *)
Definition process_team (fuel : nat) (now : Z) (team : dict) (a : acc) : M W acc :=
  team_id <- getitem team "id" ;;
  team_name <- getitem team "name" ;;
  log INFO "Processing team" ;;
  fetched <- try_except
    (channels <- get_channels_for_user team_id ;;
     log INFO "Found channels in team" ;;
     ret (Some channels))
    (λ e,
      log ERROR "Error fetching channels for team" ;;
      ret None) ;;
  match fetched with
  | None => ret a
  | Some channels =>
      for_each channels (process_channel fuel now team_id team_name) a
  end.

(** main.py:157-200. *)
Definition collect (fuel : nat) : M W acc :=
  log INFO "Starting Mattermost online user collection script." ;;
  driver_login ;;
  log INFO "Logged in to Mattermost" ;;
  teams <- get_user_teams ;;
  log INFO "Found teams." ;;
  now <- utcnow ;;
  for_each teams (process_team fuel now) (∅, []).

(** *** [main]: resolution (main.py:202-218) *)

(** [user_id_to_username] and [user_id_to_status].  The handler of
    main.py:216 finds the two variables as the [try] block left them:
    both empty up to main.py:213, the first one assigned once
    main.py:213 is done. *)
Definition resolve (all_user_ids_globally : gset string) : M W (dict * dict) :=
  if bool_decide (all_user_ids_globally = ∅) then ret (∅, ∅)
  else
    let user_ids_list := elements all_user_ids_globally in
    log INFO "Fetching statuses and user details" ;;
    try_except
      (statuses_list <- get_user_statuses_by_id user_ids_list ;;
       sleep (API_DELAY cfg) ;;
       users_list <- get_users_by_ids user_ids_list ;;
       user_id_to_username <- dict_comprehension "id" "username" users_list ;;
       try_except
         (user_id_to_status <- dict_comprehension "user_id" "status" statuses_list ;;
          log INFO "Successfully fetched statuses and user details." ;;
          ret (user_id_to_username, user_id_to_status))
         (λ e,
           log ERROR "Error fetching global user statuses/details" ;;
           ret (user_id_to_username, ∅)))
      (λ e,
        log ERROR "Error fetching global user statuses/details" ;;
        ret (∅, ∅)).

(** *** [main]: the write phase (main.py:222-244) *)

(** main.py:226-234. *)
Definition enrich (user_id_to_username user_id_to_status : dict) (rd : record) : row :=
  Row (r_now rd) (r_team_id rd) (r_team_name rd) (r_channel_id rd)
      (r_channel_name rd) (r_user_id rd)
      (default "unknown" (user_id_to_username !! r_user_id rd))
      (default "unknown" (user_id_to_status !! r_user_id rd)).

(** The body of the loop, main.py:226-238, on [processed_count]. *)
Definition write_record (user_id_to_username user_id_to_status : dict)
    (rd : record) (processed_count : Z) : M W Z :=
  execute (INSERT (enrich user_id_to_username user_id_to_status rd)) ;;
  let processed_count := processed_count + 1 in
  m <- py_mod processed_count (BATCH_SIZE cfg) ;;
  if m =? 0 then
    commit ;;
    log INFO "Committed batch" ;;
    ret processed_count
  else ret processed_count.

Definition write_records (user_id_to_username user_id_to_status : dict)
    (records_to_process_later : list record) : M W unit :=
  log INFO "Preparing to insert records." ;;
  processed_count <-
    for_each records_to_process_later
      (write_record user_id_to_username user_id_to_status) 0 ;;
  if 0 <? processed_count then
    m <- py_mod processed_count (BATCH_SIZE cfg) ;;
    if negb (m =? 0) then
      commit ;;
      log INFO "Committed remaining records"
    else ret tt
  else if processed_count =? 0 then
    log INFO "No records were processed or inserted."
  else ret tt.

(** main.py:220-244. *)
Definition persist (user_id_to_username user_id_to_status : dict)
    (records_to_process_later : list record) : M W unit :=
  get_pg_conn ;;
  finally
    (ensure_table_exists ;;
     write_records user_id_to_username user_id_to_status records_to_process_later)
    ConnExit.

Definition main (fuel : nat) : M W unit :=
  a <- collect fuel ;;
  maps <- resolve a.1 ;;
  persist maps.1 maps.2 a.2 ;;
  driver_logout ;;
  log INFO "Mattermost online user collection script finished.".
End Program.

(** ** Observations on traces *)

(** The instants read from the clock. *)
Definition clock_read (ev : event) : option Z :=
  match ev with
  | UtcNow t => Some t
  | _ => None
  end.

Definition clock_reads (t : list event) : list Z := omap clock_read t.

(** The rows written to the store: the INSERT statements that were
    executed without error. *)
Definition written_row (ev : event) : option row :=
  match ev with
  | Execute (INSERT r) None => Some r
  | _ => None
  end.

Definition written (t : list event) : list row := omap written_row t.

(** The six fields of a row that come from collection. *)
Definition collected (rw : row) : record :=
  Record_ (timestamp rw) (team_id rw) (team_name rw) (channel_id rw)
          (channel_name rw) (user_id rw).

(** A database call that raised. *)
Definition db_failed (ev : event) : bool :=
  match ev with
  | Execute _ (Some _) | Commit (Some _) | Rollback (Some _) => true
  | _ => false
  end.

(** The number of INSERT statements executed in a trace. *)
Fixpoint insert_count (t : list event) : nat :=
  match t with
  | [] => O
  | Execute (INSERT _) _ :: t' => S (insert_count t')
  | _ :: t' => insert_count t'
  end.

(** [commit_points n t]: for every commit of [t], in order, the number of
    INSERT statements executed before it, counting from [n]. *)
Fixpoint commit_points (n : nat) (t : list event) : list nat :=
  match t with
  | [] => []
  | Execute (INSERT _) _ :: t' => commit_points (S n) t'
  | Commit _ :: t' => n :: commit_points n t'
  | _ :: t' => commit_points n t'
  end.

(** The calls of the member listing: channel, page, page size, answer. *)
Definition fetch (ev : event) : option (string * nat * nat * (exn + list dict)) :=
  match ev with
  | GetChannelMembers c p pp ans => Some (c, p, pp, ans)
  | _ => None
  end.

Definition fetches (t : list event) : list (string * nat * nat * (exn + list dict)) :=
  omap fetch t.

(** The page index and the number of items of every call of the listing. *)
Definition fetch_size (ev : event) : option (nat * nat) :=
  match ev with
  | GetChannelMembers _ page _ (inr l) => Some (page, length l)
  | GetChannelMembers _ page _ (inl _) => Some (page, O)
  | _ => None
  end.

Definition fetch_sizes (t : list event) : list (nat * nat) := omap fetch_size t.

(** Everything but the log lines. *)
Definition is_log (ev : event) : bool :=
  match ev with
  | Log _ _ => true
  | _ => false
  end.

Definition interactions (t : list event) : list event :=
  filter (λ ev, is_log ev = false) t.

(** Which party an event belongs to. *)
Definition is_db (ev : event) : bool :=
  match ev with
  | Connect _ | Execute _ _ | Commit _ | Rollback _ | ConnExit _ => true
  | _ => false
  end.

Definition is_clock (ev : event) : bool :=
  match ev with
  | UtcNow _ => true
  | _ => false
  end.

Definition is_status_lookup (ev : event) : bool :=
  match ev with
  | GetUserStatusesById _ _ => true
  | _ => false
  end.

Definition is_identity_lookup (ev : event) : bool :=
  match ev with
  | GetUsersByIds _ _ => true
  | _ => false
  end.

Definition is_lookup (ev : event) : bool :=
  is_status_lookup ev || is_identity_lookup ev.

(** How many events of a trace satisfy a test. *)
Definition count (f : event → bool) (t : list event) : nat :=
  length (filter (λ ev, f ev = true) t).

(** A global lookup that raised. *)
Definition lookup_raised (ev : event) : bool :=
  match ev with
  | GetUserStatusesById _ (inl _) | GetUsersByIds _ (inl _) => true
  | _ => false
  end.

(** A hypertable conversion that raised an error other than "already a
    hypertable". *)
Definition hypertable_failed (ev : event) : bool :=
  match ev with
  | Execute CREATE_HYPERTABLE (Some e) => negb (already_hypertable e)
  | _ => false
  end.

(** The answers that provisioning gets over: any answer to the extension,
    compression and policy statements, "already a hypertable", and no
    error from table creation, rollback or commit. *)
Definition tolerated (ev : event) : bool :=
  match ev with
  | Execute CREATE_TABLE (Some _) => false
  | Execute CREATE_HYPERTABLE (Some e) => already_hypertable e
  | Rollback (Some _) | Commit (Some _) => false
  | _ => true
  end.

(** The statements of the two compression steps, main.py:107-139. *)
Definition is_compression_step (q : sql) : bool :=
  match q with
  | SET_COMPRESSION | ADD_COMPRESSION_POLICY => true
  | _ => false
  end.

(** A statement of a compression step that raised. *)
Definition compression_failed (ev : event) : bool :=
  match ev with
  | Execute q (Some _) => is_compression_step q
  | _ => false
  end.

(** The next call of a trace, log lines apart, is a rollback that
    raises. *)
Definition rollback_raises_next (t : list event) : bool :=
  match head (interactions t) with
  | Some (Rollback (Some _)) => true
  | _ => false
  end.

(** [rollback_lost t]: somewhere in [t] a statement of a compression step
    raises and the call that follows it is a rollback that raises as
    well: the [conn.rollback()] of main.py:121 or of main.py:139. *)
Fixpoint rollback_lost (t : list event) : bool :=
  match t with
  | [] => false
  | ev :: t' => compression_failed ev && rollback_raises_next t' || rollback_lost t'
  end.

(** ** More observations on traces *)

(** The SQL statements of a trace, in the order in which they were sent,
    whether they were executed or refused. *)
Definition statement (ev : event) : option sql :=
  match ev with
  | Execute q _ => Some q
  | _ => None
  end.

Definition statements (t : list event) : list sql := omap statement t.

(** The statements of [ensure_table_exists], in the order of main.py:57,
    72, 90, 108 and 129. *)
Definition provisioning : list sql :=
  [CREATE_EXTENSION; CREATE_TABLE; CREATE_HYPERTABLE; SET_COMPRESSION;
   ADD_COMPRESSION_POLICY].

Definition is_commit (ev : event) : bool :=
  match ev with
  | Commit _ => true
  | _ => false
  end.

Definition is_rollback (ev : event) : bool :=
  match ev with
  | Rollback _ => true
  | _ => false
  end.

Definition is_sleep (ev : event) : bool :=
  match ev with
  | Sleep _ _ => true
  | _ => false
  end.

Definition is_logout (ev : event) : bool :=
  match ev with
  | Logout _ => true
  | _ => false
  end.

(** The error of a database call that raised. *)
Definition db_error (ev : event) : option pg_error :=
  match ev with
  | Execute _ (Some e) | Commit (Some e) | Rollback (Some e) => Some e
  | _ => None
  end.

(** The rows of the open transaction: an executed INSERT adds one, a
    commit or a rollback that returns leaves none. *)
Definition uncommitted_step (n : nat) (ev : event) : nat :=
  match ev with
  | Execute (INSERT _) None => S n
  | Commit None | Rollback None => O
  | _ => n
  end.

(** [uncommitted n t]: the rows inserted and not committed at the end of
    [t], when they were [n] before it. *)
Definition uncommitted (n : nat) (t : list event) : nat :=
  foldl uncommitted_step n t.

(** [peak n t]: the largest number of uncommitted rows at any moment of
    [t]. *)
Fixpoint peak (n : nat) (t : list event) : nat :=
  match t with
  | [] => n
  | ev :: t' => n `max` peak (uncommitted_step n ev) t'
  end.

(** The page index, the page size and the channel of a listing call. *)
Definition fetch_page (f : string * nat * nat * (exn + list dict)) : nat := f.1.1.2.
Definition fetch_per_page (f : string * nat * nat * (exn + list dict)) : nat := f.1.2.
Definition fetch_channel (f : string * nat * nat * (exn + list dict)) : string :=
  f.1.1.1.

(** A listing call that returned a page with members on it. *)
Definition fetch_more (f : string * nat * nat * (exn + list dict)) : bool :=
  match f.2 with
  | inr (_ :: _) => true
  | _ => false
  end.

(** The stations of a run, in the order of [main]: login, team listing,
    clock, channel and member listings, status lookup, identity lookup,
    connection, provisioning statements, INSERT statements, exit of the
    connection block, logout.  Log lines, pauses, commits and rollbacks
    belong to no single station. *)
Definition stage (ev : event) : option nat :=
  match ev with
  | Login _ => Some 0%nat
  | GetUserTeams _ => Some 1%nat
  | UtcNow _ => Some 2%nat
  | GetChannelsForUser _ _ | GetChannelMembers _ _ _ _ => Some 3%nat
  | GetUserStatusesById _ _ => Some 4%nat
  | GetUsersByIds _ _ => Some 5%nat
  | Connect _ => Some 6%nat
  | Execute (INSERT _) _ => Some 8%nat
  | Execute _ _ => Some 7%nat
  | ConnExit _ => Some 9%nat
  | Logout _ => Some 10%nat
  | Log _ _ | Sleep _ _ | Commit _ | Rollback _ => None
  end.

(** [in_order n t]: the stations of [t] never go back, and none comes
    before station [n]. *)
Fixpoint in_order (n : nat) (t : list event) : bool :=
  match t with
  | [] => true
  | ev :: t' =>
      match stage ev with
      | None => in_order n t'
      | Some k => (n <=? k)%nat && in_order k t'
      end
  end.

(** The members that a listing call returned. *)
Definition listed (channel : string) (ev : event) : list dict :=
  match ev with
  | GetChannelMembers c _ _ (inr l) => if decide (c = channel) then l else []
  | _ => []
  end.

(** The teams that the team listing returned. *)
Definition teams_listed (ev : event) : list dict :=
  match ev with
  | GetUserTeams (inr l) => l
  | _ => []
  end.

(** The channels that the channel listing of a team returned. *)
Definition channels_listed (team : string) (ev : event) : list dict :=
  match ev with
  | GetChannelsForUser t (inr l) => if decide (t = team) then l else []
  | _ => []
  end.


(** The pairs of a dict comprehension, where every entry has both keys. *)
Definition entry (key val : string) (m : dict) : option (string * string) :=
  k ← m !! key; v ← m !! val; Some (k, v).

(** [sourced t rd]: the team, the channel and the user of the record
    [rd] were all returned by the driver in [t]: the team, with this id
    and name, by the team listing; the channel, with this id and stored
    name, by the channel listing of that team; the user by a member
    listing of that channel. *)
Definition sourced (t : list event) (rd : record) : Prop :=
  (∃ ev team, ev ∈ t ∧ team ∈ teams_listed ev
     ∧ team !! "id" = Some (r_team_id rd) ∧ team !! "name" = Some (r_team_name rd))
  ∧ (∃ ev channel, ev ∈ t ∧ channel ∈ channels_listed (r_team_id rd) ev
       ∧ channel !! "id" = Some (r_channel_id rd)
       ∧ channel_display_name channel = r_channel_name rd)
  ∧ (∃ ev member, ev ∈ t ∧ member ∈ listed (r_channel_id rd) ev
       ∧ member !! "user_id" = Some (r_user_id rd)).

(** A team or a channel entry with the keys that the script reads by
    subscript. *)
Definition well_formed_team (team : dict) : Prop :=
  is_Some (team !! "id") ∧ is_Some (team !! "name").

Definition well_formed_channel (channel : dict) : Prop := is_Some (channel !! "id").

(** ** Vocabulary of the statements *)

(** [emits Q m]: every event of every run of [m] satisfies [Q]. *)
Definition emits {W A} (Q : event → Prop) (m : M W A) : Prop :=
  ∀ w, Forall Q (trace (m w)).

(** [completes Q m]: [m] ends normally in every run all of whose events
    satisfy [Q]. *)
Definition completes {W A} (Q : event → Prop) (m : M W A) : Prop :=
  ∀ w, Forall Q (trace (m w)) → ∃ a, out (m w) = Ok a.

Section Vocabulary.
Context {W : Type} (P : Platform W) (cfg : config).

(** [listing channel page w batches w']: asked for the pages [page],
    [page + 1], ... of [channel] from the world [w], with the pause of
    [API_DELAY] after each of them, the driver returns the non-empty
    [batches], one per page, and then an empty page, in the world [w'].
    A pause is taken after every non-empty batch, so a listing with a
    batch needs a delay that [time.sleep] accepts; a listing without
    one needs nothing of the delay. *)
Inductive listing (channel : string) : nat → W → list (list dict) → W → Prop :=
| listing_end page w w' :
    mm_get_channel_members P channel page per_page w = (inr [], w') →
    listing channel page w [] w'
| listing_page page w b w1 bs w' :
    mm_get_channel_members P channel page per_page w = (inr b, w1) →
    b ≠ [] →
    sleep_error P (API_DELAY cfg) = None →
    listing channel (S page) (time_sleep P (API_DELAY cfg) w1) bs w' →
    listing channel page w (b :: bs) w'.

(** The trace of such a listing: a call and a pause for every batch, and
    the call that returns the empty page. *)
Fixpoint paging (channel : string) (page : nat) (batches : list (list dict))
    : list event :=
  match batches with
  | [] => [GetChannelMembers channel page per_page (inr [])]
  | b :: bs =>
      GetChannelMembers channel page per_page (inr b)
        :: Sleep (API_DELAY cfg) None :: paging channel (S page) bs
  end.

(** What the resolver asks the driver from the world [w]: nothing when
    there are no ids; otherwise the statuses of all ids and, when that
    call returns, after a pause of [API_DELAY], the users of all ids;
    when [time.sleep] refuses the delay, the pause raises and no
    identity lookup follows. *)
Definition lookups (ids : gset string) (w : W) : list event :=
  if decide (ids = ∅) then []
  else
    let l := elements ids in
    match mm_get_user_statuses_by_id P l w with
    | (inl e, _) => [GetUserStatusesById l (inl e)]
    | (inr statuses, w1) =>
        GetUserStatusesById l (inr statuses)
          :: match sleep_error P (API_DELAY cfg) with
             | Some e => [Sleep (API_DELAY cfg) (Some e)]
             | None =>
                 [Sleep (API_DELAY cfg) None;
                  GetUsersByIds l
                    (mm_get_users_by_ids P l (time_sleep P (API_DELAY cfg) w1)).1]
             end
    end.
End Vocabulary.

(** The events of collection up to the loop over the teams, when login
    and team listing succeed. *)
Definition collect_prefix (teams : list dict) (now : Z) : list event :=
  [Log INFO "Starting Mattermost online user collection script.";
   Login None;
   Log INFO "Logged in to Mattermost";
   GetUserTeams (inr teams);
   Log INFO "Found teams.";
   UtcNow now].

(** After which insertions a writer with batch size [b] commits when it
    has [n] records to write: after every [b]-th one, and after the last
    one when a remainder is left. *)
Definition batch_ends (b n : nat) : list nat :=
  filter (λ i, (i mod b = 0)%nat) (seq 1 n)
  ++ (if decide ((n mod b = 0)%nat) then [] else [n]).

(** The channel name as the comment of main.py:182 words it: the
    [display_name] if it is there and not empty, otherwise the [name],
    finally ["unknown"]. *)
Definition stored_channel_name (channel : dict) : string :=
  match channel !! "display_name" with
  | Some (String c s) => String c s
  | _ =>
      match channel !! "name" with
      | Some n => n
      | None => "unknown"
      end
  end.

(** The channel name by presence of the keys alone: the [display_name]
    when the key is present, otherwise the [name], otherwise
    ["unknown"]. *)
Definition name_by_presence (channel : dict) : string :=
  match channel !! "display_name" with
  | Some d => d
  | None =>
      match channel !! "name" with
      | Some n => n
      | None => "unknown"
      end
  end.

(** The user ids of a member list, where every member has one. *)
Definition member_ids (members : list dict) : gset string :=
  list_to_set (omap (λ m : dict, m !! "user_id") members).

(** The dict comprehension as a function: the dict built onto [acc], or
    the [KeyError] of the first entry that lacks a key. *)
Fixpoint build_dict (key val : string) (l : list dict) (acc : dict) : exn + dict :=
  match l with
  | [] => inr acc
  | m :: l' =>
      match m !! key with
      | None => inl (KeyError key)
      | Some k =>
          match m !! val with
          | None => inl (KeyError val)
          | Some v => build_dict key val l' (<[k := v]> acc)
          end
      end
  end.

(** ** Worlds for examples *)

Module Scenario.

(** A world that answers by the arguments of the call alone; its state is
    a clock that every call advances by one tick. *)
Record answers := Answers {
  sc_teams : exn + list dict;
  sc_channels : string → exn + list dict;
  sc_members : string → exn + list dict;
  sc_statuses : list string → exn + list dict;
  sc_users : list string → exn + list dict;
  sc_statement : sql → option pg_error;
  sc_rollback : option pg_error
}.

(** [time.sleep] as CPython has it: the delay is converted to a signed
    64-bit count of nanoseconds, which fails for a value that is not a
    number or does not fit (from about 292 years on), and the count must
    not be negative. *)
Definition refusal (secs : pyfloat) : option exn :=
  match secs with
  | NaN => Some ValueError
  | PosInf | NegInf => Some OverflowError
  | Finite q =>
      let ns := Qnum q * 1000000000 / Z.pos (Qden q) in
      if (ns <? - 2 ^ 63) || (2 ^ 63 <=? ns) then Some OverflowError
      else if ns <? 0 then Some ValueError
      else None
  end.

(** The slice of a member list that a page holds. *)
Definition page_of (page per_page : nat) (l : list dict) : list dict :=
  take per_page (drop (page * per_page) l).

Definition platform (s : answers) : Platform Z := {|
  mm_login w := (None, w + 1);
  mm_get_user_teams w := (sc_teams s, w + 1);
  mm_get_channels_for_user team w := (sc_channels s team, w + 1);
  mm_get_channel_members channel page per_page w :=
    (match sc_members s channel with
     | inl e => inl e
     | inr l => inr (page_of page per_page l)
     end, w + 1);
  mm_get_user_statuses_by_id ids w := (sc_statuses s ids, w + 1);
  mm_get_users_by_ids ids w := (sc_users s ids, w + 1);
  mm_logout w := (None, w + 1);
  clock_now w := (w, w + 1);
  sleep_error := refusal;
  time_sleep secs w := w + 1;
  pg_connect w := (None, w + 1);
  pg_execute q w := (sc_statement s q, w + 1);
  pg_commit w := (None, w + 1);
  pg_rollback w := (sc_rollback s, w + 1)
|}.

Definition team (id name : string) : dict := {[ "id" := id; "name" := name ]}.
Definition channel (id display_name name : string) : dict :=
  {[ "id" := id; "display_name" := display_name; "name" := name ]}.
Definition member (user_id : string) : dict := {[ "user_id" := user_id ]}.
Definition user (id username : string) : dict :=
  {[ "id" := id; "username" := username ]}.
Definition user_status (user_id status : string) : dict :=
  {[ "user_id" := user_id; "status" := status ]}.

(** A pause of a millisecond, batches of two. *)
Definition cfg : config := Config (Finite (1 # 1000)) 2.

(** Two teams with one channel each, members {u1, u2} and {u2, u3}; the
    identity lookup knows u1 and u3 only. *)
Definition two_teams : answers := {|
  sc_teams := inr [team "A" "alpha"; team "B" "beta"];
  sc_channels t :=
    if bool_decide (t = "A") then inr [channel "ca" "Town Square" "town-square"]
    else if bool_decide (t = "B") then inr [channel "cb" "Off-Topic" "off-topic"]
    else inl (ApiError "no such team");
  sc_members c :=
    if bool_decide (c = "ca") then inr [member "u1"; member "u2"]
    else if bool_decide (c = "cb") then inr [member "u2"; member "u3"]
    else inl (ApiError "no such channel");
  sc_statuses ids := inr ((λ u, user_status u "online") <$> ids);
  sc_users ids := inr [user "u1" "ann"; user "u3" "cat"];
  sc_statement q := None;
  sc_rollback := None
|}.

(** The account is in no team. *)
Definition no_teams : answers := {|
  sc_teams := inr [];
  sc_channels := sc_channels two_teams;
  sc_members := sc_members two_teams;
  sc_statuses := sc_statuses two_teams;
  sc_users := sc_users two_teams;
  sc_statement := sc_statement two_teams;
  sc_rollback := None
|}.

(** The status lookup is down. *)
Definition statuses_down : answers := {|
  sc_teams := sc_teams two_teams;
  sc_channels := sc_channels two_teams;
  sc_members := sc_members two_teams;
  sc_statuses ids := inl (ApiError "503 Service Unavailable");
  sc_users := sc_users two_teams;
  sc_statement := sc_statement two_teams;
  sc_rollback := None
|}.

(** The channels of team A cannot be fetched; team B has two channels, and
    the members of the first one cannot be listed. *)
Definition outage : answers := {|
  sc_teams := inr [team "A" "alpha"; team "B" "beta"];
  sc_channels t :=
    if bool_decide (t = "B")
    then inr [channel "cx" "Broken" "broken"; channel "cb" "Off-Topic" "off-topic"]
    else inl (ApiError "500 Internal Server Error");
  sc_members c :=
    if bool_decide (c = "cb") then inr [member "u2"; member "u3"]
    else inl (ApiError "403 Forbidden");
  sc_statuses := sc_statuses two_teams;
  sc_users := sc_users two_teams;
  sc_statement q := None;
  sc_rollback := None
|}.

(** A direct-message channel: its [display_name] is the empty string. *)
Definition dm : dict := channel "dm" EmptyString "u1__u2".

Definition direct_messages : answers := {|
  sc_teams := inr [team "A" "alpha"];
  sc_channels t := inr [dm];
  sc_members c := inr [member "u1"; member "u2"];
  sc_statuses := sc_statuses two_teams;
  sc_users := sc_users two_teams;
  sc_statement q := None;
  sc_rollback := None
|}.

(** A listing that names u1 three times. *)
Definition repeats : answers := {|
  sc_teams := inr [team "A" "alpha"];
  sc_channels t := inr [channel "ca" "Town Square" "town-square"];
  sc_members c := inr [member "u1"; member "u2"; member "u1"; member "u1"];
  sc_statuses := sc_statuses two_teams;
  sc_users := sc_users two_teams;
  sc_statement q := None;
  sc_rollback := None
|}.

(** The hypertable conversion fails. *)
Definition hypertable_down : answers := {|
  sc_teams := sc_teams two_teams;
  sc_channels := sc_channels two_teams;
  sc_members := sc_members two_teams;
  sc_statuses := sc_statuses two_teams;
  sc_users := sc_users two_teams;
  sc_statement q :=
    match q with
    | CREATE_HYPERTABLE => Some (PgError (Some "XX000") "could not create hypertable")
    | _ => None
    end;
  sc_rollback := None
|}.

(** A second run on a database without the privilege for the extension:
    the table is a hypertable already, compression cannot be set, and
    the policy cannot be registered. *)
Definition second_run : answers := {|
  sc_teams := sc_teams two_teams;
  sc_channels := sc_channels two_teams;
  sc_members := sc_members two_teams;
  sc_statuses := sc_statuses two_teams;
  sc_users := sc_users two_teams;
  sc_statement q :=
    match q with
    | CREATE_EXTENSION => Some (PgError (Some "42501") "permission denied")
    | CREATE_HYPERTABLE =>
        Some (PgError None "Table channel_user_status is Already a Hypertable")
    | SET_COMPRESSION => Some (PgError (Some "0A000") "feature not supported")
    | ADD_COMPRESSION_POLICY => Some (PgError (Some "XX000") "scheduler is down")
    | _ => None
    end;
  sc_rollback := None
|}.

(** The compression policy is there already. *)
Definition policy_there : answers := {|
  sc_teams := sc_teams two_teams;
  sc_channels := sc_channels two_teams;
  sc_members := sc_members two_teams;
  sc_statuses := sc_statuses two_teams;
  sc_users := sc_users two_teams;
  sc_statement q :=
    match q with
    | ADD_COMPRESSION_POLICY => Some (PgError (Some "42710") "duplicate object")
    | _ => None
    end;
  sc_rollback := None
|}.

(** A channel with 250 members, named u000 ... u249. *)
Definition digit (n : nat) : ascii := ascii_of_nat (48 + n mod 10).

Definition uid (i : nat) : string :=
  String "u" (String (digit (i / 100)) (String (digit (i / 10))
    (String (digit i) EmptyString))).

Definition crowd (n : nat) : list dict := (λ i, member (uid i)) <$> seq 0 n.

Definition big_channel : answers := {|
  sc_teams := inr [team "A" "alpha"];
  sc_channels t := inr [channel "hall" "Hall" "hall"];
  sc_members c := inr (crowd 250);
  sc_statuses ids := inr [];
  sc_users ids := inr [];
  sc_statement q := None;
  sc_rollback := None
|}.

(** Five collected records, to be written in batches of two. *)
Definition five_records : list record :=
  (λ u, Record_ 7 "A" "alpha" "ca" "Town Square" u) <$> ["u1"; "u2"; "u3"; "u4"; "u5"].

(** The empty accumulators of main.py:166-167. *)
Definition start : acc := (∅, []).

(** What collection returns in a world, with fuel for five pages per
    channel. *)
Definition collected_in (s : answers) : acc :=
  match out (collect (platform s) cfg 5 0) with
  | Ok a => a
  | _ => (∅, [])
  end.

End Scenario.

(** ** Worlds with faults *)

Module Faults.

(** The world of [Scenario.platform] with another member listing, another
    login or another connection. *)
Definition with_members (f : string → nat → nat → Z → (exn + list dict) * Z)
    (p : Platform Z) : Platform Z := {|
  mm_login := mm_login p;
  mm_get_user_teams := mm_get_user_teams p;
  mm_get_channels_for_user := mm_get_channels_for_user p;
  mm_get_channel_members := f;
  mm_get_user_statuses_by_id := mm_get_user_statuses_by_id p;
  mm_get_users_by_ids := mm_get_users_by_ids p;
  mm_logout := mm_logout p;
  clock_now := clock_now p;
  sleep_error := sleep_error p;
  time_sleep := time_sleep p;
  pg_connect := pg_connect p;
  pg_execute := pg_execute p;
  pg_commit := pg_commit p;
  pg_rollback := pg_rollback p
|}.

Definition with_login (f : Z → option exn * Z) (p : Platform Z) : Platform Z := {|
  mm_login := f;
  mm_get_user_teams := mm_get_user_teams p;
  mm_get_channels_for_user := mm_get_channels_for_user p;
  mm_get_channel_members := mm_get_channel_members p;
  mm_get_user_statuses_by_id := mm_get_user_statuses_by_id p;
  mm_get_users_by_ids := mm_get_users_by_ids p;
  mm_logout := mm_logout p;
  clock_now := clock_now p;
  sleep_error := sleep_error p;
  time_sleep := time_sleep p;
  pg_connect := pg_connect p;
  pg_execute := pg_execute p;
  pg_commit := pg_commit p;
  pg_rollback := pg_rollback p
|}.

Definition with_connect (f : Z → option exn * Z) (p : Platform Z) : Platform Z := {|
  mm_login := mm_login p;
  mm_get_user_teams := mm_get_user_teams p;
  mm_get_channels_for_user := mm_get_channels_for_user p;
  mm_get_channel_members := mm_get_channel_members p;
  mm_get_user_statuses_by_id := mm_get_user_statuses_by_id p;
  mm_get_users_by_ids := mm_get_users_by_ids p;
  mm_logout := mm_logout p;
  clock_now := clock_now p;
  sleep_error := sleep_error p;
  time_sleep := time_sleep p;
  pg_connect := f;
  pg_execute := pg_execute p;
  pg_commit := pg_commit p;
  pg_rollback := pg_rollback p
|}.

(** The second page of every member listing cannot be fetched. *)
Definition flaky_listing : Platform Z :=
  with_members
    (λ channel page per_page w,
       (if (page =? 1)%nat then inl (ApiError "502 Bad Gateway")
        else inr (Scenario.page_of page per_page (Scenario.crowd 250)), w + 1))
    (Scenario.platform Scenario.big_channel).

(** A driver that takes no notice of the page index: every call returns
    the same two members. *)
Definition stuck_listing : Platform Z :=
  with_members
    (λ channel page per_page w,
       (inr [Scenario.member "u1"; Scenario.member "u2"], w + 1))
    (Scenario.platform Scenario.two_teams).

(** The login is refused. *)
Definition login_refused : Platform Z :=
  with_login (λ w, (Some (ApiError "401 Unauthorized"), w + 1))
    (Scenario.platform Scenario.two_teams).

(** The database cannot be reached. *)
Definition db_unreachable : Platform Z :=
  with_connect (λ w, (Some (ApiError "connection refused"), w + 1))
    (Scenario.platform Scenario.two_teams).

(** The channels of team A cannot be fetched; every member listing
    succeeds. *)
Definition team_down : Scenario.answers := {|
  Scenario.sc_teams := Scenario.sc_teams Scenario.two_teams;
  Scenario.sc_channels t :=
    if bool_decide (t = "A") then inl (ApiError "500 Internal Server Error")
    else Scenario.sc_channels Scenario.two_teams t;
  Scenario.sc_members c := inr [Scenario.member "u2"; Scenario.member "u3"];
  Scenario.sc_statuses := Scenario.sc_statuses Scenario.two_teams;
  Scenario.sc_users := Scenario.sc_users Scenario.two_teams;
  Scenario.sc_statement q := None;
  Scenario.sc_rollback := None
|}.

(** The table cannot be created. *)
Definition table_down : Scenario.answers := {|
  Scenario.sc_teams := Scenario.sc_teams Scenario.two_teams;
  Scenario.sc_channels := Scenario.sc_channels Scenario.two_teams;
  Scenario.sc_members := Scenario.sc_members Scenario.two_teams;
  Scenario.sc_statuses := Scenario.sc_statuses Scenario.two_teams;
  Scenario.sc_users := Scenario.sc_users Scenario.two_teams;
  Scenario.sc_statement q :=
    match q with
    | CREATE_TABLE => Some (PgError (Some "42501") "permission denied for schema public")
    | _ => None
    end;
  Scenario.sc_rollback := None
|}.

(** Neither the extension can be created nor the transaction rolled
    back. *)
Definition no_extension : Scenario.answers := {|
  Scenario.sc_teams := Scenario.sc_teams Scenario.two_teams;
  Scenario.sc_channels := Scenario.sc_channels Scenario.two_teams;
  Scenario.sc_members := Scenario.sc_members Scenario.two_teams;
  Scenario.sc_statuses := Scenario.sc_statuses Scenario.two_teams;
  Scenario.sc_users := Scenario.sc_users Scenario.two_teams;
  Scenario.sc_statement q :=
    match q with
    | CREATE_EXTENSION => Some (PgError (Some "42501") "permission denied")
    | _ => None
    end;
  Scenario.sc_rollback := Some (PgError None "no transaction in progress")
|}.

(** The server drops the connection while the compression settings are
    applied: the statement raises, and so does the rollback after it. *)
Definition connection_lost : Scenario.answers := {|
  Scenario.sc_teams := Scenario.sc_teams Scenario.two_teams;
  Scenario.sc_channels := Scenario.sc_channels Scenario.two_teams;
  Scenario.sc_members := Scenario.sc_members Scenario.two_teams;
  Scenario.sc_statuses := Scenario.sc_statuses Scenario.two_teams;
  Scenario.sc_users := Scenario.sc_users Scenario.two_teams;
  Scenario.sc_statement q :=
    match q with
    | SET_COMPRESSION =>
        Some (PgError None "server closed the connection unexpectedly")
    | _ => None
    end;
  Scenario.sc_rollback := Some (PgError None "the connection is lost")
|}.

(** The same while the compression policy is registered. *)
Definition connection_lost_later : Scenario.answers := {|
  Scenario.sc_teams := Scenario.sc_teams Scenario.two_teams;
  Scenario.sc_channels := Scenario.sc_channels Scenario.two_teams;
  Scenario.sc_members := Scenario.sc_members Scenario.two_teams;
  Scenario.sc_statuses := Scenario.sc_statuses Scenario.two_teams;
  Scenario.sc_users := Scenario.sc_users Scenario.two_teams;
  Scenario.sc_statement q :=
    match q with
    | ADD_COMPRESSION_POLICY =>
        Some (PgError None "server closed the connection unexpectedly")
    | _ => None
    end;
  Scenario.sc_rollback := Some (PgError None "the connection is lost")
|}.

(** The row of u3 is refused. *)
Definition row_refused : Scenario.answers := {|
  Scenario.sc_teams := Scenario.sc_teams Scenario.two_teams;
  Scenario.sc_channels := Scenario.sc_channels Scenario.two_teams;
  Scenario.sc_members := Scenario.sc_members Scenario.two_teams;
  Scenario.sc_statuses := Scenario.sc_statuses Scenario.two_teams;
  Scenario.sc_users := Scenario.sc_users Scenario.two_teams;
  Scenario.sc_statement q :=
    match q with
    | INSERT r =>
        if bool_decide (user_id r = "u3")
        then Some (PgError (Some "23514") "check constraint violated")
        else None
    | _ => None
    end;
  Scenario.sc_rollback := None
|}.

(** The second team comes without its name. *)
Definition nameless_team : Scenario.answers := {|
  Scenario.sc_teams := inr [Scenario.team "A" "alpha"; {[ "id" := "B" ]}];
  Scenario.sc_channels := Scenario.sc_channels Scenario.two_teams;
  Scenario.sc_members := Scenario.sc_members Scenario.two_teams;
  Scenario.sc_statuses := Scenario.sc_statuses Scenario.two_teams;
  Scenario.sc_users := Scenario.sc_users Scenario.two_teams;
  Scenario.sc_statement q := None;
  Scenario.sc_rollback := None
|}.

(** A channel without an id among the channels of team A. *)
Definition nameless_channel : Scenario.answers := {|
  Scenario.sc_teams := Scenario.sc_teams Scenario.two_teams;
  Scenario.sc_channels t :=
    inr [Scenario.channel "ca" "Town Square" "town-square";
         {[ "display_name" := "Lost" ]}];
  Scenario.sc_members := Scenario.sc_members Scenario.two_teams;
  Scenario.sc_statuses := Scenario.sc_statuses Scenario.two_teams;
  Scenario.sc_users := Scenario.sc_users Scenario.two_teams;
  Scenario.sc_statement q := None;
  Scenario.sc_rollback := None
|}.

(** The member listing of channel ca holds an entry without user id. *)
Definition odd_member : Scenario.answers := {|
  Scenario.sc_teams := Scenario.sc_teams Scenario.two_teams;
  Scenario.sc_channels := Scenario.sc_channels Scenario.two_teams;
  Scenario.sc_members c :=
    if bool_decide (c = "ca")
    then inr [Scenario.member "u1"; {[ "roles" := "channel_user" ]}; Scenario.member "u2"]
    else Scenario.sc_members Scenario.two_teams c;
  Scenario.sc_statuses := Scenario.sc_statuses Scenario.two_teams;
  Scenario.sc_users := Scenario.sc_users Scenario.two_teams;
  Scenario.sc_statement q := None;
  Scenario.sc_rollback := None
|}.

(** The status lookup returns an entry without status. *)
Definition odd_status : Scenario.answers := {|
  Scenario.sc_teams := Scenario.sc_teams Scenario.two_teams;
  Scenario.sc_channels := Scenario.sc_channels Scenario.two_teams;
  Scenario.sc_members := Scenario.sc_members Scenario.two_teams;
  Scenario.sc_statuses ids := inr [Scenario.user_status "u1" "away"; {[ "user_id" := "u2" ]}];
  Scenario.sc_users := Scenario.sc_users Scenario.two_teams;
  Scenario.sc_statement q := None;
  Scenario.sc_rollback := None
|}.

(** The identity lookup names u1 twice. *)
Definition renamed_user : Scenario.answers := {|
  Scenario.sc_teams := Scenario.sc_teams Scenario.two_teams;
  Scenario.sc_channels := Scenario.sc_channels Scenario.two_teams;
  Scenario.sc_members := Scenario.sc_members Scenario.two_teams;
  Scenario.sc_statuses := Scenario.sc_statuses Scenario.two_teams;
  Scenario.sc_users ids := inr [Scenario.user "u1" "ann"; Scenario.user "u1" "anna"];
  Scenario.sc_statement q := None;
  Scenario.sc_rollback := None
|}.

(** A negative pause: [API_DELAY=-0.001]. *)
Definition negative_delay : config := Config (Finite (-1 # 1000)) 2.

(** A pause without end: [API_DELAY=inf]. *)
Definition endless_delay : config := Config PosInf 2.

(** No batching configured: [BATCH_SIZE=0]. *)
Definition no_batches : config := Config (Finite (1 # 1000)) 0.

(** A negative batch size. *)
Definition negative_batches : config := Config (Finite (1 # 1000)) (-2).

End Faults.

(** ** Facts about the monad *)

Section MonadFacts.
Context {W : Type}.
Implicit Types (w : W) (t : list event) (e : exn).

Lemma after_nil {A} (r : run W A) : after [] r = r.
Proof. by destruct r. Qed.

Lemma after_after {A} t1 t2 (r : run W A) :
  after t1 (after t2 r) = after (t1 ++ t2) r.
Proof. unfold after; simpl. by rewrite app_assoc. Qed.

Lemma bind_ok {A B} (m : M W A) (k : A → M W B) w a w1 t1 :
  m w = Run (Ok a) w1 t1 → bind m k w = after t1 (k a w1).
Proof. unfold bind. by intros ->. Qed.

Lemma bind_raise {A B} (m : M W A) (k : A → M W B) w e w1 t1 :
  m w = Run (Raise e) w1 t1 → bind m k w = Run (Raise e) w1 t1.
Proof. unfold bind. by intros ->. Qed.

Lemma bind_out_of_fuel {A B} (m : M W A) (k : A → M W B) w w1 t1 :
  m w = Run OutOfFuel w1 t1 → bind m k w = Run OutOfFuel w1 t1.
Proof. unfold bind. by intros ->. Qed.

Lemma bind_ret {A B} (a : A) (k : A → M W B) w : bind (ret a) k w = k a w.
Proof. unfold bind, ret. apply after_nil. Qed.

Lemma bind_emit {B} ev (k : unit → M W B) w :
  bind (emit ev) k w = after [ev] (k tt w).
Proof. reflexivity. Qed.

Lemma bind_bind {A B C} (m : M W A) (k : A → M W B) (h : B → M W C) w :
  bind (bind m k) h w = bind m (λ a, bind (k a) h) w.
Proof.
  unfold bind. destruct (m w) as [[a|e|] w1 t1]; try done.
  destruct (k a w1) as [[b|e|] w2 t2]; simpl; try done.
  by rewrite after_after.
Qed.

Lemma try_except_ok {A} (m : M W A) h w a w1 t1 :
  m w = Run (Ok a) w1 t1 → try_except m h w = Run (Ok a) w1 t1.
Proof. unfold try_except. by intros ->. Qed.

Lemma try_except_raise {A} (m : M W A) h w e w1 t1 :
  m w = Run (Raise e) w1 t1 → try_except m h w = after t1 (h e w1).
Proof. unfold try_except. by intros ->. Qed.

Lemma bind_run {A B} (m : M W A) (k : A → M W B) (w : W) :
  bind m k w =
  match out (m w) with
  | Ok a => after (trace (m w)) (k a (world (m w)))
  | Raise e => Run (Raise e) (world (m w)) (trace (m w))
  | OutOfFuel => Run OutOfFuel (world (m w)) (trace (m w))
  end.
Proof. unfold bind. by destruct (m w) as [[a|e|] w1 t1]. Qed.

Lemma trace_bind_prefix {A B} (m : M W A) (k : A → M W B) (w : W) :
  trace (m w) `prefix_of` trace (bind m k w).
Proof.
  rewrite bind_run. destruct (out (m w)); simpl; try done.
  by apply prefix_app_r.
Qed.

Lemma trace_bind {A B} (m : M W A) (k : A → M W B) (w : W) :
  trace (bind m k w)
  = trace (m w) ++ match out (m w) with
                   | Ok a => trace (k a (world (m w)))
                   | _ => []
                   end.
Proof. rewrite bind_run. destruct (out (m w)); simpl; by rewrite ?app_nil_r. Qed.

Lemma out_bind {A B} (m : M W A) (k : A → M W B) (w : W) :
  out (bind m k w)
  = match out (m w) with
    | Ok a => out (k a (world (m w)))
    | Raise e => Raise e
    | OutOfFuel => OutOfFuel
    end.
Proof. rewrite bind_run. by destruct (out (m w)). Qed.

Lemma trace_finally {A} (m : M W A) exit (w : W) :
  trace (finally m exit w)
  = trace (m w) ++ match out (m w) with
                   | Ok _ => [exit false]
                   | Raise _ => [exit true]
                   | OutOfFuel => []
                   end.
Proof.
  unfold finally. destruct (m w) as [[a|e|] w1 t1]; simpl; by rewrite ?app_nil_r.
Qed.

Lemma out_finally {A} (m : M W A) exit (w : W) :
  out (finally m exit w) = out (m w).
Proof. unfold finally. by destruct (m w) as [[a|e|] w1 t1]. Qed.

(** A property of the loop state that every iteration keeps holds when
    the loop ends normally. *)
Lemma for_each_invariant {A S} (I : S → Prop) (body : A → S → M W S) (l : list A) :
  (∀ x s w s', I s → out (body x s w) = Ok s' → I s') →
  ∀ s w s', I s → out (for_each l body s w) = Ok s' → I s'.
Proof.
  intros Hbody. induction l as [|x l IH]; intros s w s' Hs; simpl.
  - by intros [= <-].
  - rewrite bind_run. destruct (out (body x s w)) as [s1| |] eqn:H1; simpl; try done.
    apply IH. by eapply Hbody.
Qed.

(** *** What a computation emits *)

Lemma emits_ret {A} Q (a : A) : emits Q (ret a : M W A).
Proof. intros w. constructor. Qed.

Lemma emits_raise {A} Q e : emits Q (@raise W A e).
Proof. intros w. constructor. Qed.

Lemma emits_out_of_fuel {A} Q : emits Q (@out_of_fuel W A).
Proof. intros w. constructor. Qed.

Lemma emits_emit Q ev : Q ev → emits Q (@emit W ev).
Proof. intros H w. by repeat constructor. Qed.

Lemma emits_bind {A B} Q (m : M W A) (k : A → M W B) :
  emits Q m → (∀ a, emits Q (k a)) → emits Q (bind m k).
Proof.
  intros Hm Hk w. specialize (Hm w). unfold bind.
  destruct (m w) as [[a|e|] w1 t1]; simpl in *; try done.
  apply Forall_app. split; [done | apply Hk].
Qed.

Lemma emits_try_except {A} Q (m : M W A) h :
  emits Q m → (∀ e, emits Q (h e)) → emits Q (try_except m h).
Proof.
  intros Hm Hh w. specialize (Hm w). unfold try_except.
  destruct (m w) as [[a|e|] w1 t1]; simpl in *; try done.
  apply Forall_app. split; [done | apply Hh].
Qed.

Lemma emits_try_except_pg {A} Q (m : M W A) (h : pg_error → M W A) :
  emits Q m → (∀ pe, emits Q (h pe)) → emits Q (try_except_pg m h).
Proof.
  intros Hm Hh. apply emits_try_except; [done |].
  intros [ | | | |pe| ]; auto using emits_raise.
Qed.

Lemma emits_finally {A} Q (m : M W A) exit :
  emits Q m → (∀ b, Q (exit b)) → emits Q (finally m exit).
Proof.
  intros Hm Hx w. specialize (Hm w). unfold finally.
  destruct (m w) as [[a|e|] w1 t1]; simpl in *; try done;
    apply Forall_app; split; try done; by repeat constructor.
Qed.

Lemma emits_call {A} Q (f : W → (exn + A) * W) ev :
  (∀ ans, Q (ev ans)) → emits Q (call f ev).
Proof. intros H w. unfold call. destruct (f w). by repeat constructor. Qed.

Lemma emits_command {E} Q (f : W → option E * W) inj ev :
  (∀ ans, Q (ev ans)) → emits Q (command f inj ev).
Proof. intros H w. unfold command. destruct (f w). by repeat constructor. Qed.

Lemma emits_getitem Q (d : dict) k : emits Q (@getitem W d k).
Proof. unfold getitem. destruct (d !! k); auto using emits_ret, emits_raise. Qed.

Lemma emits_py_mod Q a b : emits Q (@py_mod W a b).
Proof. unfold py_mod. destruct (b =? 0); auto using emits_ret, emits_raise. Qed.

Lemma emits_for_each {A S} Q (l : list A) (body : A → S → M W S) s :
  (∀ x s', emits Q (body x s')) → emits Q (for_each l body s).
Proof.
  intros Hb. revert s. induction l as [|x l IH]; intros s; simpl.
  - apply emits_ret.
  - apply emits_bind; auto.
Qed.

Lemma emits_dict_comprehension Q key val l :
  emits Q (@dict_comprehension W key val l).
Proof.
  apply emits_for_each. intros m acc.
  repeat (apply emits_bind; [apply emits_getitem | intros]).
  apply emits_ret.
Qed.

Lemma emits_set_comprehension Q key l : emits Q (@set_comprehension W key l).
Proof.
  apply emits_for_each. intros m acc.
  apply emits_bind; [apply emits_getitem | intros; apply emits_ret].
Qed.
Lemma emits_nothing {A} (m : M W A) (w : W) :
  emits (λ _, False) m → trace (m w) = [].
Proof. intros H. specialize (H w). by destruct H. Qed.

Lemma completes_bind {A B} Q (m : M W A) (k : A → M W B) :
  completes Q m → (∀ a, completes Q (k a)) → completes Q (bind m k).
Proof.
  intros Hm Hk w. rewrite bind_run. intros H.
  destruct (Hm w) as [a Ha].
  { destruct (out (m w)); simpl in H; try done. by apply Forall_app in H as [? _]. }
  rewrite Ha in *. simpl in *. apply Forall_app in H as [_ H]. by apply Hk.
Qed.
End MonadFacts.

(** ** Facts about lists and traces *)

Lemma omap_none_forall {A B} (f : A → option B) (l : list A) :
  Forall (λ x, f x = None) l → omap f l = [].
Proof. induction 1 as [|x l Hx _ IH]; simpl; [done | by rewrite Hx]. Qed.

Lemma Forall_prefix {A} (Q : A → Prop) (l1 l2 : list A) :
  l1 `prefix_of` l2 → Forall Q l2 → Forall Q l1.
Proof. intros [k ->] H. by apply Forall_app in H as [? _]. Qed.

Lemma Forall_Exists_bool {A} (f : A → bool) (l : list A) :
  Forall (λ x, f x = false) l → Exists (λ x, f x = true) l → False.
Proof.
  intros Hall Hex. apply Exists_exists in Hex as (x & Hin & Hx).
  rewrite Forall_forall in Hall. specialize (Hall x Hin). congruence.
Qed.

Lemma Exists_existsb {A} (f : A → bool) (l : list A) :
  existsb f l = true → Exists (λ x, f x = true) l.
Proof.
  induction l as [|x l IH]; simpl; [done |].
  destruct (f x) eqn:Hx; simpl; [by left | right; auto].
Qed.

Lemma Forall_forallb {A} (f : A → bool) (l : list A) :
  forallb f l = true → Forall (λ x, f x = true) l.
Proof.
  induction l as [|x l IH]; simpl; [by constructor |].
  destruct (f x) eqn:Hx; simpl; [| done]. constructor; auto.
Qed.

Lemma mapM_lookup_omap (key : string) (l : list dict) :
  Forall (λ m : dict, is_Some (m !! key)) l →
  mapM (λ m : dict, m !! key) l = Some (omap (λ m : dict, m !! key) l).
Proof.
  induction 1 as [|m l [k Hk] _ IH]; simpl; [done |].
  by rewrite Hk, IH.
Qed.

Lemma filter_eq_absent (u : string) (l : list string) :
  u ∉ l → filter (λ x, x = u) l = [].
Proof.
  induction l as [|x l IH]; intros Hu; [done |].
  apply not_elem_of_cons in Hu as [Hne Hu].
  rewrite filter_cons, decide_False by done. by apply IH.
Qed.

Lemma length_filter_eq_NoDup (u : string) (l : list string) :
  NoDup l → u ∈ l → length (filter (λ x, x = u) l) = 1%nat.
Proof.
  induction 1 as [|x l Hx Hnd IH]; intros Hu; [by apply elem_of_nil in Hu |].
  rewrite filter_cons. apply elem_of_cons in Hu as [-> | Hu].
  - rewrite decide_True by done. simpl. by rewrite filter_eq_absent.
  - rewrite decide_False by (intros ->; done). by apply IH.
Qed.

Lemma written_app (t1 t2 : list event) :
  written (t1 ++ t2) = written t1 ++ written t2.
Proof. apply omap_app. Qed.

Lemma written_log lv msg (t : list event) :
  written (Log lv msg :: t) = written t.
Proof. done. Qed.

Lemma written_none (t : list event) :
  Forall (λ ev, written_row ev = None) t → written t = [].
Proof. apply omap_none_forall. Qed.

Lemma written_no_db (t : list event) :
  Forall (λ ev, is_db ev = false) t → written t = [].
Proof.
  intros H. apply written_none. eapply Forall_impl; [exact H |]. by intros [].
Qed.

Lemma clock_reads_app (t1 t2 : list event) :
  clock_reads (t1 ++ t2) = clock_reads t1 ++ clock_reads t2.
Proof. apply omap_app. Qed.

Lemma clock_reads_no_clock (t : list event) :
  Forall (λ ev, is_clock ev = false) t → clock_reads t = [].
Proof.
  intros H. apply omap_none_forall. eapply Forall_impl; [exact H |].
  by intros [].
Qed.

Lemma insert_count_app (t1 t2 : list event) :
  insert_count (t1 ++ t2) = (insert_count t1 + insert_count t2)%nat.
Proof.
  induction t1 as [|ev t1 IH]; simpl; [done |].
  destruct ev as [| | | | | | | | | | |q ans| | |]; simpl; try done.
  destruct q; simpl; by rewrite ?IH.
Qed.

Lemma insert_count_log lv msg (t : list event) :
  insert_count (Log lv msg :: t) = insert_count t.
Proof. done. Qed.

Lemma commit_points_app (n : nat) (t1 t2 : list event) :
  commit_points n (t1 ++ t2)
  = commit_points n t1 ++ commit_points (n + insert_count t1) t2.
Proof.
  revert n. induction t1 as [|ev t1 IH]; intros n; simpl.
  - by rewrite Nat.add_0_r.
  - destruct ev as [| | | | | | | | | | |q ans| | |]; simpl; rewrite ?IH; try done.
    destruct q; simpl; rewrite ?IH; try done.
    f_equal. f_equal. lia.
Qed.

Lemma commit_points_log n lv msg (t : list event) :
  commit_points n (Log lv msg :: t) = commit_points n t.
Proof. done. Qed.

Lemma count_app (f : event → bool) (t1 t2 : list event) :
  count f (t1 ++ t2) = (count f t1 + count f t2)%nat.
Proof. unfold count. by rewrite filter_app, length_app. Qed.

Lemma count_none (f : event → bool) (t : list event) :
  Forall (λ ev, f ev = false) t → count f t = 0%nat.
Proof.
  unfold count. induction 1 as [|ev t Hev _ IH]; [done |].
  rewrite filter_cons_False by (by rewrite Hev). exact IH.
Qed.

Lemma count_lookup_none (t : list event) :
  Forall (λ ev, is_lookup ev = false) t →
  count is_status_lookup t = 0%nat ∧ count is_identity_lookup t = 0%nat.
Proof.
  intros H. split; apply count_none; (eapply Forall_impl; [exact H |]);
    intros ev; unfold is_lookup; by destruct (is_status_lookup ev), (is_identity_lookup ev).
Qed.

Lemma rollback_raises_next_quiet (t : list event) :
  Forall (λ ev, is_rollback ev = false) t → rollback_raises_next t = false.
Proof.
  unfold rollback_raises_next, interactions.
  induction 1 as [|ev t Hev _ IH]; [done |].
  rewrite filter_cons. destruct (decide (is_log ev = false)); [| exact IH].
  by destruct ev.
Qed.

Lemma rollback_raises_next_app (t1 t2 : list event) :
  Forall (λ ev, is_rollback ev = false) t2 →
  rollback_raises_next (t1 ++ t2) = rollback_raises_next t1.
Proof.
  intros H2. induction t1 as [|ev t1 IH].
  - by rewrite rollback_raises_next_quiet.
  - revert IH. unfold rollback_raises_next, interactions. simpl.
    rewrite !filter_cons. by destruct (decide (is_log ev = false)).
Qed.

(** Events without a rollback add nothing at the end of a trace. *)
Lemma rollback_lost_app_r (t1 t2 : list event) :
  Forall (λ ev, is_rollback ev = false) t2 →
  rollback_lost (t1 ++ t2) = rollback_lost t1.
Proof.
  intros H2. induction t1 as [|ev t1 IH]; simpl.
  - induction H2 as [|ev t2 Hev H2 IH]; [done |]. simpl.
    by rewrite (rollback_raises_next_quiet _ H2), andb_false_r.
  - by rewrite IH, rollback_raises_next_app.
Qed.

(** Events other than failed compression statements add nothing at the
    head of a trace. *)
Lemma rollback_lost_app_l (t1 t2 : list event) :
  Forall (λ ev, compression_failed ev = false) t1 →
  rollback_lost (t1 ++ t2) = rollback_lost t2.
Proof.
  induction 1 as [|ev t1 Hev _ IH]; [done |]. simpl. by rewrite Hev, IH.
Qed.

Lemma rollback_lost_none (t : list event) :
  Forall (λ ev, compression_failed ev = false) t → rollback_lost t = false.
Proof. intros H. by rewrite <- (app_nil_r t), rollback_lost_app_l. Qed.

Lemma no_lookup_raised (t : list event) :
  Forall (λ ev, is_lookup ev = false) t → Forall (λ ev, lookup_raised ev = false) t.
Proof.
  intros H. eapply Forall_impl; [exact H |].
  by intros [| | | | | | |?[]|?[]| | | | | |].
Qed.

Lemma no_hypertable_failure (t : list event) :
  Forall (λ ev, is_db ev = false) t → Forall (λ ev, hypertable_failed ev = false) t.
Proof. intros H. eapply Forall_impl; [exact H |]. by intros []. Qed.

Lemma Exists_trace_bind {W A B} (f : event → bool) (m : M W A) (k : A → M W B) (w : W) :
  Exists (λ ev, f ev = true) (trace (bind m k w)) →
  Forall (λ ev, f ev = false) (trace (m w)) →
  ∃ a, out (m w) = Ok a ∧ Exists (λ ev, f ev = true) (trace (k a (world (m w)))).
Proof.
  rewrite trace_bind. intros Hex Hall. apply Exists_app in Hex as [Hex | Hex].
  - destruct (Forall_Exists_bool _ _ Hall Hex).
  - destruct (out (m w)) as [a| |]; [by exists a | |]; by apply Exists_nil in Hex.
Qed.

(** ** Tactics *)

Ltac emits_side :=
  intros; simpl; try done; repeat case_match; simpl; try done; auto.

Ltac emits_step :=
  match goal with
  | |- emits _ (ret _) => apply emits_ret
  | |- emits _ (raise _) => apply emits_raise
  | |- emits _ out_of_fuel => apply emits_out_of_fuel
  | |- emits _ (getitem _ _) => apply emits_getitem
  | |- emits _ (py_mod _ _) => apply emits_py_mod
  | |- emits _ (dict_comprehension _ _ _) => apply emits_dict_comprehension
  | |- emits _ (set_comprehension _ _) => apply emits_set_comprehension
  | |- emits _ (bind _ _) => apply emits_bind; [| intros ?]
  | |- emits _ (try_except_pg _ _) => apply emits_try_except_pg; [| intros ?]
  | |- emits _ (try_except _ _) => apply emits_try_except; [| intros ?]
  | |- emits _ (finally _ _) => apply emits_finally; [| emits_side]
  | |- emits _ (emit _) => apply emits_emit; emits_side
  | |- emits _ (call _ _) => apply emits_call; emits_side
  | |- emits _ (command _ _ _) => apply emits_command; emits_side
  | |- emits _ (for_each _ _ _) => apply emits_for_each; intros ? ?
  | |- emits _ (if ?b then _ else _) => destruct b
  | |- emits _ (match ?x with _ => _ end) => destruct x
  end.

(** [Forall Q (trace (m w))] from what [m] emits. *)
Ltac by_emits :=
  match goal with
  | |- Forall ?Q (trace (?m ?w)) =>
      let H := fresh in assert (H : emits Q m); [| exact (H w)]
  end.

(** A [Forall] over a trace from a stronger one in the context. *)
Ltac weaken_forall :=
  match goal with
  | H : Forall _ ?t |- Forall _ ?t =>
      eapply Forall_impl; [exact H |]; cbv beta; intros ?; tauto
  end.

(** ** Facts about the script *)

Section ProgramFacts.
Context {W : Type} (P : Platform W) (cfg : config).
Implicit Types (w : W) (t : list event) (a : acc).

Lemma emits_sleep Q secs : (∀ ans, Q (Sleep secs ans)) → emits Q (sleep P secs).
Proof. intros H w. unfold sleep. destruct (sleep_error P secs); by repeat constructor. Qed.

Lemma emits_fetch_pages Q fuel channel page all_members :
  (∀ c p pp ans, Q (GetChannelMembers c p pp ans)) →
  (∀ secs ans, Q (Sleep secs ans)) →
  emits Q (fetch_pages P cfg fuel channel page all_members).
Proof.
  intros Hf Hs. revert page all_members.
  induction fuel as [|fuel IH]; intros page all_members; simpl.
  - apply emits_out_of_fuel.
  - unfold get_channel_members. repeat emits_step.
    + apply emits_sleep, Hs.
    + apply IH.
Qed.

(** The loop over the teams talks to the driver only. *)
Lemma emits_process_team fuel now team a :
  emits (λ ev, is_db ev = false ∧ is_clock ev = false ∧ is_lookup ev = false)
        (process_team P cfg fuel now team a).
Proof.
  unfold process_team, process_channel, get_all_channel_members,
    get_channels_for_user, log.
  repeat emits_step. apply emits_fetch_pages; emits_side.
Qed.

Lemma emits_resolve ids :
  emits (λ ev, is_db ev = false ∧ is_clock ev = false) (resolve P cfg ids).
Proof.
  unfold resolve, get_user_statuses_by_id, get_users_by_ids, log.
  repeat emits_step; apply emits_sleep; emits_side.
Qed.

Lemma emits_ensure_table_exists :
  emits (λ ev, is_clock ev = false ∧ written_row ev = None ∧ is_lookup ev = false)
        (ensure_table_exists P).
Proof.
  unfold ensure_table_exists, ensure_extension, create_table,
    convert_hypertable, set_compression, add_compression_policy,
    execute, commit, rollback, log.
  repeat emits_step.
Qed.

Lemma emits_write_records names statuses records :
  emits (λ ev, is_clock ev = false ∧ is_lookup ev = false)
        (write_records P cfg names statuses records).
Proof.
  unfold write_records, write_record, execute, commit, log.
  repeat emits_step.
Qed.
(** What follows the write phase: the logout and the last log line. *)
Lemma emits_goodbye :
  emits (λ ev, is_db ev = false ∧ is_clock ev = false ∧ is_lookup ev = false)
    (driver_logout P ;;
     log INFO "Mattermost online user collection script finished.").
Proof. unfold driver_logout, log. repeat emits_step. Qed.

(** The set comprehension is pure: it returns the set of the values, or
    raises at the first dict without the key. *)
Lemma set_fold_run key (l : list dict) : ∀ (s : gset string) w,
  for_each l (λ (m : dict) (acc : gset string),
      k <- getitem m key ;; ret (acc ∪ {[k]})) s w
  = Run (match mapM (λ m : dict, m !! key) l with
         | Some ks => Ok (s ∪ list_to_set ks)
         | None => Raise (KeyError key)
         end) w [].
Proof.
  induction l as [|m l IH]; intros s w; simpl.
  - unfold ret. by rewrite (right_id_L ∅ (∪)).
  - unfold bind at 1. unfold getitem at 1, bind at 1.
    destruct (m !! key) as [k|]; simpl; [| done].
    rewrite IH. destruct (mapM _ l) as [ks|]; simpl; [| done].
    unfold after; simpl. do 2 f_equal. by rewrite (assoc_L (∪)).
Qed.

Lemma set_comprehension_run key (l : list dict) w :
  @set_comprehension W key l w
  = Run (match mapM (λ m : dict, m !! key) l with
         | Some ks => Ok (list_to_set ks)
         | None => Raise (KeyError key)
         end) w [].
Proof.
  unfold set_comprehension. rewrite set_fold_run.
  destruct (mapM _ l); [| done]. by rewrite (left_id_L ∅ (∪)).
Qed.

End ProgramFacts.

(** The dict comprehension is pure, too. *)
Lemma dict_fold_run {W} key val (l : list dict) : ∀ (acc : dict) (w : W),
  for_each l (λ (m : dict) (acc : dict),
      k <- getitem m key ;; v <- getitem m val ;; ret (<[k := v]> acc)) acc w
  = Run (match build_dict key val l acc with
         | inl e => Raise e
         | inr d => Ok d
         end) w [].
Proof.
  induction l as [|m l IH]; intros acc w; simpl; [done |].
  unfold bind at 1. unfold getitem.
  destruct (m !! key) as [k|]; [| done].
  destruct (m !! val) as [v|]; [| done].
  cbn [bind ret after out world trace app].
  rewrite IH. by destruct (build_dict _ _ _ _).
Qed.

Lemma dict_comprehension_run {W} key val (l : list dict) (w : W) :
  dict_comprehension key val l w
  = Run (match build_dict key val l ∅ with
         | inl e => Raise e
         | inr d => Ok d
         end) w [].
Proof. apply dict_fold_run. Qed.

Lemma trace_dict_comprehension {W} key val (l : list dict) (w : W) :
  trace (@dict_comprehension W key val l w) = [].
Proof. by rewrite dict_comprehension_run. Qed.


(** ** The paginator (main.py:143-154) *)

Section Pagination.
Context {W : Type} (P : Platform W) (cfg : config).

Lemma fetch_pages_listing channel page w batches w' :
  listing P cfg channel page w batches w' →
  ∀ fuel all_members, (length batches < fuel)%nat →
    fetch_pages P cfg fuel channel page all_members w
    = Run (Ok (all_members ++ concat batches)) w' (paging cfg channel page batches).
Proof.
  induction 1 as [page w w' Hend | page w b w1 bs w' Hb Hne Hs _ IH];
    intros [|fuel] all_members Hfuel; simpl in *; try lia.
  - unfold bind, get_channel_members, call. rewrite Hend. simpl.
    by rewrite app_nil_r.
  - unfold bind at 1. unfold get_channel_members, call. rewrite Hb.
    destruct b as [|m b]; [done |].
    unfold bind at 1. unfold sleep at 1. rewrite Hs. cbn [after out world trace].
    rewrite IH by lia. unfold after. simpl. by rewrite <- app_assoc.
Qed.

Lemma length_fetches_paging channel page batches :
  length (fetches (paging cfg channel page batches)) = S (length batches).
Proof.
  revert page. induction batches as [|b bs IH]; intros page; simpl; [done |].
  by rewrite IH.
Qed.

(** A listing that returns members has paused, so its delay was
    accepted. *)
Lemma fetch_pages_accepted fuel channel page all_members w l :
  out (fetch_pages P cfg fuel channel page all_members w) = Ok l →
  l ≠ all_members →
  sleep_error P (API_DELAY cfg) = None.
Proof.
  destruct fuel as [|fuel]; [done |]. cbn [fetch_pages].
  rewrite out_bind. unfold get_channel_members, call.
  destruct (mm_get_channel_members P channel page per_page w) as [[e|[|m b]] w1];
    cbn [out world]; [done | by intros [= <-] |].
  rewrite out_bind. unfold sleep.
  by destruct (sleep_error P (API_DELAY cfg)).
Qed.

(** C6, as the code has it: when the driver returns the non-empty batches
    [b_0 ... b_(k-1)] for the pages 0 ... k-1 and an empty page k, and
    [time.sleep] accepts [API_DELAY] if there is a batch at all (both are
    what [listing] says), then, with fuel for k + 1 iterations,
    [get_all_channel_members] returns the concatenation of the batches
    after exactly k + 1 calls, one for each page index from 0 to k with
    page size 200, the last of which returns the empty page. *)
Theorem get_all_channel_members_pages channel w batches w' fuel :
  listing P cfg channel 0 w batches w' →
  (length batches < fuel)%nat →
  get_all_channel_members P cfg fuel channel w
    = Run (Ok (concat batches)) w' (paging cfg channel 0 batches)
  ∧ length (fetches (paging cfg channel 0 batches)) = S (length batches).
Proof.
  intros Hl Hfuel. split.
  - unfold get_all_channel_members.
    by rewrite (fetch_pages_listing _ _ _ _ _ Hl fuel [] Hfuel).
  - apply length_fetches_paging.
Qed.
End Pagination.

(** The 250 members of a channel come in three calls: 200, 50 and 0
    items. *)
Lemma get_all_channel_members_pages_witness :
  listing (Scenario.platform Scenario.big_channel) Scenario.cfg "hall" 0 0
    [take 200 (Scenario.crowd 250); drop 200 (Scenario.crowd 250)] 5
  ∧ (2 < 4)%nat
  ∧ (get_all_channel_members (Scenario.platform Scenario.big_channel) Scenario.cfg
       4 "hall" 0
     = Run (Ok (concat [take 200 (Scenario.crowd 250); drop 200 (Scenario.crowd 250)]))
           5
           (paging Scenario.cfg "hall" 0
              [take 200 (Scenario.crowd 250); drop 200 (Scenario.crowd 250)])
     ∧ length (fetches (paging Scenario.cfg "hall" 0
                 [take 200 (Scenario.crowd 250); drop 200 (Scenario.crowd 250)]))
       = 3%nat).
Proof.
  assert (Hl : listing (Scenario.platform Scenario.big_channel) Scenario.cfg "hall" 0 0
    [take 200 (Scenario.crowd 250); drop 200 (Scenario.crowd 250)] 5).
  { eapply listing_page with (w1 := 1); [reflexivity | done | reflexivity |].
    eapply listing_page with (w1 := 3); [reflexivity | done | reflexivity |].
    apply listing_end. reflexivity. }
  split; [exact Hl |]. split; [lia |].
  apply (get_all_channel_members_pages (Scenario.platform Scenario.big_channel)
           Scenario.cfg "hall" 0 _ 5 4%nat Hl).
  cbn [length]. lia.
Defined.

(** C6 as stated fails: for 250 members and pages of 200 the listing
    takes three calls, not two; the third returns the empty page. *)
Lemma listing_250_members_takes_three_calls :
  out (get_all_channel_members (Scenario.platform Scenario.big_channel) Scenario.cfg
         4 "hall" 0) = Ok (Scenario.crowd 250)
  ∧ fetch_sizes (trace (get_all_channel_members
        (Scenario.platform Scenario.big_channel) Scenario.cfg 4 "hall" 0))
    = [(0, 200); (1, 50); (2, 0)]%nat
  ∧ length (fetches (trace (get_all_channel_members
        (Scenario.platform Scenario.big_channel) Scenario.cfg 4 "hall" 0))) ≠ 2%nat.
Proof. split; [reflexivity | by vm_compute]. Qed.

(** ** The batched writer (main.py:222-244) *)

Lemma div_succ (b n : nat) :
  (0 < b)%nat →
  (S n / b = n / b + (if decide (S n mod b = 0) then 1 else 0))%nat.
Proof.
  intros Hb.
  pose proof (Nat.div_mod_eq n b) as H1.
  pose proof (Nat.div_mod_eq (S n) b) as H2.
  pose proof (Nat.mod_upper_bound n b ltac:(lia)) as H3.
  pose proof (Nat.mod_upper_bound (S n) b ltac:(lia)) as H4.
  case_decide; nia.
Qed.

Lemma length_multiples (b n : nat) :
  (0 < b)%nat →
  length (filter (λ i, (i mod b = 0)%nat) (seq 1 n)) = (n / b)%nat.
Proof.
  intros Hb. induction n as [|n IH].
  - simpl. by rewrite Nat.Div0.div_0_l.
  - rewrite seq_S, filter_app, length_app, IH, (div_succ b n Hb).
    simpl. rewrite filter_cons, filter_nil. by case_decide.
Qed.

Lemma length_batch_ends (b n : nat) :
  (0 < b)%nat → length (batch_ends b n) = ((n + b - 1) / b)%nat.
Proof.
  intros Hb. unfold batch_ends. rewrite length_app, length_multiples by done.
  pose proof (Nat.div_mod_eq n b) as H1.
  pose proof (Nat.mod_upper_bound n b ltac:(lia)) as H3.
  case_decide as Hm; simpl.
  - apply (Nat.div_unique _ _ _ (b - 1)); [lia | nia].
  - apply (Nat.div_unique _ _ _ (n mod b - 1)); [lia | nia].
Qed.

Section Writer.
Context {W : Type} (P : Platform W) (cfg : config).
Context (names statuses : dict).

Let b : nat := Z.to_nat (BATCH_SIZE cfg).

Lemma batch_test (n : nat) :
  0 < BATCH_SIZE cfg →
  (Z.of_nat n mod BATCH_SIZE cfg =? 0) = bool_decide ((n mod b = 0)%nat).
Proof.
  intros HB. subst b.
  rewrite <- (Z2Nat.id (BATCH_SIZE cfg)) at 1 by lia.
  rewrite <- Nat2Z.inj_mod.
  case_bool_decide as Hm.
  - rewrite Hm. done.
  - apply Z.eqb_neq. lia.
Qed.

Lemma write_record_ok rd (n : nat) w :
  0 < BATCH_SIZE cfg →
  Forall (λ ev, db_failed ev = false)
    (trace (write_record P cfg names statuses rd (Z.of_nat n) w)) →
  out (write_record P cfg names statuses rd (Z.of_nat n) w) = Ok (Z.of_nat (S n))
  ∧ insert_count (trace (write_record P cfg names statuses rd (Z.of_nat n) w)) = 1%nat
  ∧ commit_points n (trace (write_record P cfg names statuses rd (Z.of_nat n) w))
    = (if decide ((S n mod b = 0)%nat) then [S n] else [])
  ∧ written (trace (write_record P cfg names statuses rd (Z.of_nat n) w))
    = [enrich names statuses rd].
Proof.
  intros HB. unfold write_record, execute, commit, log, py_mod, command, bind, emit.
  destruct (pg_execute P _ w) as [[e|] w1]; simpl.
  { intros H. by inversion H. }
  replace (BATCH_SIZE cfg =? 0) with false by (symmetry; apply Z.eqb_neq; lia).
  simpl. replace (Z.of_nat n + 1) with (Z.of_nat (S n)) by lia.
  rewrite batch_test by done.
  case_bool_decide as Hm; simpl.
  - destruct (pg_commit P w1) as [[e|] w2]; simpl.
    { intros H. inversion H as [|?? _ H']. by inversion H'. }
    intros _. rewrite decide_True by done. done.
  - intros _. rewrite decide_False by done. done.
Qed.

Lemma write_loop_ok records : ∀ (n : nat) w,
  0 < BATCH_SIZE cfg →
  Forall (λ ev, db_failed ev = false)
    (trace (for_each records (write_record P cfg names statuses) (Z.of_nat n) w)) →
  out (for_each records (write_record P cfg names statuses) (Z.of_nat n) w)
    = Ok (Z.of_nat (n + length records))
  ∧ insert_count (trace (for_each records (write_record P cfg names statuses) (Z.of_nat n) w))
    = length records
  ∧ commit_points n (trace (for_each records (write_record P cfg names statuses) (Z.of_nat n) w))
    = filter (λ i, (i mod b = 0)%nat) (seq (S n) (length records))
  ∧ written (trace (for_each records (write_record P cfg names statuses) (Z.of_nat n) w))
    = enrich names statuses <$> records.
Proof.
  induction records as [|rd records IH]; intros n w HB; simpl.
  - intros _. by rewrite Nat.add_0_r.
  - intros Hok.
    assert (H1 : Forall (λ ev, db_failed ev = false)
              (trace (write_record P cfg names statuses rd (Z.of_nat n) w))).
    { destruct (trace_bind_prefix (write_record P cfg names statuses rd (Z.of_nat n))
        (λ s', for_each records (write_record P cfg names statuses) s') w) as [t2 Ht2].
      rewrite Ht2 in Hok. by apply Forall_app in Hok as [? _]. }
    destruct (write_record_ok rd n w HB H1) as (Ho & Hi & Hc & Hw).
    revert Hok. rewrite bind_run, Ho. unfold after; simpl. intros Hok.
    apply Forall_app in Hok as [_ Hok].
    destruct (IH (S n) _ HB Hok) as (Ho' & Hi' & Hc' & Hw').
    rewrite Ho'. split; [f_equal; lia |].
    rewrite insert_count_app, Hi, Hi'. split; [done |].
    rewrite commit_points_app, Hi, Hc. replace (n + 1)%nat with (S n) by lia.
    rewrite Hc'. split.
    + rewrite filter_cons. by case_decide.
    + unfold written in *. by rewrite omap_app, Hw, Hw'.
Qed.
End Writer.

(** Whatever the database answers, the rows written are the enriched
    records, in order: all of them when the loop ends normally. *)
Section WriterRows.
Context {W : Type} (P : Platform W) (cfg : config).
Context (names statuses : dict).
Implicit Types (w : W).

Lemma write_record_written rd pc w :
  written (trace (write_record P cfg names statuses rd pc w))
    `prefix_of` [enrich names statuses rd]
  ∧ ∀ pc', out (write_record P cfg names statuses rd pc w) = Ok pc' →
      written (trace (write_record P cfg names statuses rd pc w))
      = [enrich names statuses rd].
Proof.
  remember (write_record P cfg names statuses rd pc w) as r eqn:Hr. revert Hr.
  unfold write_record, execute, commit, log, py_mod, command, bind, emit, raise, ret.
  destruct (pg_execute P _ w) as [[e|] w1]; cbn [after out world trace app].
  { intros ->. split; [apply prefix_nil | done]. }
  destruct (BATCH_SIZE cfg =? 0); cbn [after out world trace app].
  { intros ->. split; [done | done]. }
  destruct (_ =? 0); cbn [after out world trace app]; [| by intros ->].
  destruct (pg_commit P w1) as [[e|] w2]; cbn [after out world trace app];
    by intros ->.
Qed.

Lemma write_loop_written records : ∀ pc w,
  written (trace (for_each records (write_record P cfg names statuses) pc w))
    `prefix_of` (enrich names statuses <$> records)
  ∧ ∀ pc', out (for_each records (write_record P cfg names statuses) pc w) = Ok pc' →
      written (trace (for_each records (write_record P cfg names statuses) pc w))
      = enrich names statuses <$> records.
Proof.
  induction records as [|rd records IH]; intros pc w; simpl.
  - split; [done | done].
  - rewrite bind_run.
    destruct (write_record_written rd pc w) as [Hp He].
    destruct (out (write_record P cfg names statuses rd pc w)) as [pc1|e|] eqn:Ho;
      cbn [after out world trace].
    + rewrite written_app, (He pc1 eq_refl).
      destruct (IH pc1 (world (write_record P cfg names statuses rd pc w))) as [Hp' He'].
      split.
      * by apply (prefix_app [_]).
      * intros pc' Hout. by rewrite (He' pc' Hout).
    + split; [| done]. etrans; [exact Hp |]. by apply (prefix_app_r _ [_]).
    + split; [| done]. etrans; [exact Hp |]. by apply (prefix_app_r _ [_]).
Qed.

Lemma write_records_written records w :
  written (trace (write_records P cfg names statuses records w))
    `prefix_of` (enrich names statuses <$> records)
  ∧ (out (write_records P cfg names statuses records w) = Ok tt →
      written (trace (write_records P cfg names statuses records w))
      = enrich names statuses <$> records).
Proof.
  remember (write_records P cfg names statuses records w) as r eqn:Hr. revert Hr.
  unfold write_records, log. rewrite bind_emit, bind_run.
  destruct (write_loop_written records 0 w) as [Hp He].
  destruct (out (for_each _ _ _ _)) as [pc|e|] eqn:Ho; [| by intros -> | by intros ->].
  specialize (He pc eq_refl).
  set (w1 := world _).
  assert (Htail : ∀ (m : M W unit),
            emits (λ ev, written_row ev = None) m →
            written (trace (m w1)) = []).
  { intros m Hm. apply omap_none_forall, Hm. }
  intros ->. unfold after. cbn [out world trace app].
  rewrite written_log, written_app, He, Htail, app_nil_r; [done |].
  unfold py_mod, commit, log. repeat emits_step.
Qed.
End WriterRows.

Section WriterCommits.
Context {W : Type} (P : Platform W) (cfg : config).

Lemma write_records_ok names statuses records w :
  0 < BATCH_SIZE cfg →
  Forall (λ ev, db_failed ev = false)
    (trace (write_records P cfg names statuses records w)) →
  out (write_records P cfg names statuses records w) = Ok tt
  ∧ insert_count (trace (write_records P cfg names statuses records w)) = length records
  ∧ commit_points 0 (trace (write_records P cfg names statuses records w))
    = batch_ends (Z.to_nat (BATCH_SIZE cfg)) (length records)
  ∧ written (trace (write_records P cfg names statuses records w))
    = enrich names statuses <$> records.
Proof.
  intros HB. unfold write_records, log. rewrite bind_emit.
  unfold after at 1. cbn [out world trace]. intros Hok.
  apply Forall_cons in Hok as [_ Hok]. revert Hok.
  rewrite bind_run. intros Hok.
  assert (H1 : Forall (λ ev, db_failed ev = false)
            (trace (for_each records (write_record P cfg names statuses) 0 w))).
  { destruct (out (for_each records (write_record P cfg names statuses) 0 w));
      simpl in Hok; try done. by apply Forall_app in Hok as [? _]. }
  destruct (write_loop_ok P cfg names statuses records 0 w HB H1) as (Ho & Hi & Hc & Hw).
  change (Z.of_nat 0) with 0 in Ho, Hi, Hc, Hw.
  revert Hok. rewrite Ho. cbn [plus]. unfold after. cbn [out world trace].
  intros Hok. apply Forall_app in Hok as [_ Hok]. revert Hok.
  unfold batch_ends, py_mod, commit, command, bind, emit.
  replace (BATCH_SIZE cfg =? 0) with false by (symmetry; apply Z.eqb_neq; lia).
  destruct (0 <? Z.of_nat (length records)) eqn:Hpos.
  - cbn [ret after out world trace]. rewrite batch_test by done.
    case_bool_decide as Hm; cbn [negb].
    + intros _. cbn [ret out trace]. rewrite decide_True by done.
      rewrite !app_nil_r. cbn [app].
      by rewrite insert_count_log, commit_points_log, written_log, Hi, Hc, Hw.
    + destruct (pg_commit P _) as [[e|] w2]; cbn [out world trace app].
      { intros H. by inversion H. }
      intros _. rewrite decide_False by done.
      rewrite insert_count_log, commit_points_log, written_log.
      rewrite !insert_count_app, !commit_points_app, !written_app, Hi, Hc, Hw.
      simpl. by rewrite Nat.add_0_r, app_nil_r.
  - assert (length records = 0%nat) as Hz by (apply Z.ltb_ge in Hpos; lia).
    rewrite Hz in *. change (Z.of_nat 0 =? 0) with true. cbn [out trace app]. intros _.
    rewrite insert_count_log, commit_points_log, written_log.
    rewrite !insert_count_app, !commit_points_app, !written_app, Hi, Hc, Hw.
    simpl. rewrite decide_True by (by rewrite Nat.Div0.mod_0_l).
    by rewrite app_nil_r.
Qed.

(** C2: for a positive batch size [B] and [N] records, a write phase in
    which no database call raises ends normally after [N] insertions and
    commits exactly after the insertions number [B], [2B], ... and, when
    [N mod B] is not zero, once more after the last one: [ceil(N/B)]
    commits, none when [N = 0]. *)
Theorem write_records_commits names statuses records w :
  0 < BATCH_SIZE cfg →
  Forall (λ ev, db_failed ev = false)
    (trace (write_records P cfg names statuses records w)) →
  out (write_records P cfg names statuses records w) = Ok tt
  ∧ insert_count (trace (write_records P cfg names statuses records w)) = length records
  ∧ commit_points 0 (trace (write_records P cfg names statuses records w))
    = batch_ends (Z.to_nat (BATCH_SIZE cfg)) (length records)
  ∧ Z.of_nat (length (commit_points 0 (trace (write_records P cfg names statuses records w))))
    = (Z.of_nat (length records) + BATCH_SIZE cfg - 1) / BATCH_SIZE cfg.
Proof.
  intros HB Hok.
  destruct (write_records_ok names statuses records w HB Hok) as (Ho & Hi & Hc & _).
  repeat split; try done.
  rewrite Hc, length_batch_ends by lia.
  rewrite Nat2Z.inj_div, Nat2Z.inj_sub, Nat2Z.inj_add, Z2Nat.id by lia.
  done.
Qed.
End WriterCommits.

(** Five records in batches of two: commits after the second, the fourth
    and the fifth insertion. *)
Lemma write_records_commits_witness :
  0 < BATCH_SIZE Scenario.cfg
  ∧ Forall (λ ev, db_failed ev = false)
      (trace (write_records (Scenario.platform Scenario.two_teams) Scenario.cfg
                ∅ ∅ Scenario.five_records 0))
  ∧ commit_points 0
      (trace (write_records (Scenario.platform Scenario.two_teams) Scenario.cfg
                ∅ ∅ Scenario.five_records 0))
    = [2; 4; 5]%nat
  ∧ (out (write_records (Scenario.platform Scenario.two_teams) Scenario.cfg
            ∅ ∅ Scenario.five_records 0) = Ok tt
     ∧ insert_count
         (trace (write_records (Scenario.platform Scenario.two_teams) Scenario.cfg
                   ∅ ∅ Scenario.five_records 0))
       = length Scenario.five_records
     ∧ commit_points 0
         (trace (write_records (Scenario.platform Scenario.two_teams) Scenario.cfg
                   ∅ ∅ Scenario.five_records 0))
       = batch_ends (Z.to_nat (BATCH_SIZE Scenario.cfg)) (length Scenario.five_records)
     ∧ Z.of_nat (length (commit_points 0
         (trace (write_records (Scenario.platform Scenario.two_teams) Scenario.cfg
                   ∅ ∅ Scenario.five_records 0))))
       = (Z.of_nat (length Scenario.five_records) + BATCH_SIZE Scenario.cfg - 1)
         / BATCH_SIZE Scenario.cfg).
Proof.
  assert (Hok : Forall (λ ev, db_failed ev = false)
      (trace (write_records (Scenario.platform Scenario.two_teams) Scenario.cfg
                ∅ ∅ Scenario.five_records 0))).
  { vm_compute. repeat constructor. }
  split; [done |]. split; [exact Hok |]. split; [by vm_compute |].
  exact (write_records_commits (Scenario.platform Scenario.two_teams) Scenario.cfg
           ∅ ∅ Scenario.five_records 0 ltac:(done) Hok).
Defined.

(** ** The collector (main.py:169-200) *)

Section Collector.
Context {W : Type} (P : Platform W) (cfg : config).
Implicit Types (w : W) (a : acc) (channel team : dict).

(** What the records of a channel look like. *)
Lemma channel_records_fields now tid tname cid cname (s : gset string) :
  Forall (λ rd, r_now rd = now ∧ r_team_id rd = tid ∧ r_team_name rd = tname
                ∧ r_channel_id rd = cid ∧ r_channel_name rd = cname
                ∧ r_user_id rd ∈ s)
         (channel_records now tid tname cid cname s).
Proof.
  unfold channel_records. apply Forall_fmap, Forall_forall.
  intros u Hu. simpl. by apply elem_of_elements in Hu.
Qed.

Lemma channel_records_once now tid tname cid cname (s : gset string) u :
  u ∈ s →
  length (filter (λ rd, r_user_id rd = u) (channel_records now tid tname cid cname s))
  = 1%nat.
Proof.
  intros Hu. unfold channel_records.
  rewrite <- (length_filter_eq_NoDup u (elements s));
    [| apply NoDup_elements | by apply elem_of_elements].
  induction (elements s) as [|x l IH]; [done |].
  rewrite fmap_cons, !filter_cons. simpl.
  destruct (decide (x = u)); simpl; by rewrite IH.
Qed.

Lemma length_channel_records now tid tname cid cname (s : gset string) :
  length (channel_records now tid tname cid cname s) = size s.
Proof. unfold channel_records. by rewrite length_fmap. Qed.

Lemma channel_records_empty now tid tname cid cname :
  channel_records now tid tname cid cname ∅ = [].
Proof. unfold channel_records. by rewrite elements_empty. Qed.

(** The code's [or] chain and the policy it implements. *)
Lemma channel_display_name_stored channel :
  channel_display_name channel = stored_channel_name channel.
Proof.
  unfold channel_display_name, stored_channel_name, get_or.
  destruct (channel !! "display_name") as [[|c s]|]; simpl; try done;
    by destruct (channel !! "name").
Qed.

(** A channel whose listing succeeds. *)
Lemma process_channel_listed fuel now tid tname channel cid a w members w1 t1 :
  channel !! "id" = Some cid →
  get_all_channel_members P cfg fuel cid w = Run (Ok members) w1 t1 →
  Forall (λ m : dict, is_Some (m !! "user_id")) members →
  out (process_channel P cfg fuel now tid tname channel a w)
  = Ok (a.1 ∪ member_ids members,
        a.2 ++ channel_records now tid tname cid (channel_display_name channel)
                 (member_ids members)).
Proof.
  intros Hid Hm Hall. unfold process_channel, getitem. rewrite Hid, bind_ret.
  unfold log. rewrite bind_emit. unfold after at 1. cbn [out].
  unfold try_except. rewrite bind_run, Hm. cbn [out world trace].
  rewrite bind_run, set_comprehension_run, (mapM_lookup_omap _ _ Hall).
  cbn [out world trace]. fold (member_ids members).
  case_bool_decide as He; simpl.
  - rewrite He, channel_records_empty, app_nil_r, (right_id_L ∅ (∪)).
    by destruct a.
  - done.
Qed.

(** Every way in which the body of the channel loop ends normally. *)
Lemma process_channel_inv fuel now tid tname channel a w a' :
  out (process_channel P cfg fuel now tid tname channel a w) = Ok a' →
  ∃ cid (s : gset string),
    channel !! "id" = Some cid
    ∧ a' = (a.1 ∪ s,
            a.2 ++ channel_records now tid tname cid (channel_display_name channel) s).
Proof.
  unfold process_channel, getitem.
  destruct (channel !! "id") as [cid|] eqn:Hid; [| by unfold bind, raise].
  rewrite bind_ret. unfold log. rewrite bind_emit. unfold after at 1. cbn [out].
  intros Hout. exists cid.
  assert (Hskip : a = (a.1 ∪ ∅, a.2 ++ channel_records now tid tname cid
                         (channel_display_name channel) ∅)).
  { rewrite channel_records_empty, app_nil_r, (right_id_L ∅ (∪)). by destruct a. }
  revert Hout. unfold try_except. rewrite bind_run.
  destruct (get_all_channel_members P cfg fuel cid w) as [[members|e|] w1 t1];
    cbn [out world trace]; [| | done].
  - rewrite bind_run, set_comprehension_run.
    destruct (mapM _ members) as [ks|]; cbn [out world trace].
    + case_bool_decide as He; simpl.
      * intros [= <-]. by exists ∅.
      * intros [= <-]. by exists (list_to_set ks).
    + simpl. intros [= <-]. by exists ∅.
  - simpl. intros [= <-]. by exists ∅.
Qed.

(** Ids are added only under a delay that [time.sleep] accepts. *)
Lemma process_channel_accepted fuel now tid tname channel a w a' :
  (a.1 ≠ ∅ → sleep_error P (API_DELAY cfg) = None) →
  out (process_channel P cfg fuel now tid tname channel a w) = Ok a' →
  a'.1 ≠ ∅ → sleep_error P (API_DELAY cfg) = None.
Proof.
  intros Ha. unfold process_channel, getitem.
  destruct (channel !! "id") as [cid|] eqn:Hid; [| by unfold bind, raise].
  rewrite bind_ret. unfold log. rewrite bind_emit. unfold after at 1. cbn [out].
  unfold try_except. rewrite bind_run.
  destruct (get_all_channel_members P cfg fuel cid w) as [[members|e|] w1 t1] eqn:Hm;
    cbn [out world trace]; [| | done].
  - rewrite bind_run, set_comprehension_run.
    destruct (mapM _ members) as [ks|] eqn:Hks; cbn [out world trace].
    + case_bool_decide as He; simpl.
      * by intros [= <-].
      * intros _ _. apply (fetch_pages_accepted P cfg fuel cid 0 [] w members).
        { unfold get_all_channel_members in Hm. by rewrite Hm. }
        intros ->. by injection Hks as <-.
    + simpl. by intros [= <-].
  - simpl. by intros [= <-].
Qed.

Lemma process_team_accepted fuel now team a w a' :
  (a.1 ≠ ∅ → sleep_error P (API_DELAY cfg) = None) →
  out (process_team P cfg fuel now team a w) = Ok a' →
  a'.1 ≠ ∅ → sleep_error P (API_DELAY cfg) = None.
Proof.
  intros Ha. unfold process_team, getitem.
  destruct (team !! "id") as [tid|]; [| by unfold bind, raise].
  destruct (team !! "name") as [tname|]; [| by unfold bind, raise].
  rewrite !bind_ret. unfold log. rewrite bind_emit. unfold after at 1. cbn [out].
  rewrite bind_run.
  destruct (out (try_except _ _ _)) as [[channels|]| |]; cbn [out after]; try done.
  - apply (for_each_invariant
             (λ a, a.1 ≠ ∅ → sleep_error P (API_DELAY cfg) = None)); [| done].
    intros channel s w' s' Hs Hout. by eapply process_channel_accepted.
  - unfold ret. simpl. by intros [= <-].
Qed.

(** A team whose channels cannot be fetched is passed over. *)
Lemma channel_fetch_failure_is_isolated fuel now team tid tname teams a w e w1 :
  team !! "id" = Some tid →
  team !! "name" = Some tname →
  mm_get_channels_for_user P tid w = (inl e, w1) →
  process_team P cfg fuel now team a w
  = Run (Ok a) w1
      [Log INFO "Processing team"; GetChannelsForUser tid (inl e);
       Log ERROR "Error fetching channels for team"]
  ∧ for_each (team :: teams) (process_team P cfg fuel now) a w
    = after [Log INFO "Processing team"; GetChannelsForUser tid (inl e);
             Log ERROR "Error fetching channels for team"]
            (for_each teams (process_team P cfg fuel now) a w1).
Proof.
  intros Hid Hname Hfetch.
  assert (Hteam : process_team P cfg fuel now team a w
            = Run (Ok a) w1 [Log INFO "Processing team"; GetChannelsForUser tid (inl e);
                             Log ERROR "Error fetching channels for team"]).
  { unfold process_team, getitem. rewrite Hid, Hname, !bind_ret.
    unfold log. rewrite bind_emit.
    unfold bind, try_except, get_channels_for_user, call. rewrite Hfetch. done. }
  split; [done |]. cbn [for_each]. by rewrite bind_run, Hteam.
Qed.

(** A channel whose members cannot be listed is passed over. *)
Lemma member_listing_failure_is_isolated fuel now tid tname channel cid channels
    a w e w1 t1 :
  channel !! "id" = Some cid →
  get_all_channel_members P cfg fuel cid w = Run (Raise e) w1 t1 →
  process_channel P cfg fuel now tid tname channel a w
  = Run (Ok a) w1
      (Log DEBUG "Processing channel" :: t1 ++ [Log ERROR "Error processing channel"])
  ∧ for_each (channel :: channels) (process_channel P cfg fuel now tid tname) a w
    = after (Log DEBUG "Processing channel" :: t1
               ++ [Log ERROR "Error processing channel"])
            (for_each channels (process_channel P cfg fuel now tid tname) a w1).
Proof.
  intros Hcid Hlist.
  assert (Hchannel : process_channel P cfg fuel now tid tname channel a w
            = Run (Ok a) w1 (Log DEBUG "Processing channel" :: t1
                               ++ [Log ERROR "Error processing channel"])).
  { unfold process_channel, getitem. rewrite Hcid, bind_ret.
    unfold log. rewrite bind_emit.
    unfold try_except. rewrite bind_run, Hlist. done. }
  split; [done |]. cbn [for_each]. by rewrite bind_run, Hchannel.
Qed.

(** C3, in two halves that stand each on its own.  For every team: when
    the fetch of its channels raises, the body of the team loop ends
    normally with the accumulators as they were, and the loop goes on
    with the remaining teams exactly as if it had started with them.
    For every channel: when its member listing raises, on whichever
    page, the body of the channel loop ends normally with the
    accumulators as they were (no record, no id for that channel), and
    the loop goes on with the remaining channels, and after them with
    the remaining teams, in the same way.  Neither half asks anything of
    the other: the first needs no member listing that raises, the second
    no channel fetch that raises. *)
Theorem failures_are_isolated fuel now :
  (∀ team tid tname teams a w e w1,
     team !! "id" = Some tid →
     team !! "name" = Some tname →
     mm_get_channels_for_user P tid w = (inl e, w1) →
     process_team P cfg fuel now team a w
     = Run (Ok a) w1
         [Log INFO "Processing team"; GetChannelsForUser tid (inl e);
          Log ERROR "Error fetching channels for team"]
     ∧ for_each (team :: teams) (process_team P cfg fuel now) a w
       = after [Log INFO "Processing team"; GetChannelsForUser tid (inl e);
                Log ERROR "Error fetching channels for team"]
               (for_each teams (process_team P cfg fuel now) a w1))
  ∧ (∀ tid tname channel cid channels a w e w1 t1,
       channel !! "id" = Some cid →
       get_all_channel_members P cfg fuel cid w = Run (Raise e) w1 t1 →
       process_channel P cfg fuel now tid tname channel a w
       = Run (Ok a) w1
           (Log DEBUG "Processing channel" :: t1
              ++ [Log ERROR "Error processing channel"])
       ∧ for_each (channel :: channels) (process_channel P cfg fuel now tid tname) a w
         = after (Log DEBUG "Processing channel" :: t1
                    ++ [Log ERROR "Error processing channel"])
                 (for_each channels (process_channel P cfg fuel now tid tname) a w1)).
Proof.
  split.
  - intros team tid tname teams a w e w1 Hid Hname Hfetch.
    exact (channel_fetch_failure_is_isolated fuel now team tid tname teams a w e w1
             Hid Hname Hfetch).
  - intros tid tname channel cid channels a w e w1 t1 Hcid Hlist.
    exact (member_listing_failure_is_isolated fuel now tid tname channel cid channels
             a w e w1 t1 Hcid Hlist).
Qed.

(** C8, as the code has it: every record that the visit of a channel
    adds carries as channel name the [display_name] of the channel when
    that key is present with a non-empty value, otherwise its [name] when
    that key is present, otherwise ["unknown"]. *)
Theorem channel_name_of_records fuel now tid tname channel a w a' :
  out (process_channel P cfg fuel now tid tname channel a w) = Ok a' →
  ∃ cid (s : gset string),
    channel !! "id" = Some cid
    ∧ a' = (a.1 ∪ s,
            a.2 ++ channel_records now tid tname cid (stored_channel_name channel) s)
    ∧ Forall (λ rd, r_channel_name rd = stored_channel_name channel)
        (channel_records now tid tname cid (stored_channel_name channel) s).
Proof.
  intros Hout.
  destruct (process_channel_inv _ _ _ _ _ _ _ _ Hout) as (cid & s & Hid & ->).
  exists cid, s. rewrite channel_display_name_stored. repeat split; try done.
  eapply Forall_impl; [apply channel_records_fields |].
  by intros rd (_ & _ & _ & _ & ? & _).
Qed.

(** C9: when the listing of a channel returns [members], each with a user
    id, the visit adds the set of their ids to the global set and, for
    every member, exactly one record with that member's id, however often
    the id occurs in the listing; every added record is of this channel;
    and with no member the accumulators stay as they were. *)
Theorem one_record_per_member fuel now tid tname channel cid a w members w1 t1 :
  channel !! "id" = Some cid →
  get_all_channel_members P cfg fuel cid w = Run (Ok members) w1 t1 →
  Forall (λ m : dict, is_Some (m !! "user_id")) members →
  ∃ new,
    out (process_channel P cfg fuel now tid tname channel a w)
      = Ok (a.1 ∪ member_ids members, a.2 ++ new)
    ∧ Forall (λ rd, r_channel_id rd = cid ∧ r_user_id rd ∈ member_ids members) new
    ∧ Forall (λ m : dict, ∃ u, m !! "user_id" = Some u
                ∧ length (filter (λ rd, r_user_id rd = u) new) = 1%nat) members
    ∧ length new = size (member_ids members)
    ∧ (member_ids members = ∅ →
         out (process_channel P cfg fuel now tid tname channel a w) = Ok a ∧ new = []).
Proof.
  intros Hid Hm Hall.
  pose proof (process_channel_listed fuel now tid tname _ _ a _ _ _ _ Hid Hm Hall)
    as Hout.
  eexists. split; [exact Hout |]. split; [| split; [| split]].
  - eapply Forall_impl; [apply channel_records_fields |].
    by intros rd (_ & _ & _ & ? & _ & ?).
  - apply Forall_forall. intros m Hin.
    rewrite Forall_forall in Hall. destruct (Hall m Hin) as [u Hu].
    exists u. split; [done |]. apply channel_records_once.
    unfold member_ids. apply elem_of_list_to_set, list_elem_of_omap. eauto.
  - apply length_channel_records.
  - intros He. rewrite Hout, He, channel_records_empty, app_nil_r, (right_id_L ∅ (∪)).
    by destruct a.
Qed.
End Collector.

(** The two halves in two worlds.  In the world [team_down] only the
    channels of team A cannot be fetched, and no member listing fails:
    team A is passed over and team B is visited.  In the world
    [flaky_listing] no channel fetch fails and the listing of the
    channel fails on its second page: the channel is passed over with
    the 200 members of its first page.  In the world [outage] both
    happen in one run, which writes the two members of channel cb. *)
Lemma failures_are_isolated_witness :
  ((Scenario.team "A" "alpha" !! "id" = Some "A"
    ∧ Scenario.team "A" "alpha" !! "name" = Some "alpha"
    ∧ mm_get_channels_for_user (Scenario.platform Faults.team_down) "A" 3
      = (inl (ApiError "500 Internal Server Error"), 4))
   ∧ process_team (Scenario.platform Faults.team_down) Scenario.cfg 5 2
       (Scenario.team "A" "alpha") Scenario.start 3
     = Run (Ok Scenario.start) 4
         [Log INFO "Processing team";
          GetChannelsForUser "A" (inl (ApiError "500 Internal Server Error"));
          Log ERROR "Error fetching channels for team"]
   ∧ for_each [Scenario.team "A" "alpha"; Scenario.team "B" "beta"]
       (process_team (Scenario.platform Faults.team_down) Scenario.cfg 5 2)
       Scenario.start 3
     = after [Log INFO "Processing team";
              GetChannelsForUser "A" (inl (ApiError "500 Internal Server Error"));
              Log ERROR "Error fetching channels for team"]
         (for_each [Scenario.team "B" "beta"]
            (process_team (Scenario.platform Faults.team_down) Scenario.cfg 5 2)
            Scenario.start 4))
  ∧ ((Scenario.channel "hall" "Hall" "hall" !! "id" = Some "hall"
      ∧ get_all_channel_members Faults.flaky_listing Scenario.cfg 5 "hall" 5
        = Run (Raise (ApiError "502 Bad Gateway")) 8
            [GetChannelMembers "hall" 0 200 (inr (take 200 (Scenario.crowd 250)));
             Sleep (API_DELAY Scenario.cfg) None;
             GetChannelMembers "hall" 1 200 (inl (ApiError "502 Bad Gateway"))])
     ∧ process_channel Faults.flaky_listing Scenario.cfg 5 2 "A" "alpha"
         (Scenario.channel "hall" "Hall" "hall") Scenario.start 5
       = Run (Ok Scenario.start) 8
           (Log DEBUG "Processing channel"
              :: [GetChannelMembers "hall" 0 200 (inr (take 200 (Scenario.crowd 250)));
                  Sleep (API_DELAY Scenario.cfg) None;
                  GetChannelMembers "hall" 1 200 (inl (ApiError "502 Bad Gateway"))]
              ++ [Log ERROR "Error processing channel"])
     ∧ for_each [Scenario.channel "hall" "Hall" "hall";
                 Scenario.channel "cb" "Off-Topic" "off-topic"]
         (process_channel Faults.flaky_listing Scenario.cfg 5 2 "A" "alpha")
         Scenario.start 5
       = after (Log DEBUG "Processing channel"
                  :: [GetChannelMembers "hall" 0 200
                        (inr (take 200 (Scenario.crowd 250)));
                      Sleep (API_DELAY Scenario.cfg) None;
                      GetChannelMembers "hall" 1 200 (inl (ApiError "502 Bad Gateway"))]
                  ++ [Log ERROR "Error processing channel"])
           (for_each [Scenario.channel "cb" "Off-Topic" "off-topic"]
              (process_channel Faults.flaky_listing Scenario.cfg 5 2 "A" "alpha")
              Scenario.start 8))
  ∧ channel_id <$> written (trace (main (Scenario.platform Scenario.outage)
                                     Scenario.cfg 5 0))
    = ["cb"; "cb"].
Proof.
  split; [| split].
  - split; [by repeat split |].
    apply (proj1 (failures_are_isolated (Scenario.platform Faults.team_down)
                    Scenario.cfg 5 2)
             (Scenario.team "A" "alpha") "A" "alpha" [Scenario.team "B" "beta"]
             Scenario.start 3 (ApiError "500 Internal Server Error") 4);
      reflexivity.
  - assert (Hl : get_all_channel_members Faults.flaky_listing Scenario.cfg 5 "hall" 5
              = Run (Raise (ApiError "502 Bad Gateway")) 8
                  [GetChannelMembers "hall" 0 200 (inr (take 200 (Scenario.crowd 250)));
                   Sleep (API_DELAY Scenario.cfg) None;
                   GetChannelMembers "hall" 1 200 (inl (ApiError "502 Bad Gateway"))])
      by reflexivity.
    split; [by split |].
    apply (proj2 (failures_are_isolated Faults.flaky_listing Scenario.cfg 5 2)
             "A" "alpha" (Scenario.channel "hall" "Hall" "hall") "hall"
             [Scenario.channel "cb" "Off-Topic" "off-topic"] Scenario.start 5
             (ApiError "502 Bad Gateway") 8
             [GetChannelMembers "hall" 0 200 (inr (take 200 (Scenario.crowd 250)));
              Sleep (API_DELAY Scenario.cfg) None;
              GetChannelMembers "hall" 1 200 (inl (ApiError "502 Bad Gateway"))]);
      [reflexivity | exact Hl].
  - by vm_compute.
Defined.

(** The channel ca of the world [two_teams] has a display name, and its
    two records carry it. *)
Lemma channel_name_of_records_witness :
  out (process_channel (Scenario.platform Scenario.two_teams) Scenario.cfg 5 2
         "A" "alpha" (Scenario.channel "ca" "Town Square" "town-square") Scenario.start 4)
  = Ok ({[ "u1"; "u2" ]},
        [Record_ 2 "A" "alpha" "ca" "Town Square" "u1";
         Record_ 2 "A" "alpha" "ca" "Town Square" "u2"])
  ∧ ∃ cid (s : gset string),
      Scenario.channel "ca" "Town Square" "town-square" !! "id" = Some cid
      ∧ ({[ "u1"; "u2" ]},
         [Record_ 2 "A" "alpha" "ca" "Town Square" "u1";
          Record_ 2 "A" "alpha" "ca" "Town Square" "u2"])
        = (Scenario.start.1 ∪ s,
           Scenario.start.2 ++ channel_records 2 "A" "alpha" cid
              (stored_channel_name (Scenario.channel "ca" "Town Square" "town-square")) s)
      ∧ Forall (λ rd, r_channel_name rd
                      = stored_channel_name
                          (Scenario.channel "ca" "Town Square" "town-square"))
          (channel_records 2 "A" "alpha" cid
             (stored_channel_name (Scenario.channel "ca" "Town Square" "town-square")) s).
Proof.
  assert (Hout : out (process_channel (Scenario.platform Scenario.two_teams)
                        Scenario.cfg 5 2 "A" "alpha"
                        (Scenario.channel "ca" "Town Square" "town-square") Scenario.start 4)
                 = Ok ({[ "u1"; "u2" ]},
                       [Record_ 2 "A" "alpha" "ca" "Town Square" "u1";
                        Record_ 2 "A" "alpha" "ca" "Town Square" "u2"]))
    by reflexivity.
  split; [exact Hout |].
  exact (channel_name_of_records (Scenario.platform Scenario.two_teams) Scenario.cfg
           5 2 "A" "alpha" _ Scenario.start 4 _ Hout).
Defined.

(** C8 as stated fails: the direct-message channel [dm] has the key
    [display_name], with the empty string as its value, and its records
    carry the [name] of the channel instead. *)
Lemma empty_display_name_falls_back_to_name :
  Scenario.dm !! "display_name" = Some EmptyString
  ∧ name_by_presence Scenario.dm = EmptyString
  ∧ r_channel_name <$> (Scenario.collected_in Scenario.direct_messages).2
    = ["u1__u2"; "u1__u2"].
Proof. by vm_compute. Qed.

(** The listing of channel ca in the world [repeats] names u1 three
    times and u2 once: two records. *)
Lemma one_record_per_member_witness :
  (Scenario.channel "ca" "Town Square" "town-square" !! "id" = Some "ca"
   ∧ get_all_channel_members (Scenario.platform Scenario.repeats) Scenario.cfg 5 "ca" 4
     = Run (Ok [Scenario.member "u1"; Scenario.member "u2";
                Scenario.member "u1"; Scenario.member "u1"])
         7 (trace (get_all_channel_members (Scenario.platform Scenario.repeats)
                     Scenario.cfg 5 "ca" 4))
   ∧ Forall (λ m : dict, is_Some (m !! "user_id"))
       [Scenario.member "u1"; Scenario.member "u2";
        Scenario.member "u1"; Scenario.member "u1"])
  ∧ r_user_id <$> (Scenario.collected_in Scenario.repeats).2 = ["u1"; "u2"]
  ∧ ∃ new,
      out (process_channel (Scenario.platform Scenario.repeats) Scenario.cfg 5 2
             "A" "alpha" (Scenario.channel "ca" "Town Square" "town-square")
             Scenario.start 4)
      = Ok (Scenario.start.1 ∪ member_ids [Scenario.member "u1"; Scenario.member "u2";
                                    Scenario.member "u1"; Scenario.member "u1"],
            Scenario.start.2 ++ new)
      ∧ Forall (λ rd, r_channel_id rd = "ca"
                      ∧ r_user_id rd ∈ member_ids
                          [Scenario.member "u1"; Scenario.member "u2";
                           Scenario.member "u1"; Scenario.member "u1"]) new
      ∧ Forall (λ m : dict, ∃ u, m !! "user_id" = Some u
                  ∧ length (filter (λ rd, r_user_id rd = u) new) = 1%nat)
          [Scenario.member "u1"; Scenario.member "u2";
           Scenario.member "u1"; Scenario.member "u1"]
      ∧ length new = size (member_ids [Scenario.member "u1"; Scenario.member "u2";
                                       Scenario.member "u1"; Scenario.member "u1"])
      ∧ (member_ids [Scenario.member "u1"; Scenario.member "u2";
                     Scenario.member "u1"; Scenario.member "u1"] = ∅ →
           out (process_channel (Scenario.platform Scenario.repeats) Scenario.cfg 5 2
                  "A" "alpha" (Scenario.channel "ca" "Town Square" "town-square")
                  Scenario.start 4) = Ok Scenario.start
           ∧ new = []).
Proof.
  assert (Hall : Forall (λ m : dict, is_Some (m !! "user_id"))
                   [Scenario.member "u1"; Scenario.member "u2";
                    Scenario.member "u1"; Scenario.member "u1"])
    by (repeat constructor; by eexists).
  split; [split; [reflexivity | split; [reflexivity | exact Hall]] |].
  split; [by vm_compute |].
  exact (one_record_per_member (Scenario.platform Scenario.repeats) Scenario.cfg
           5 2 "A" "alpha" (Scenario.channel "ca" "Town Square" "town-square") "ca"
           Scenario.start 4 _ 7 _ eq_refl eq_refl Hall).
Defined.

(** ** The resolver (main.py:202-218) *)

Lemma count_interactions (f : event → bool) (t : list event) :
  (∀ lv msg, f (Log lv msg) = false) →
  count f (interactions t) = count f t.
Proof.
  intros Hf. unfold count, interactions. induction t as [|ev t IH]; [done |].
  rewrite (filter_cons (λ ev, is_log ev = false)).
  destruct (decide (is_log ev = false)) as [Hl | Hl].
  - rewrite !filter_cons. destruct (decide (f ev = true)); simpl; by rewrite IH.
  - rewrite IH, filter_cons. destruct ev; try done.
    by rewrite decide_False by (by rewrite Hf).
Qed.

Section Resolver.
Context {W : Type} (P : Platform W) (cfg : config).
Implicit Types (w : W) (ids : gset string).

(** The calls of the resolver, its log lines apart. *)
Lemma interactions_resolve ids w :
  interactions (trace (resolve P cfg ids w)) = lookups P cfg ids w.
Proof.
  unfold resolve, lookups.
  case_bool_decide as He; [by rewrite decide_True | rewrite decide_False by done].
  unfold log. rewrite bind_emit. unfold try_except, get_user_statuses_by_id,
    get_users_by_ids, call, sleep, bind, emit.
  destruct (mm_get_user_statuses_by_id P (elements ids) w) as [[e|statuses] w1];
    [done |].
  destruct (sleep_error P (API_DELAY cfg)) as [e|]; [done |].
  cbn [after out world trace].
  destruct (mm_get_users_by_ids P _ _) as [[e|users] w2]; [done |].
  cbn [after out world trace fst].
  destruct (dict_comprehension "id" "username" users w2) as [[names|e|] w3 t3] eqn:Hn;
    pose proof (trace_dict_comprehension "id" "username" users w2) as Ht3;
    rewrite Hn in Ht3; simpl in Ht3; subst t3; [| done | done].
  cbn [after out world trace].
  destruct (dict_comprehension "user_id" "status" statuses w3) as [[sts|e|] w4 t4] eqn:Hs;
    pose proof (trace_dict_comprehension "user_id" "status" statuses w3) as Ht4;
    rewrite Hs in Ht4; simpl in Ht4; subst t4; done.
Qed.

(** A lookup that raises leaves both mappings empty. *)
Lemma resolve_degrades ids w :
  Exists (λ ev, lookup_raised ev = true) (trace (resolve P cfg ids w)) →
  out (resolve P cfg ids w) = Ok (∅, ∅).
Proof.
  unfold resolve.
  case_bool_decide as He; [done |].
  unfold log. rewrite bind_emit. unfold try_except, get_user_statuses_by_id,
    get_users_by_ids, call, sleep, bind, emit.
  destruct (mm_get_user_statuses_by_id P (elements ids) w) as [[e|statuses] w1];
    [done |].
  destruct (sleep_error P (API_DELAY cfg)) as [e|]; [done |].
  cbn [after out world trace].
  destruct (mm_get_users_by_ids P _ _) as [[e|users] w2]; [done |].
  cbn [after out world trace fst].
  destruct (dict_comprehension "id" "username" users w2) as [[names|e|] w3 t3] eqn:Hn;
    pose proof (trace_dict_comprehension "id" "username" users w2) as Ht3;
    rewrite Hn in Ht3; simpl in Ht3; subst t3; [| done | ].
  - cbn [after out world trace].
    destruct (dict_comprehension "user_id" "status" statuses w3) as [[sts|e|] w4 t4] eqn:Hs;
      pose proof (trace_dict_comprehension "user_id" "status" statuses w3) as Ht4;
      rewrite Hs in Ht4; simpl in Ht4; subst t4; simpl; intros H;
      repeat (apply Exists_cons in H as [H | H]; [done |]); by apply Exists_nil in H.
  - simpl. intros H.
    repeat (apply Exists_cons in H as [H | H]; [done |]); by apply Exists_nil in H.
Qed.

(** The resolver always returns. *)
Lemma resolve_returns ids w : ∃ maps, out (resolve P cfg ids w) = Ok maps.
Proof.
  unfold resolve. case_bool_decide; [by eexists |].
  unfold log. rewrite bind_emit. unfold after. cbn [out].
  unfold try_except. rewrite bind_run.
  destruct (get_user_statuses_by_id P _ w) as [[statuses|e|] w1 t1] eqn:H1;
    cbn [out world trace]; [| by eexists |].
  - rewrite bind_run. unfold sleep at 1.
    destruct (sleep_error P (API_DELAY cfg)) as [e|]; cbn [out world trace after];
      [by eexists |].
    rewrite bind_run.
    destruct (get_users_by_ids P _ _) as [[users|e|] w2 t2] eqn:H2;
      cbn [out world trace after]; [| by eexists |].
    + rewrite bind_run, dict_comprehension_run.
      destruct (build_dict "id" "username" users ∅) as [e|names];
        cbn [out world trace after]; [by eexists |].
      rewrite bind_run, dict_comprehension_run.
      destruct (build_dict "user_id" "status" statuses ∅) as [e|sts];
        cbn [out world trace after]; by eexists.
    + exfalso. revert H2. unfold get_users_by_ids, call.
      destruct (mm_get_users_by_ids P _ _) as [[] ?]; done.
  - exfalso. revert H1. unfold get_user_statuses_by_id, call.
    destruct (mm_get_user_statuses_by_id P _ _) as [[] ?]; done.
Qed.

(** The calls of the resolver, counted. *)
Lemma resolve_counts ids w :
  interactions (trace (resolve P cfg ids w)) = lookups P cfg ids w
  ∧ count is_status_lookup (trace (resolve P cfg ids w))
    = (if decide (ids = ∅) then 0 else 1)%nat
  ∧ count is_identity_lookup (trace (resolve P cfg ids w))
    = (if decide (ids = ∅) then 0
       else match (mm_get_user_statuses_by_id P (elements ids) w).1 with
            | inl _ => 0
            | inr _ => match sleep_error P (API_DELAY cfg) with Some _ => 0 | None => 1 end
            end)%nat
  ∧ NoDup (elements ids)
  ∧ (∀ u, u ∈ elements ids ↔ u ∈ ids).
Proof.
  split; [apply interactions_resolve |].
  rewrite <- (count_interactions is_status_lookup (trace (resolve P cfg ids w))),
    <- (count_interactions is_identity_lookup (trace (resolve P cfg ids w))),
    !interactions_resolve by done.
  unfold lookups. split; [| split; [| split]].
  - case_decide; [done |].
    destruct (mm_get_user_statuses_by_id P (elements ids) w) as [[e|statuses] w1];
      [done |].
    by destruct (sleep_error P (API_DELAY cfg)).
  - case_decide; [done |].
    destruct (mm_get_user_statuses_by_id P (elements ids) w) as [[e|statuses] w1];
      [done |].
    by destruct (sleep_error P (API_DELAY cfg)).
  - apply NoDup_elements.
  - intros u. apply elem_of_elements.
Qed.
End Resolver.

(** C7 as stated fails: a run of an account in no team makes no status
    lookup, and a run in which the status lookup raises makes no identity
    lookup; both runs end normally. *)
Lemma lookups_are_not_made_in_every_run :
  (out (main (Scenario.platform Scenario.no_teams) Scenario.cfg 5 0) = Ok tt
   ∧ count is_status_lookup
       (trace (main (Scenario.platform Scenario.no_teams) Scenario.cfg 5 0)) = 0%nat
   ∧ count is_identity_lookup
       (trace (main (Scenario.platform Scenario.no_teams) Scenario.cfg 5 0)) = 0%nat)
  ∧ (out (main (Scenario.platform Scenario.statuses_down) Scenario.cfg 5 0) = Ok tt
     ∧ count is_status_lookup
         (trace (main (Scenario.platform Scenario.statuses_down) Scenario.cfg 5 0))
       = 1%nat
     ∧ count is_identity_lookup
         (trace (main (Scenario.platform Scenario.statuses_down) Scenario.cfg 5 0))
       = 0%nat).
Proof. by vm_compute. Qed.

(** ** The schema provisioner (main.py:51-141) *)

Section Provisioner.
Context {W : Type} (P : Platform W).
Implicit Types (w : W).

(** The fatal step: the error is logged, a rollback is tried, and the
    error is raised again (the error of the rollback, should it fail). *)
Lemma convert_hypertable_fatal w e w1 rb w2 :
  pg_execute P CREATE_HYPERTABLE w = (Some e, w1) →
  already_hypertable e = false →
  pg_rollback P w1 = (rb, w2) →
  convert_hypertable P w
  = Run (Raise (PsycopgError (default e rb))) w2
        [Execute CREATE_HYPERTABLE (Some e);
         Log ERROR "Error converting table to hypertable";
         Rollback rb].
Proof.
  intros He Hal Hrb. unfold already_hypertable in Hal.
  apply orb_false_iff in Hal as [H1 H2].
  unfold convert_hypertable, try_except_pg, try_except, execute, rollback,
    command, log, bind, emit, raise.
  rewrite He. cbn [after out world trace]. rewrite H1, H2.
  cbn [after out world trace]. rewrite Hrb. by destruct rb.
Qed.

Lemma convert_hypertable_already w e w1 :
  pg_execute P CREATE_HYPERTABLE w = (Some e, w1) →
  already_hypertable e = true →
  ∃ msg, convert_hypertable P w
         = Run (Ok tt) w1 [Execute CREATE_HYPERTABLE (Some e); Log INFO msg].
Proof.
  intros He Hal. unfold already_hypertable in Hal.
  unfold convert_hypertable, try_except_pg, try_except, execute, rollback,
    command, log, bind, emit, raise.
  rewrite He. cbn [after out world trace].
  destruct (bool_decide _); [by eexists |].
  simpl in Hal. rewrite Hal. by eexists.
Qed.

(** The two compression steps: the error is logged and a rollback is
    called, unguarded; the step ends as the rollback does. *)
Lemma set_compression_error w e w1 rb w2 :
  pg_execute P SET_COMPRESSION w = (Some e, w1) →
  pg_rollback P w1 = (rb, w2) →
  set_compression P w
  = Run (match rb with None => Ok tt | Some e' => Raise (PsycopgError e') end) w2
        [Execute SET_COMPRESSION (Some e);
         Log WARNING "Could not apply compression settings";
         Rollback rb].
Proof.
  intros He Hrb.
  unfold set_compression, try_except_pg, try_except, execute, rollback,
    command, log, bind, emit.
  rewrite He. cbn [after out world trace]. rewrite Hrb. by destruct rb.
Qed.

Lemma add_compression_policy_error w e w1 rb w2 :
  pg_execute P ADD_COMPRESSION_POLICY w = (Some e, w1) →
  policy_exists e = false →
  pg_rollback P w1 = (rb, w2) →
  add_compression_policy P w
  = Run (match rb with None => Ok tt | Some e' => Raise (PsycopgError e') end) w2
        [Execute ADD_COMPRESSION_POLICY (Some e);
         Log WARNING "Could not add compression policy";
         Rollback rb].
Proof.
  intros He Hex Hrb.
  unfold add_compression_policy, try_except_pg, try_except, execute, rollback,
    command, log, bind, emit.
  rewrite He. cbn [after out world trace]. rewrite Hex.
  cbn [after out world trace]. rewrite Hrb. by destruct rb.
Qed.

Lemma add_compression_policy_exists w e w1 :
  pg_execute P ADD_COMPRESSION_POLICY w = (Some e, w1) →
  policy_exists e = true →
  add_compression_policy P w
  = Run (Ok tt) w1
        [Execute ADD_COMPRESSION_POLICY (Some e);
         Log INFO "Compression policy for 'channel_user_status' already exists."].
Proof.
  intros He Hex.
  unfold add_compression_policy, try_except_pg, try_except, execute, rollback,
    command, log, bind, emit.
  rewrite He. cbn [after out world trace]. by rewrite Hex.
Qed.

Ltac step_call f :=
  match goal with
  | |- context [f P ?q ?w'] => destruct (f P q w') as [[?|] ?]
  | |- context [f P ?w'] => destruct (f P w') as [[?|] ?]
  end; simpl.

Ltac refute_trace :=
  intros; repeat match goal with
  | H : Forall _ (_ :: _) |- _ => apply Forall_cons in H as [? H]
  end; done.

Lemma completes_ensure_extension :
  completes (λ ev, tolerated ev = true) (ensure_extension P).
Proof.
  intros w. unfold ensure_extension, try_except_pg, try_except, execute, rollback,
    command, log, bind, emit, raise.
  step_call (@pg_execute W); [| by eexists].
  step_call (@pg_rollback W); by eexists.
Qed.

Lemma completes_create_table :
  completes (λ ev, tolerated ev = true) (create_table P).
Proof.
  intros w. unfold create_table, execute, command, log, bind, emit.
  step_call (@pg_execute W); [refute_trace | by eexists].
Qed.

Lemma completes_convert_hypertable :
  completes (λ ev, tolerated ev = true) (convert_hypertable P).
Proof.
  intros w. unfold convert_hypertable, try_except_pg, try_except, execute, rollback,
    command, log, bind, emit, raise.
  step_call (@pg_execute W); [| by eexists].
  destruct (bool_decide _) eqn:H1; simpl; [by eexists |].
  destruct (contains _ _) eqn:H2; simpl; [by eexists |].
  unfold tolerated, already_hypertable. intros H.
  apply Forall_cons in H as [H _]. simpl in H. by rewrite H1, H2 in H.
Qed.

Lemma completes_set_compression :
  completes (λ ev, tolerated ev = true) (set_compression P).
Proof.
  intros w. unfold set_compression, try_except_pg, try_except, execute, rollback,
    command, log, bind, emit.
  step_call (@pg_execute W); [| by eexists].
  step_call (@pg_rollback W); [refute_trace | by eexists].
Qed.

Lemma completes_add_compression_policy :
  completes (λ ev, tolerated ev = true) (add_compression_policy P).
Proof.
  intros w. unfold add_compression_policy, try_except_pg, try_except, execute,
    rollback, command, log, bind, emit.
  step_call (@pg_execute W); [| by eexists].
  destruct (policy_exists _); simpl; [by eexists |].
  step_call (@pg_rollback W); [refute_trace | by eexists].
Qed.

Lemma completes_commit : completes (λ ev, tolerated ev = true) (commit P).
Proof.
  intros w. unfold commit, command.
  step_call (@pg_commit W); [refute_trace | by eexists].
Qed.

(** Provisioning gets over every tolerated answer. *)
Lemma ensure_table_exists_tolerant w :
  Forall (λ ev, tolerated ev = true) (trace (ensure_table_exists P w)) →
  out (ensure_table_exists P w) = Ok tt.
Proof.
  intros H.
  destruct (completes_bind _ _ _ completes_ensure_extension
    (λ _, completes_bind _ _ _ completes_create_table
    (λ _, completes_bind _ _ _ completes_convert_hypertable
    (λ _, completes_bind _ _ _ completes_set_compression
    (λ _, completes_bind _ _ _ completes_add_compression_policy
    (λ _, completes_commit))))) w H) as [[] Ha].
  exact Ha.
Qed.
(** Seen from the trace: a failed conversion ends the step with an
    exception. *)
Lemma convert_hypertable_failed w :
  Exists (λ ev, hypertable_failed ev = true) (trace (convert_hypertable P w)) →
  ∃ e, out (convert_hypertable P w) = Raise e.
Proof.
  remember (convert_hypertable P w) as r eqn:Hr. revert Hr.
  unfold convert_hypertable, try_except_pg, try_except, execute, rollback,
    command, log, bind, emit, raise, after.
  destruct (pg_execute P CREATE_HYPERTABLE w) as [[e|] w1];
    cbn [out world trace app].
  - unfold hypertable_failed, already_hypertable.
    destruct (bool_decide _) eqn:H1; cbn [out world trace app].
    { intros ->. cbn [trace]. rewrite !Exists_cons, Exists_nil, H1. simpl.
      by intros [|[|]]. }
    destruct (contains _ _) eqn:H2; cbn [out world trace app].
    { intros ->. cbn [trace]. rewrite !Exists_cons, Exists_nil, H1, H2. simpl.
      by intros [|[|]]. }
    destruct (pg_rollback P w1) as [[e'|] w2]; intros -> _; by eexists.
  - intros ->. cbn [trace]. rewrite !Exists_cons, Exists_nil. simpl.
    by intros [|[|]].
Qed.

Lemma ensure_table_exists_failed w :
  Exists (λ ev, hypertable_failed ev = true) (trace (ensure_table_exists P w)) →
  ∃ e, out (ensure_table_exists P w) = Raise e.
Proof.
  unfold ensure_table_exists. intros H.
  apply Exists_trace_bind in H as ([] & Ho1 & H);
    [| by_emits; unfold ensure_extension, execute, rollback, log; by repeat emits_step].
  rewrite out_bind, Ho1.
  apply Exists_trace_bind in H as ([] & Ho2 & H);
    [| by_emits; unfold create_table, execute, log; by repeat emits_step].
  rewrite out_bind, Ho2.
  rewrite trace_bind in H. apply Exists_app in H as [H | H].
  - destruct (convert_hypertable_failed _ H) as [e He]. exists e.
    by rewrite out_bind, He.
  - exfalso. destruct (out (convert_hypertable P _)); try by apply Exists_nil in H.
    revert H. apply Forall_Exists_bool. by_emits.
    unfold set_compression, add_compression_policy, execute, rollback, commit, log.
    by repeat emits_step.
Qed.

(** The two compression steps and the commit. *)
Lemma compression_steps_rollback_lost w :
  rollback_lost (trace ((set_compression P ;; add_compression_policy P ;; commit P) w))
  = true →
  ∃ e', out ((set_compression P ;; add_compression_policy P ;; commit P) w)
        = Raise (PsycopgError e')
        ∧ Forall (λ ev, is_commit ev = false)
            (trace ((set_compression P ;; add_compression_policy P ;; commit P) w)).
Proof.
  remember ((set_compression P ;; add_compression_policy P ;; commit P) w) as r eqn:Hr.
  revert Hr.
  unfold set_compression, add_compression_policy, try_except_pg, try_except,
    execute, rollback, commit, command, log, bind, emit, raise, after.
  repeat (match goal with
  | |- context [pg_execute P ?q ?w'] => destruct (pg_execute P q w') as [[?|] ?]
  | |- context [pg_rollback P ?w'] => destruct (pg_rollback P w') as [[?|] ?]
  | |- context [pg_commit P ?w'] => destruct (pg_commit P w') as [[?|] ?]
  | |- context [policy_exists ?e] => destruct (policy_exists e)
  end; cbn [out world trace app]);
  intros ->; cbn [out trace];
  try (intros _; eexists; split; [reflexivity | by repeat constructor]);
  by intros [=].
Qed.

(** Provisioning does not get over the rollback of a compression step
    that raises: it ends with the exception of the rollback, before its
    commit. *)
Lemma ensure_table_exists_rollback_lost w :
  rollback_lost (trace (ensure_table_exists P w)) = true →
  ∃ e', out (ensure_table_exists P w) = Raise (PsycopgError e')
        ∧ Forall (λ ev, is_commit ev = false) (trace (ensure_table_exists P w)).
Proof.
  unfold ensure_table_exists. intros H.
  assert (H1 : Forall (λ ev, compression_failed ev = false ∧ is_commit ev = false)
                 (trace (ensure_extension P w)))
    by (by_emits; unfold ensure_extension, execute, rollback, log; by repeat emits_step).
  rewrite trace_bind, rollback_lost_app_l in H
    by (eapply Forall_impl; [exact H1 |]; by intros ev [? _]).
  rewrite trace_bind, out_bind.
  destruct (out (ensure_extension P w)) as [[]|e|]; [| done | done].
  set (w1 := world (ensure_extension P w)) in *.
  assert (H2 : Forall (λ ev, compression_failed ev = false ∧ is_commit ev = false)
                 (trace (create_table P w1)))
    by (by_emits; unfold create_table, execute, log; by repeat emits_step).
  rewrite trace_bind, rollback_lost_app_l in H
    by (eapply Forall_impl; [exact H2 |]; by intros ev [? _]).
  rewrite trace_bind, out_bind.
  destruct (out (create_table P w1)) as [[]|e|]; [| done | done].
  set (w2 := world (create_table P w1)) in *.
  assert (H3 : Forall (λ ev, compression_failed ev = false ∧ is_commit ev = false)
                 (trace (convert_hypertable P w2)))
    by (by_emits; unfold convert_hypertable, execute, rollback, log;
        by repeat emits_step).
  rewrite trace_bind, rollback_lost_app_l in H
    by (eapply Forall_impl; [exact H3 |]; by intros ev [? _]).
  rewrite trace_bind, out_bind.
  destruct (out (convert_hypertable P w2)) as [[]|e|]; [| done | done].
  destruct (compression_steps_rollback_lost _ H) as (e' & Ho & Hc).
  exists e'. split; [exact Ho |].
  repeat (apply Forall_app; split); try done;
    (eapply Forall_impl; [eassumption |]; by intros ev [_ ?]).
Qed.
End Provisioner.

(** ** The whole run (main.py:156-247) *)

Lemma collected_enrich names statuses rd : collected (enrich names statuses rd) = rd.
Proof. by destruct rd. Qed.

Lemma enrich_unknown rd :
  username (enrich ∅ ∅ rd) = "unknown" ∧ status (enrich ∅ ∅ rd) = "unknown".
Proof. unfold enrich. simpl. by rewrite lookup_empty. Qed.

Section Main.
Context {W : Type} (P : Platform W) (cfg : config).
Implicit Types (w : W) (a : acc).

(** Every record that the loop over the teams adds carries [now]. *)
Lemma process_team_now fuel now team a w a' :
  Forall (λ rd, r_now rd = now) a.2 →
  out (process_team P cfg fuel now team a w) = Ok a' →
  Forall (λ rd, r_now rd = now) a'.2.
Proof.
  intros Ha. unfold process_team, getitem.
  destruct (team !! "id") as [tid|]; [| by unfold bind, raise].
  destruct (team !! "name") as [tname|]; [| by unfold bind, raise].
  rewrite !bind_ret. unfold log. rewrite bind_emit. unfold after at 1. cbn [out].
  rewrite bind_run.
  destruct (out (try_except _ _ _)) as [[channels|]| |]; cbn [out after]; try done.
  - apply (for_each_invariant (λ a, Forall (λ rd, r_now rd = now) a.2)); [| done].
    intros channel s w' s' Hs Hout.
    destruct (process_channel_inv P cfg _ _ _ _ _ _ _ _ Hout) as (cid & ids & _ & ->).
    simpl. apply Forall_app. split; [done |].
    eapply Forall_impl; [apply channel_records_fields |]. by intros rd (? & _).
  - unfold ret. simpl. by intros [= <-].
Qed.

(** The three ways in which collection runs. *)
Lemma collect_run fuel w :
  (∃ teams now w3,
     collect P cfg fuel w
     = after (collect_prefix teams now)
         (for_each teams (process_team P cfg fuel now) (∅, []) w3))
  ∨ (∃ e w1 t, collect P cfg fuel w = Run (Raise e) w1 t
       ∧ Forall (λ ev, is_db ev = false ∧ is_clock ev = false ∧ is_lookup ev = false) t).
Proof.
  remember (collect P cfg fuel w) as c eqn:Hc. revert Hc.
  unfold collect, log, driver_login, get_user_teams, utcnow, command, call.
  rewrite bind_emit. unfold bind at 1.
  destruct (mm_login P w) as [[e|] w1]; cbn [after out world trace app].
  { intros ->. right. eexists _, _, _. split; [reflexivity | by repeat constructor]. }
  rewrite bind_emit. unfold bind at 1.
  destruct (mm_get_user_teams P w1) as [[e|teams] w2]; cbn [after out world trace app].
  { intros ->. right. eexists _, _, _. split; [reflexivity | by repeat constructor]. }
  rewrite bind_emit. unfold bind at 1.
  destruct (clock_now P w2) as [now w3]; cbn [after out world trace app].
  intros ->. left. by exists teams, now, w3.
Qed.

(** Collection reads the clock at most once and talks to the driver only;
    when it ends normally it has read the clock exactly once, and every
    record carries the instant read. *)
Lemma collect_spec fuel w :
  Forall (λ ev, is_db ev = false ∧ is_lookup ev = false) (trace (collect P cfg fuel w))
  ∧ match out (collect P cfg fuel w) with
    | Ok a => ∃ now, clock_reads (trace (collect P cfg fuel w)) = [now]
                     ∧ Forall (λ rd, r_now rd = now) a.2
    | _ => (length (clock_reads (trace (collect P cfg fuel w))) ≤ 1)%nat
    end.
Proof.
  destruct (collect_run fuel w) as [(teams & now & w3 & ->) | (e & w1 & t & -> & Ht)].
  - pose proof (emits_for_each _ teams (process_team P cfg fuel now) (∅, [])
                  (λ team a, emits_process_team P cfg fuel now team a) w3) as Hloop.
    assert (Hreads : clock_reads
              (trace (for_each teams (process_team P cfg fuel now) (∅, []) w3)) = []).
    { apply clock_reads_no_clock. eapply Forall_impl; [exact Hloop |].
      by intros ev (_ & ? & _). }
    unfold after. cbn [out world trace]. split.
    + apply Forall_app. split; [by repeat constructor |].
      eapply Forall_impl; [exact Hloop |]. by intros ev (? & _ & ?).
    + rewrite clock_reads_app, Hreads.
      destruct (out (for_each _ _ _ _)) as [a| |] eqn:Hout; [| simpl; lia | simpl; lia].
      exists now. split; [done |].
      eapply (for_each_invariant (λ a, Forall (λ rd, r_now rd = now) a.2));
        [| | exact Hout]; [| by constructor].
      intros team s w' s'. apply process_team_now.
  - cbn [out trace]. split.
    + eapply Forall_impl; [exact Ht |]. by intros ev (? & _ & ?).
    + rewrite clock_reads_no_clock; [simpl; lia |].
      eapply Forall_impl; [exact Ht |]. by intros ev (_ & ? & _).
Qed.

(** The rows that [persist] writes are the collected records, enriched
    and in order: all of them when it ends normally, the first so many
    when it does not. *)
Lemma persist_spec names statuses records w :
  Forall (λ ev, is_clock ev = false ∧ is_lookup ev = false)
    (trace (persist P cfg names statuses records w))
  ∧ written (trace (persist P cfg names statuses records w))
      `prefix_of` (enrich names statuses <$> records)
  ∧ (out (persist P cfg names statuses records w) = Ok tt →
      written (trace (persist P cfg names statuses records w))
      = enrich names statuses <$> records).
Proof.
  split.
  { unfold persist, get_pg_conn. apply emits_bind; [emits_step | intros _].
    apply emits_finally; [| done]. apply emits_bind; [| intros _].
    - intros w'. eapply Forall_impl; [apply emits_ensure_table_exists |].
      by intros ev (? & _ & ?).
    - apply emits_write_records. }
  remember (persist P cfg names statuses records w) as r eqn:Hr. revert Hr.
  unfold persist, get_pg_conn, command. unfold bind at 1.
  destruct (pg_connect P w) as [[e|] w1]; cbn [after out world trace app].
  { intros ->. split; [apply prefix_nil | done]. }
  unfold finally. rewrite bind_run.
  pose proof (emits_ensure_table_exists P w1) as Hens.
  assert (Hw : written (trace (ensure_table_exists P w1)) = []).
  { apply omap_none_forall. eapply Forall_impl; [exact Hens |]. by intros ev (_ & ? & _). }
  destruct (out (ensure_table_exists P w1)) as [[]|e|];
    cbn [after out world trace app].
  - destruct (write_records_written P cfg names statuses records
                (world (ensure_table_exists P w1)))
      as [Hp He].
    destruct (write_records P cfg names statuses records _) as [[[]|e|] w2 t2];
      cbn [after out world trace app] in *; intros ->; unfold after;
      cbn [out world trace app];
      change (Connect None :: ?t) with ([Connect None] ++ t);
      rewrite !written_app, Hw;
      change (written [Connect None]) with (@nil row);
      try change (written [ConnExit _]) with (@nil row);
      cbn [app]; rewrite ?app_nil_r; split; auto; done.
  - intros ->. unfold after. cbn [out world trace app].
    change (Connect None :: ?t) with ([Connect None] ++ t).
    rewrite !written_app, Hw. split; [apply prefix_nil | done].
  - intros ->. unfold after. cbn [out world trace app].
    change (Connect None :: ?t) with ([Connect None] ++ t).
    rewrite !written_app, Hw. split; [apply prefix_nil | done].
Qed.

(** The trace of a whole run, cut at the end of collection and at the end
    of resolution. *)
Lemma main_trace fuel w a w1 t1 maps w2 t2 :
  collect P cfg fuel w = Run (Ok a) w1 t1 →
  resolve P cfg a.1 w1 = Run (Ok maps) w2 t2 →
  ∃ t4,
    trace (main P cfg fuel w)
    = t1 ++ t2 ++ trace (persist P cfg maps.1 maps.2 a.2 w2) ++ t4
    ∧ Forall (λ ev, is_db ev = false ∧ is_clock ev = false ∧ is_lookup ev = false) t4
    ∧ (out (main P cfg fuel w) = Ok tt →
       out (persist P cfg maps.1 maps.2 a.2 w2) = Ok tt)
    ∧ (∀ e, out (persist P cfg maps.1 maps.2 a.2 w2) = Raise e →
       out (main P cfg fuel w) = Raise e ∧ t4 = []).
Proof.
  intros Hc Hr. unfold main.
  rewrite !trace_bind, !out_bind, Hc. cbn [out world trace].
  rewrite !trace_bind, !out_bind, Hr. cbn [out world trace].
  rewrite trace_bind, out_bind.
  destruct (out (persist P cfg maps.1 maps.2 a.2 w2)) as [[]|e|].
  - eexists. split; [reflexivity |]. split; [apply emits_goodbye |]. by split.
  - exists []. split; [reflexivity |]. split; [constructor |].
    split; [done |]. by intros ? [= <-].
  - exists []. split; [reflexivity |]. by split; [constructor |].
Qed.

(** A failed hypertable conversion ends the write phase before it has
    begun. *)
Lemma persist_failed names statuses records w :
  Exists (λ ev, hypertable_failed ev = true)
    (trace (persist P cfg names statuses records w)) →
  ∃ e, out (persist P cfg names statuses records w) = Raise e
       ∧ written (trace (persist P cfg names statuses records w)) = []
       ∧ last (trace (persist P cfg names statuses records w)) = Some (ConnExit true).
Proof.
  unfold persist. intros H.
  apply Exists_trace_bind in H as ([] & Ho1 & H);
    [| by_emits; unfold get_pg_conn; by repeat emits_step].
  rewrite out_bind, trace_bind, Ho1.
  set (w1 := world (get_pg_conn P w)) in *.
  rewrite out_finally, trace_finally in *.
  apply Exists_app in H as [H | H]; cycle 1.
  { exfalso. revert H. apply Forall_Exists_bool.
    case_match; by repeat constructor. }
  rewrite trace_bind in H. apply Exists_app in H as [H | H].
  - destruct (ensure_table_exists_failed P _ H) as [e He]. exists e.
    rewrite out_bind, trace_bind, He. split; [done |]. split.
    + rewrite !written_app, app_nil_r.
      rewrite (written_none (trace (get_pg_conn P w)));
        [| by_emits; unfold get_pg_conn; by repeat emits_step].
      rewrite (written_none (trace (ensure_table_exists P w1))); [done |].
      eapply Forall_impl; [apply emits_ensure_table_exists |]. by intros ev (_ & ? & _).
    + by rewrite app_nil_r, app_assoc, last_snoc.
  - exfalso. destruct (out (ensure_table_exists P w1)); try by apply Exists_nil in H.
    revert H. apply Forall_Exists_bool. by_emits.
    unfold write_records, write_record, py_mod, execute, commit, log.
    by repeat emits_step.
Qed.

(** It ends the whole run, too. *)
Lemma main_aborted fuel w :
  Exists (λ ev, hypertable_failed ev = true) (trace (main P cfg fuel w)) →
  ∃ e, out (main P cfg fuel w) = Raise e
       ∧ written (trace (main P cfg fuel w)) = []
       ∧ last (trace (main P cfg fuel w)) = Some (ConnExit true).
Proof.
  intros H.
  destruct (collect_spec fuel w) as [Hdb _].
  assert (Hdb1 : Forall (λ ev, is_db ev = false) (trace (collect P cfg fuel w))).
  { eapply Forall_impl; [exact Hdb |]. by intros ev (? & _). }
  assert (Hdb2 : ∀ ids w', Forall (λ ev, is_db ev = false) (trace (resolve P cfg ids w'))).
  { intros ids w'. eapply Forall_impl; [apply emits_resolve |]. by intros ev (? & _). }
  unfold main in H.
  apply Exists_trace_bind in H as (a & Hoc & H);
    [| by apply no_hypertable_failure].
  apply Exists_trace_bind in H as (maps & Hor & H);
    [| by apply no_hypertable_failure].
  destruct (collect P cfg fuel w) as [o1 w1 t1] eqn:Hc. cbn [out world trace] in *.
  subst o1.
  destruct (resolve P cfg a.1 w1) as [o2 w2 t2] eqn:Hr. cbn [out world trace] in *.
  subst o2.
  destruct (main_trace fuel w a w1 t1 maps w2 t2 Hc Hr) as (t4 & Ht & Ht4 & _ & Hab).
  rewrite trace_bind in H. apply Exists_app in H as [H | H].
  - destruct (persist_failed _ _ _ _ H) as (e & He & Hw & Hl).
    destruct (Hab e He) as [Hout ->]. exists e. split; [done |].
    rewrite Ht, app_nil_r, !written_app, Hw, (written_no_db t1), (written_no_db t2)
      by (done || apply Hdb2 || (specialize (Hdb2 a.1 w1); by rewrite Hr in Hdb2)).
    split; [done |].
    destruct (trace (persist P cfg maps.1 maps.2 a.2 w2)) as [|ev t3] eqn:Ht3 using rev_ind;
      [done |].
    rewrite last_snoc in Hl. injection Hl as ->.
    by rewrite !app_assoc, last_snoc.
  - exfalso. destruct (out (persist P cfg maps.1 maps.2 a.2 w2));
      try by apply Exists_nil in H.
    revert H. apply Forall_Exists_bool.
    eapply Forall_impl; [apply emits_goodbye |]. by intros [] (? & _).
Qed.

(** The two ways in which the write phase begins. *)
Lemma persist_split names statuses records w :
  (∃ e w1,
     pg_connect P w = (Some e, w1)
     ∧ persist P cfg names statuses records w = Run (Raise e) w1 [Connect (Some e)])
  ∨ (∃ w1,
       pg_connect P w = (None, w1)
       ∧ persist P cfg names statuses records w
         = after [Connect None]
             (finally (ensure_table_exists P ;;
                       write_records P cfg names statuses records) ConnExit w1)).
Proof.
  remember (persist P cfg names statuses records w) as r eqn:Hr. revert Hr.
  unfold persist, get_pg_conn, command. unfold bind at 1.
  destruct (pg_connect P w) as [[e|] w1]; intros ->; [left | right].
  - by exists e, w1.
  - by exists w1.
Qed.

Lemma persist_rollback_lost names statuses records w :
  rollback_lost (trace (persist P cfg names statuses records w)) = true →
  ∃ e', out (persist P cfg names statuses records w) = Raise (PsycopgError e')
        ∧ written (trace (persist P cfg names statuses records w)) = []
        ∧ count is_commit (trace (persist P cfg names statuses records w)) = 0%nat
        ∧ last (trace (persist P cfg names statuses records w)) = Some (ConnExit true).
Proof.
  destruct (persist_split names statuses records w)
    as [(e & w1 & _ & ->) | (w1 & _ & ->)]; [done |].
  unfold after. cbn [out world trace app].
  change (rollback_lost (Connect None :: ?t)) with (rollback_lost t).
  rewrite trace_finally, out_finally, trace_bind, out_bind.
  intros H.
  assert (Hq : Forall (λ ev, is_rollback ev = false)
                 (match out (ensure_table_exists P w1) with
                  | Ok a => trace (write_records P cfg names statuses records
                                     (world (ensure_table_exists P w1)))
                  | _ => []
                  end)).
  { destruct (out (ensure_table_exists P w1)); try done. by_emits.
    unfold write_records, write_record, py_mod, execute, commit, log.
    by repeat emits_step. }
  rewrite rollback_lost_app_r in H
    by (repeat case_match; by repeat constructor).
  rewrite rollback_lost_app_r in H by exact Hq.
  destruct (ensure_table_exists_rollback_lost P _ H) as (e' & Ho & Hc).
  exists e'. rewrite Ho. split; [done |]. rewrite app_nil_r.
  change (Connect None :: ?t) with ([Connect None] ++ t).
  split; [| split].
  - rewrite !written_app, (written_none (trace (ensure_table_exists P w1))); [done |].
    eapply Forall_impl; [apply emits_ensure_table_exists |]. by intros ev (_ & ? & _).
  - by rewrite !count_app, (count_none is_commit _ Hc).
  - by rewrite app_assoc, last_snoc.
Qed.

(** So does the run. *)
Lemma main_rollback_lost fuel w :
  rollback_lost (trace (main P cfg fuel w)) = true →
  ∃ e', out (main P cfg fuel w) = Raise (PsycopgError e')
        ∧ written (trace (main P cfg fuel w)) = []
        ∧ count is_commit (trace (main P cfg fuel w)) = 0%nat
        ∧ last (trace (main P cfg fuel w)) = Some (ConnExit true).
Proof.
  intros H.
  destruct (collect_spec fuel w) as [Hdb _].
  assert (Hdb1 : Forall (λ ev, is_db ev = false) (trace (collect P cfg fuel w))).
  { eapply Forall_impl; [exact Hdb |]. by intros ev (? & _). }
  assert (Hdb2 : ∀ ids w', Forall (λ ev, is_db ev = false) (trace (resolve P cfg ids w'))).
  { intros ids w'. eapply Forall_impl; [apply emits_resolve |]. by intros ev (? & _). }
  assert (Hcf : ∀ t, Forall (λ ev, is_db ev = false) t →
                     Forall (λ ev, compression_failed ev = false) t).
  { intros t Ht. eapply Forall_impl; [exact Ht |]. by intros []. }
  assert (Hnc : ∀ t, Forall (λ ev, is_db ev = false) t →
                     Forall (λ ev, is_commit ev = false) t).
  { intros t Ht. eapply Forall_impl; [exact Ht |]. by intros []. }
  unfold main in *.
  rewrite trace_bind, rollback_lost_app_l in H by by apply Hcf.
  rewrite trace_bind, out_bind, written_app, count_app, (written_no_db _ Hdb1),
    (count_none is_commit _ (Hnc _ Hdb1)).
  destruct (out (collect P cfg fuel w)) as [a|e|]; [| done | done].
  set (w1 := world (collect P cfg fuel w)) in *.
  specialize (Hdb2 a.1 w1).
  rewrite trace_bind, rollback_lost_app_l in H by by apply Hcf.
  rewrite trace_bind, out_bind, written_app, count_app, (written_no_db _ Hdb2),
    (count_none is_commit _ (Hnc _ Hdb2)).
  destruct (out (resolve P cfg a.1 w1)) as [maps|e|]; [| done | done].
  set (w2 := world (resolve P cfg a.1 w1)) in *.
  rewrite trace_bind in H. rewrite rollback_lost_app_r in H.
  2:{ destruct (out (persist _ _ _ _ _ _)); try done.
      eapply Forall_impl; [apply emits_goodbye |]. by intros [] (? & _). }
  destruct (persist_rollback_lost _ _ _ _ H) as (e' & Ho & Hw & Hc & Hl).
  exists e'. rewrite trace_bind, out_bind, Ho, app_nil_r, Hw, Hc.
  split; [done |]. split; [done |]. split; [done |].
  destruct (trace (persist P cfg maps.1 maps.2 a.2 w2)) as [|ev t3] using rev_ind;
    [done |].
  rewrite last_snoc in Hl. injection Hl as ->.
  by rewrite !app_assoc, last_snoc.
Qed.

(** Collection returns ids only under a delay that [time.sleep]
    accepts: a refused delay ends every listing that has members. *)
Lemma collect_accepted fuel w a :
  out (collect P cfg fuel w) = Ok a →
  a.1 ≠ ∅ → sleep_error P (API_DELAY cfg) = None.
Proof.
  destruct (collect_run fuel w) as [(teams & now & w3 & ->) | (e & w1 & t & -> & _)];
    [| done].
  unfold after. cbn [out].
  apply (for_each_invariant
           (λ a, a.1 ≠ ∅ → sleep_error P (API_DELAY cfg) = None)); [| done].
  intros team s w' s' Hs Hout. by eapply (process_team_accepted P cfg).
Qed.

(** The lookups of a whole run are those of its resolver. *)
Lemma main_lookups fuel w a w1 t1 :
  collect P cfg fuel w = Run (Ok a) w1 t1 →
  count is_status_lookup (trace (main P cfg fuel w))
  = count is_status_lookup (trace (resolve P cfg a.1 w1))
  ∧ count is_identity_lookup (trace (main P cfg fuel w))
    = count is_identity_lookup (trace (resolve P cfg a.1 w1)).
Proof.
  intros Hc.
  destruct (resolve_returns P cfg a.1 w1) as [maps Hm].
  destruct (resolve P cfg a.1 w1) as [o w2 t2] eqn:Hr. cbn [out trace] in *. subst o.
  destruct (main_trace fuel w a w1 t1 maps w2 t2 Hc Hr) as (t4 & -> & Ht4 & _).
  destruct (collect_spec fuel w) as [H1 _]. rewrite Hc in H1. cbn [trace] in H1.
  destruct (persist_spec maps.1 maps.2 a.2 w2) as [H3 _].
  destruct (count_lookup_none t1) as [Hs1 Hi1];
    [eapply Forall_impl; [exact H1 |]; by intros ev [_ ?] |].
  destruct (count_lookup_none (trace (persist P cfg maps.1 maps.2 a.2 w2))) as [Hs3 Hi3];
    [eapply Forall_impl; [exact H3 |]; by intros ev [_ ?] |].
  destruct (count_lookup_none t4) as [Hs4 Hi4];
    [eapply Forall_impl; [exact Ht4 |]; by intros ev (_ & _ & ?) |].
  rewrite !count_app, Hs1, Hi1, Hs3, Hi3, Hs4, Hi4. split; simpl; lia.
Qed.

(** C7, as the code has it: with no id collected the resolver makes no
    call at all; otherwise it looks up the statuses of all collected ids
    in one call and, when that call returns, pauses for [API_DELAY] and
    looks up the users of the same ids in one call; when the status
    lookup raises, or [time.sleep] refuses the delay, no identity lookup
    follows.  The list passed holds every collected id exactly once.
    In a run the resolver gets the ids that collection returns, and
    there are such ids only under a delay that [time.sleep] accepts; so
    a run makes one status lookup when there is an id and none
    otherwise, and one identity lookup when there is an id and the
    status lookup returns and none otherwise. *)
Theorem resolve_lookups ids w :
  interactions (trace (resolve P cfg ids w)) = lookups P cfg ids w
  ∧ count is_status_lookup (trace (resolve P cfg ids w))
    = (if decide (ids = ∅) then 0 else 1)%nat
  ∧ count is_identity_lookup (trace (resolve P cfg ids w))
    = (if decide (ids = ∅) then 0
       else match (mm_get_user_statuses_by_id P (elements ids) w).1 with
            | inl _ => 0
            | inr _ => match sleep_error P (API_DELAY cfg) with Some _ => 0 | None => 1 end
            end)%nat
  ∧ NoDup (elements ids)
  ∧ (∀ u, u ∈ elements ids ↔ u ∈ ids)
  ∧ (∀ fuel w0 a w1 t1,
       collect P cfg fuel w0 = Run (Ok a) w1 t1 →
       (a.1 ≠ ∅ → sleep_error P (API_DELAY cfg) = None)
       ∧ count is_status_lookup (trace (main P cfg fuel w0))
         = (if decide (a.1 = ∅) then 0 else 1)%nat
       ∧ count is_identity_lookup (trace (main P cfg fuel w0))
         = (if decide (a.1 = ∅) then 0
            else match (mm_get_user_statuses_by_id P (elements a.1) w1).1 with
                 | inl _ => 0
                 | inr _ => 1
                 end)%nat).
Proof.
  destruct (resolve_counts P cfg ids w) as (Hi & Hs & Hd & Hn & He).
  do 5 (split; [done |]).
  intros fuel w0 a w1 t1 Hc.
  assert (Ha : a.1 ≠ ∅ → sleep_error P (API_DELAY cfg) = None).
  { apply (collect_accepted fuel w0). by rewrite Hc. }
  split; [exact Ha |].
  destruct (main_lookups fuel w0 a w1 t1 Hc) as [-> ->].
  destruct (resolve_counts P cfg a.1 w1) as (_ & -> & -> & _).
  split; [done |]. destruct (decide (a.1 = ∅)) as [Hempty | Hsome]; [done |].
  by rewrite (Ha Hsome).
Qed.

(** C1: a run reads the clock at most once, and every row that it writes
    has the instant read as its timestamp. *)
Theorem one_capture_time fuel w :
  (length (clock_reads (trace (main P cfg fuel w))) ≤ 1)%nat
  ∧ Forall (λ rw, clock_reads (trace (main P cfg fuel w)) = [timestamp rw])
      (written (trace (main P cfg fuel w))).
Proof.
  destruct (collect_spec fuel w) as [Hdb Hnow].
  destruct (collect P cfg fuel w) as [[a|e|] w1 t1] eqn:Hc; cbn [out trace] in *.
  - destruct Hnow as (now & Hreads & Hrecs).
    destruct (resolve_returns P cfg a.1 w1) as [maps Hm].
    pose proof (emits_resolve P cfg a.1 w1) as Hres.
    destruct (resolve P cfg a.1 w1) as [o w2 t2] eqn:Hr. cbn [out trace] in *. subst o.
    destruct (main_trace fuel w a w1 t1 maps w2 t2 Hc Hr) as (t4 & -> & Ht4 & _).
    destruct (persist_spec maps.1 maps.2 a.2 w2) as (Hp & Hpre & _).
    rewrite !clock_reads_app, !written_app, Hreads.
    rewrite (clock_reads_no_clock t2), (clock_reads_no_clock (trace _)),
      (clock_reads_no_clock t4), (written_no_db t1), (written_no_db t2),
      (written_no_db t4);
      try weaken_forall.
    rewrite !app_nil_r. cbn [app length]. split; [lia |].
    eapply Forall_prefix; [exact Hpre |].
    apply Forall_fmap. eapply Forall_impl; [exact Hrecs |].
    intros rd Hrd. simpl. by rewrite Hrd.
  - unfold main. rewrite trace_bind, Hc. cbn [out trace]. rewrite app_nil_r.
    split; [done |]. rewrite (written_no_db t1); [constructor |].
    eapply Forall_impl; [exact Hdb |]. (cbv beta; intros ?; tauto).
  - unfold main. rewrite trace_bind, Hc. cbn [out trace]. rewrite app_nil_r.
    split; [done |]. rewrite (written_no_db t1); [constructor |].
    eapply Forall_impl; [exact Hdb |]. (cbv beta; intros ?; tauto).
Qed.

(** C10: the rows written are the collected records, in order, each with
    a username and a status beside its six collected fields, which are
    unchanged: all records when the run ends normally, the first so many
    when a database error ends it. *)
Theorem enrichment_frame fuel w a w1 t1 :
  collect P cfg fuel w = Run (Ok a) w1 t1 →
  ∃ names statuses,
    written (trace (main P cfg fuel w)) `prefix_of` (enrich names statuses <$> a.2)
    ∧ collected <$> written (trace (main P cfg fuel w)) `prefix_of` a.2
    ∧ (out (main P cfg fuel w) = Ok tt →
         written (trace (main P cfg fuel w)) = enrich names statuses <$> a.2
         ∧ collected <$> written (trace (main P cfg fuel w)) = a.2).
Proof.
  intros Hc.
  destruct (collect_spec fuel w) as [Hdb _]. rewrite Hc in Hdb. cbn [trace] in Hdb.
  destruct (resolve_returns P cfg a.1 w1) as [maps Hm].
  pose proof (emits_resolve P cfg a.1 w1) as Hres.
  destruct (resolve P cfg a.1 w1) as [o w2 t2] eqn:Hr. cbn [out trace] in *. subst o.
  destruct (main_trace fuel w a w1 t1 maps w2 t2 Hc Hr) as (t4 & Ht & Ht4 & Hok & _).
  destruct (persist_spec maps.1 maps.2 a.2 w2) as (_ & Hpre & Hall).
  assert (Hw : written (trace (main P cfg fuel w))
               = written (trace (persist P cfg maps.1 maps.2 a.2 w2))).
  { rewrite Ht, !written_app, (written_no_db t1), (written_no_db t2), (written_no_db t4);
      try weaken_forall.
    by rewrite app_nil_r. }
  assert (Hcol : collected <$> (enrich maps.1 maps.2 <$> a.2) = a.2).
  { rewrite <- list_fmap_compose. rewrite <- (list_fmap_id a.2) at 2.
    apply list_fmap_ext. intros i rd _. apply collected_enrich. }
  exists maps.1, maps.2. rewrite Hw. split; [done |]. split.
  - destruct Hpre as [k Hk]. exists (collected <$> k).
    by rewrite <- fmap_app, <- Hk.
  - intros Hout. rewrite (Hall (Hok Hout)). done.
Qed.

(** C4: a run in which the status lookup or the identity lookup raises
    has finished collection; the resolver returns two empty mappings; the
    run goes on with the write phase; every row written has "unknown" as
    username and as status; and when the run ends normally it has written
    as many rows as there are collected records, which is what a write
    phase with any other mappings writes when it ends normally. *)
Theorem resolution_failure_degrades fuel w :
  Exists (λ ev, lookup_raised ev = true) (trace (main P cfg fuel w)) →
  ∃ a w1 t1 w2 t2,
    collect P cfg fuel w = Run (Ok a) w1 t1
    ∧ resolve P cfg a.1 w1 = Run (Ok (∅, ∅)) w2 t2
    ∧ main P cfg fuel w
      = after (t1 ++ t2)
          ((persist P cfg ∅ ∅ a.2 ;; driver_logout P ;;
            log INFO "Mattermost online user collection script finished.") w2)
    ∧ Forall (λ rw, username rw = "unknown" ∧ status rw = "unknown")
        (written (trace (main P cfg fuel w)))
    ∧ (out (main P cfg fuel w) = Ok tt →
         length (written (trace (main P cfg fuel w))) = length a.2)
    ∧ (∀ names statuses w',
         out (persist P cfg names statuses a.2 w') = Ok tt →
         length (written (trace (persist P cfg names statuses a.2 w'))) = length a.2).
Proof.
  intros H.
  destruct (collect_spec fuel w) as [Hdb _].
  pose proof H as H'. unfold main in H'.
  apply Exists_trace_bind in H' as (a & Hoc & H');
    [| apply no_lookup_raised; eapply Forall_impl; [exact Hdb |]; by intros ev (_ & ?)].
  destruct (collect P cfg fuel w) as [o1 w1 t1] eqn:Hc. cbn [out world trace] in *.
  subst o1.
  rewrite trace_bind in H'. apply Exists_app in H' as [H' | H']; cycle 1.
  { exfalso. destruct (out (resolve P cfg a.1 w1)) as [maps| |];
      try by apply Exists_nil in H'.
    revert H'. apply Forall_Exists_bool, no_lookup_raised.
    rewrite trace_bind. apply Forall_app. split.
    - destruct (persist_spec maps.1 maps.2 a.2 (world (resolve P cfg a.1 w1)))
        as (Hp & _).
      eapply Forall_impl; [exact Hp |]. by intros ev (_ & ?).
    - case_match; [| constructor | constructor].
      eapply Forall_impl; [apply emits_goodbye |]. by intros ev (_ & _ & ?). }
  pose proof (resolve_degrades P cfg a.1 w1 H') as Hor.
  destruct (resolve P cfg a.1 w1) as [o2 w2 t2] eqn:Hr. cbn [out world trace] in *.
  subst o2.
  exists a, w1, t1, w2, t2. split; [done |]. split; [done |].
  assert (Hmain : main P cfg fuel w
      = after (t1 ++ t2)
          ((persist P cfg ∅ ∅ a.2 ;; driver_logout P ;;
            log INFO "Mattermost online user collection script finished.") w2)).
  { unfold main. rewrite (bind_ok _ _ _ _ _ _ Hc), (bind_ok _ _ _ _ _ _ Hr).
    by rewrite after_after. }
  split; [exact Hmain |].
  destruct (main_trace fuel w a w1 t1 (∅, ∅) w2 t2 Hc Hr)
    as (t4 & Ht & Ht4 & Hok & _).
  destruct (persist_spec ∅ ∅ a.2 w2) as (_ & Hpre & Hall).
  assert (Hw : written (trace (main P cfg fuel w))
               = written (trace (persist P cfg ∅ ∅ a.2 w2))).
  { pose proof (emits_resolve P cfg a.1 w1) as Hres. rewrite Hr in Hres.
    cbn [trace] in Hres. cbn [trace] in Hdb.
    rewrite Ht, !written_app, (written_no_db t1), (written_no_db t2), (written_no_db t4);
      try weaken_forall.
    by rewrite app_nil_r. }
  rewrite Hw. split; [| split].
  - eapply Forall_prefix; [exact Hpre |]. apply Forall_fmap, Forall_forall.
    intros rd _. apply enrich_unknown.
  - intros Hout. by rewrite (Hall (Hok Hout)), length_fmap.
  - intros names statuses w' Hout.
    destruct (persist_spec names statuses a.2 w') as (_ & _ & Hall').
    by rewrite (Hall' Hout), length_fmap.
Qed.

(** C5 on the code.  A hypertable conversion that raises an error other
    than "already a hypertable" ends the whole run with an exception,
    with no row written and nothing done after leaving the connection:
    the error is logged, a rollback is called, and the error is raised
    again (the error of the rollback, should that raise); "already a
    hypertable" is logged and provisioning goes on.  An error of the
    compression settings, or of the compression policy other than
    "policy already exists", is logged as a warning and
    [conn.rollback()] is called, with no guard around it (main.py:121
    and main.py:139; the same call is guarded at main.py:66-69): the
    step ends normally when the rollback returns, and with the exception
    of the rollback when it raises.  "Policy already exists" is logged
    and the step ends normally.  So provisioning ends normally whatever
    the extension, compression and policy statements answer as long as
    table creation, rollbacks and the commit succeed and the hypertable
    conversion succeeds or answers "already a hypertable"; but a
    rollback that raises after a failed compression statement ends
    provisioning and the whole run with the exception of the rollback,
    with nothing committed and no row written. *)
Theorem provisioning_errors fuel w0 w :
  (Exists (λ ev, hypertable_failed ev = true) (trace (main P cfg fuel w0)) →
     ∃ e, out (main P cfg fuel w0) = Raise e
          ∧ written (trace (main P cfg fuel w0)) = []
          ∧ last (trace (main P cfg fuel w0)) = Some (ConnExit true))
  ∧ (∀ e w1 rb w2,
       pg_execute P CREATE_HYPERTABLE w = (Some e, w1) →
       already_hypertable e = false →
       pg_rollback P w1 = (rb, w2) →
       convert_hypertable P w
       = Run (Raise (PsycopgError (default e rb))) w2
           [Execute CREATE_HYPERTABLE (Some e);
            Log ERROR "Error converting table to hypertable";
            Rollback rb])
  ∧ (∀ e w1,
       pg_execute P CREATE_HYPERTABLE w = (Some e, w1) →
       already_hypertable e = true →
       ∃ msg, convert_hypertable P w
              = Run (Ok tt) w1 [Execute CREATE_HYPERTABLE (Some e); Log INFO msg])
  ∧ (∀ e w1 rb w2,
       pg_execute P SET_COMPRESSION w = (Some e, w1) →
       pg_rollback P w1 = (rb, w2) →
       set_compression P w
       = Run (match rb with None => Ok tt | Some e' => Raise (PsycopgError e') end) w2
           [Execute SET_COMPRESSION (Some e);
            Log WARNING "Could not apply compression settings";
            Rollback rb])
  ∧ (∀ e w1 rb w2,
       pg_execute P ADD_COMPRESSION_POLICY w = (Some e, w1) →
       policy_exists e = false →
       pg_rollback P w1 = (rb, w2) →
       add_compression_policy P w
       = Run (match rb with None => Ok tt | Some e' => Raise (PsycopgError e') end) w2
           [Execute ADD_COMPRESSION_POLICY (Some e);
            Log WARNING "Could not add compression policy";
            Rollback rb])
  ∧ (∀ e w1,
       pg_execute P ADD_COMPRESSION_POLICY w = (Some e, w1) →
       policy_exists e = true →
       add_compression_policy P w
       = Run (Ok tt) w1
           [Execute ADD_COMPRESSION_POLICY (Some e);
            Log INFO "Compression policy for 'channel_user_status' already exists."])
  ∧ (Forall (λ ev, tolerated ev = true) (trace (ensure_table_exists P w)) →
       out (ensure_table_exists P w) = Ok tt)
  ∧ (rollback_lost (trace (main P cfg fuel w0)) = true →
       ∃ e', out (main P cfg fuel w0) = Raise (PsycopgError e')
             ∧ written (trace (main P cfg fuel w0)) = []
             ∧ count is_commit (trace (main P cfg fuel w0)) = 0%nat
             ∧ last (trace (main P cfg fuel w0)) = Some (ConnExit true)).
Proof.
  split; [apply main_aborted |].
  split; [intros; by eapply convert_hypertable_fatal |].
  split; [intros; by eapply convert_hypertable_already |].
  split; [intros; by eapply set_compression_error |].
  split; [intros; by eapply add_compression_policy_error |].
  split; [intros; by eapply add_compression_policy_exists |].
  split; [apply ensure_table_exists_tolerant | apply main_rollback_lost].
Qed.
End Main.

(** The run in the world [two_teams]: four rows, one instant. *)
Example two_teams_snapshot :
  out (main (Scenario.platform Scenario.two_teams) Scenario.cfg 5 0) = Ok tt
  ∧ clock_reads (trace (main (Scenario.platform Scenario.two_teams) Scenario.cfg 5 0))
    = [2]
  ∧ written (trace (main (Scenario.platform Scenario.two_teams) Scenario.cfg 5 0))
    = [Row 2 "A" "alpha" "ca" "Town Square" "u1" "ann" "online";
       Row 2 "A" "alpha" "ca" "Town Square" "u2" "unknown" "online";
       Row 2 "B" "beta" "cb" "Off-Topic" "u3" "cat" "online";
       Row 2 "B" "beta" "cb" "Off-Topic" "u2" "unknown" "online"]
  ∧ commit_points 0
      (trace (main (Scenario.platform Scenario.two_teams) Scenario.cfg 5 0))
    = [0; 2; 4]%nat.
Proof. by vm_compute. Qed.

(** The rows of that run are its four collected records with a username
    and a status each. *)
Lemma enrichment_frame_witness :
  collect (Scenario.platform Scenario.two_teams) Scenario.cfg 5 0
  = Run (Ok (Scenario.collected_in Scenario.two_teams))
      (world (collect (Scenario.platform Scenario.two_teams) Scenario.cfg 5 0))
      (trace (collect (Scenario.platform Scenario.two_teams) Scenario.cfg 5 0))
  ∧ length (Scenario.collected_in Scenario.two_teams).2 = 4%nat
  ∧ ∃ names statuses,
      written (trace (main (Scenario.platform Scenario.two_teams) Scenario.cfg 5 0))
        `prefix_of` (enrich names statuses <$> (Scenario.collected_in Scenario.two_teams).2)
      ∧ collected <$> written (trace (main (Scenario.platform Scenario.two_teams)
                                        Scenario.cfg 5 0))
          `prefix_of` (Scenario.collected_in Scenario.two_teams).2
      ∧ (out (main (Scenario.platform Scenario.two_teams) Scenario.cfg 5 0) = Ok tt →
           written (trace (main (Scenario.platform Scenario.two_teams) Scenario.cfg 5 0))
           = enrich names statuses <$> (Scenario.collected_in Scenario.two_teams).2
           ∧ collected <$> written (trace (main (Scenario.platform Scenario.two_teams)
                                             Scenario.cfg 5 0))
             = (Scenario.collected_in Scenario.two_teams).2).
Proof.
  split; [reflexivity |]. split; [by vm_compute |].
  exact (enrichment_frame (Scenario.platform Scenario.two_teams) Scenario.cfg 5 0
           (Scenario.collected_in Scenario.two_teams) _ _ eq_refl).
Defined.

(** The run in the world [statuses_down]: the four rows are written, with
    "unknown" twice each. *)
Lemma resolution_failure_degrades_witness :
  Exists (λ ev, lookup_raised ev = true)
    (trace (main (Scenario.platform Scenario.statuses_down) Scenario.cfg 5 0))
  ∧ (out (main (Scenario.platform Scenario.statuses_down) Scenario.cfg 5 0) = Ok tt
     ∧ (λ rw, (user_id rw, username rw, status rw))
         <$> written (trace (main (Scenario.platform Scenario.statuses_down)
                               Scenario.cfg 5 0))
       = [("u1", "unknown", "unknown"); ("u2", "unknown", "unknown");
          ("u3", "unknown", "unknown"); ("u2", "unknown", "unknown")])
  ∧ ∃ a w1 t1 w2 t2,
      collect (Scenario.platform Scenario.statuses_down) Scenario.cfg 5 0
      = Run (Ok a) w1 t1
      ∧ resolve (Scenario.platform Scenario.statuses_down) Scenario.cfg a.1 w1
        = Run (Ok (∅, ∅)) w2 t2
      ∧ main (Scenario.platform Scenario.statuses_down) Scenario.cfg 5 0
        = after (t1 ++ t2)
            ((persist (Scenario.platform Scenario.statuses_down) Scenario.cfg ∅ ∅ a.2 ;;
              driver_logout (Scenario.platform Scenario.statuses_down) ;;
              log INFO "Mattermost online user collection script finished.") w2)
      ∧ Forall (λ rw, username rw = "unknown" ∧ status rw = "unknown")
          (written (trace (main (Scenario.platform Scenario.statuses_down)
                             Scenario.cfg 5 0)))
      ∧ (out (main (Scenario.platform Scenario.statuses_down) Scenario.cfg 5 0) = Ok tt →
           length (written (trace (main (Scenario.platform Scenario.statuses_down)
                                     Scenario.cfg 5 0))) = length a.2)
      ∧ (∀ names statuses w',
           out (persist (Scenario.platform Scenario.statuses_down) Scenario.cfg
                  names statuses a.2 w') = Ok tt →
           length (written (trace (persist (Scenario.platform Scenario.statuses_down)
                                     Scenario.cfg names statuses a.2 w')))
           = length a.2).
Proof.
  assert (H : Exists (λ ev, lookup_raised ev = true)
                (trace (main (Scenario.platform Scenario.statuses_down)
                          Scenario.cfg 5 0)))
    by (apply Exists_existsb; by vm_compute).
  split; [exact H |]. split; [by vm_compute |].
  exact (resolution_failure_degrades (Scenario.platform Scenario.statuses_down)
           Scenario.cfg 5 0 H).
Defined.

(** The run in the world [hypertable_down] is aborted; provisioning in the
    worlds [second_run] and [policy_there] ends normally.  In the world
    [connection_lost] the compression settings cannot be applied and the
    rollback raises: the step, provisioning and the run end with the
    exception of the rollback, nothing is committed and no row is
    written; in the world [connection_lost_later] the same happens at
    the compression policy.  In the world [no_extension] the rollback
    raises as well, after the extension statement and inside its guard,
    and provisioning ends normally. *)
Lemma provisioning_errors_witness :
  (Exists (λ ev, hypertable_failed ev = true)
     (trace (main (Scenario.platform Scenario.hypertable_down) Scenario.cfg 5 0))
   ∧ ∃ e, out (main (Scenario.platform Scenario.hypertable_down) Scenario.cfg 5 0)
          = Raise e
          ∧ written (trace (main (Scenario.platform Scenario.hypertable_down)
                              Scenario.cfg 5 0)) = []
          ∧ last (trace (main (Scenario.platform Scenario.hypertable_down)
                           Scenario.cfg 5 0)) = Some (ConnExit true))
  ∧ convert_hypertable (Scenario.platform Scenario.hypertable_down) 0
    = Run (Raise (PsycopgError (PgError (Some "XX000") "could not create hypertable")))
        2
        [Execute CREATE_HYPERTABLE
           (Some (PgError (Some "XX000") "could not create hypertable"));
         Log ERROR "Error converting table to hypertable";
         Rollback None]
  ∧ (∃ msg, convert_hypertable (Scenario.platform Scenario.second_run) 0
            = Run (Ok tt) 1
                [Execute CREATE_HYPERTABLE
                   (Some (PgError None
                            "Table channel_user_status is Already a Hypertable"));
                 Log INFO msg])
  ∧ set_compression (Scenario.platform Scenario.second_run) 0
    = Run (Ok tt) 2
        [Execute SET_COMPRESSION (Some (PgError (Some "0A000") "feature not supported"));
         Log WARNING "Could not apply compression settings";
         Rollback None]
  ∧ add_compression_policy (Scenario.platform Scenario.second_run) 0
    = Run (Ok tt) 2
        [Execute ADD_COMPRESSION_POLICY
           (Some (PgError (Some "XX000") "scheduler is down"));
         Log WARNING "Could not add compression policy";
         Rollback None]
  ∧ add_compression_policy (Scenario.platform Scenario.policy_there) 0
    = Run (Ok tt) 1
        [Execute ADD_COMPRESSION_POLICY
           (Some (PgError (Some "42710") "duplicate object"));
         Log INFO "Compression policy for 'channel_user_status' already exists."]
  ∧ (Forall (λ ev, tolerated ev = true)
       (trace (ensure_table_exists (Scenario.platform Scenario.second_run) 0))
     ∧ out (ensure_table_exists (Scenario.platform Scenario.second_run) 0) = Ok tt)
  ∧ set_compression (Scenario.platform Faults.connection_lost) 0
    = Run (Raise (PsycopgError (PgError None "the connection is lost"))) 2
        [Execute SET_COMPRESSION
           (Some (PgError None "server closed the connection unexpectedly"));
         Log WARNING "Could not apply compression settings";
         Rollback (Some (PgError None "the connection is lost"))]
  ∧ add_compression_policy (Scenario.platform Faults.connection_lost_later) 0
    = Run (Raise (PsycopgError (PgError None "the connection is lost"))) 2
        [Execute ADD_COMPRESSION_POLICY
           (Some (PgError None "server closed the connection unexpectedly"));
         Log WARNING "Could not add compression policy";
         Rollback (Some (PgError None "the connection is lost"))]
  ∧ out (ensure_table_exists (Scenario.platform Faults.connection_lost) 0)
    = Raise (PsycopgError (PgError None "the connection is lost"))
  ∧ out (main (Scenario.platform Faults.connection_lost) Scenario.cfg 5 0)
    = Raise (PsycopgError (PgError None "the connection is lost"))
  ∧ (rollback_lost (trace (main (Scenario.platform Faults.connection_lost)
                             Scenario.cfg 5 0)) = true
     ∧ ∃ e', out (main (Scenario.platform Faults.connection_lost) Scenario.cfg 5 0)
             = Raise (PsycopgError e')
             ∧ written (trace (main (Scenario.platform Faults.connection_lost)
                                 Scenario.cfg 5 0)) = []
             ∧ count is_commit (trace (main (Scenario.platform Faults.connection_lost)
                                         Scenario.cfg 5 0)) = 0%nat
             ∧ last (trace (main (Scenario.platform Faults.connection_lost)
                              Scenario.cfg 5 0)) = Some (ConnExit true))
  ∧ (rollback_lost (trace (main (Scenario.platform Faults.connection_lost_later)
                             Scenario.cfg 5 0)) = true
     ∧ ∃ e', out (main (Scenario.platform Faults.connection_lost_later)
                    Scenario.cfg 5 0)
             = Raise (PsycopgError e')
             ∧ written (trace (main (Scenario.platform Faults.connection_lost_later)
                                 Scenario.cfg 5 0)) = []
             ∧ count is_commit
                 (trace (main (Scenario.platform Faults.connection_lost_later)
                           Scenario.cfg 5 0)) = 0%nat
             ∧ last (trace (main (Scenario.platform Faults.connection_lost_later)
                              Scenario.cfg 5 0)) = Some (ConnExit true))
  ∧ (existsb (λ ev, match ev with Rollback (Some _) => true | _ => false end)
       (trace (ensure_table_exists (Scenario.platform Faults.no_extension) 0)) = true
     ∧ out (ensure_table_exists (Scenario.platform Faults.no_extension) 0) = Ok tt).
Proof.
  assert (H : Exists (λ ev, hypertable_failed ev = true)
                (trace (main (Scenario.platform Scenario.hypertable_down)
                          Scenario.cfg 5 0)))
    by (apply Exists_existsb; by vm_compute).
  assert (Ht : Forall (λ ev, tolerated ev = true)
                 (trace (ensure_table_exists (Scenario.platform Scenario.second_run) 0)))
    by (apply Forall_forallb; by vm_compute).
  assert (Hl : rollback_lost (trace (main (Scenario.platform Faults.connection_lost)
                                       Scenario.cfg 5 0)) = true)
    by (by vm_compute).
  assert (Hl' : rollback_lost (trace (main (Scenario.platform Faults.connection_lost_later)
                                        Scenario.cfg 5 0)) = true)
    by (by vm_compute).
  destruct (provisioning_errors (Scenario.platform Scenario.hypertable_down)
              Scenario.cfg 5 0 0) as (Habort & Hfatal & _).
  destruct (provisioning_errors (Scenario.platform Scenario.second_run)
              Scenario.cfg 5 0 0) as (_ & _ & Halready & Hset & Hpolicy & _ & Hall & _).
  destruct (provisioning_errors (Scenario.platform Scenario.policy_there)
              Scenario.cfg 5 0 0) as (_ & _ & _ & _ & _ & Hexists & _).
  destruct (provisioning_errors (Scenario.platform Faults.connection_lost)
              Scenario.cfg 5 0 0) as (_ & _ & _ & Hset' & _ & _ & _ & Hlost).
  destruct (provisioning_errors (Scenario.platform Faults.connection_lost_later)
              Scenario.cfg 5 0 0) as (_ & _ & _ & _ & Hpolicy' & _ & _ & Hlost').
  split; [split; [exact H | exact (Habort H)] |].
  split; [exact (Hfatal _ 1 None 2 eq_refl eq_refl eq_refl) |].
  split; [exact (Halready _ 1 eq_refl eq_refl) |].
  split; [exact (Hset _ 1 None 2 eq_refl eq_refl) |].
  split; [exact (Hpolicy _ 1 None 2 eq_refl eq_refl eq_refl) |].
  split; [exact (Hexists _ 1 eq_refl eq_refl) |].
  split; [split; [exact Ht | exact (Hall Ht)] |].
  split; [exact (Hset' _ 1 (Some (PgError None "the connection is lost")) 2
                   eq_refl eq_refl) |].
  split; [exact (Hpolicy' _ 1 (Some (PgError None "the connection is lost")) 2
                   eq_refl eq_refl eq_refl) |].
  split; [by vm_compute |].
  split; [by vm_compute |].
  split; [split; [exact Hl | exact (Hlost Hl)] |].
  split; [split; [exact Hl' | exact (Hlost' Hl')] |].
  split; by vm_compute.
Defined.

(** ** More on the paginator *)

Section PaginationMore.
Context {W : Type} (P : Platform W) (cfg : config).
Implicit Types (w : W).

(** One iteration of the loop. *)
Lemma fetch_pages_step fuel channel page all_members w :
  fetch_pages P cfg (S fuel) channel page all_members w
  = match mm_get_channel_members P channel page per_page w with
    | (inl e, w1) =>
        Run (Raise e) w1 [GetChannelMembers channel page per_page (inl e)]
    | (inr [], w1) =>
        Run (Ok all_members) w1 [GetChannelMembers channel page per_page (inr [])]
    | (inr (m :: b), w1) =>
        match sleep_error P (API_DELAY cfg) with
        | Some e =>
            Run (Raise e) w1
              [GetChannelMembers channel page per_page (inr (m :: b));
               Sleep (API_DELAY cfg) (Some e)]
        | None =>
            after [GetChannelMembers channel page per_page (inr (m :: b));
                   Sleep (API_DELAY cfg) None]
              (fetch_pages P cfg fuel channel (S page) (all_members ++ m :: b)
                 (time_sleep P (API_DELAY cfg) w1))
        end
    end.
Proof.
  cbn [fetch_pages]. unfold bind at 1. unfold get_channel_members, call.
  destruct (mm_get_channel_members P channel page per_page w) as [[e|[|m b]] w1];
    [done | done |].
  unfold bind, sleep. destruct (sleep_error P (API_DELAY cfg)) as [e|]; [done |].
  cbn [after out world trace].
  by destruct (fetch_pages P cfg fuel channel (S page) _ _) as [[?|?|] ? ?].
Qed.

Lemma fetch_pages_returns fuel : ∀ channel page all_members w l,
  out (fetch_pages P cfg fuel channel page all_members w) = Ok l →
  ∃ batches,
    listing P cfg channel page w batches
      (world (fetch_pages P cfg fuel channel page all_members w))
    ∧ l = all_members ++ concat batches
    ∧ (length batches < fuel)%nat.
Proof.
  induction fuel as [|fuel IH]; intros channel page all_members w l; [done |].
  rewrite fetch_pages_step.
  destruct (mm_get_channel_members P channel page per_page w) as [[e|[|m b]] w1] eqn:Hc;
    cbn [after out world trace]; [done | |].
  - intros [= <-]. exists []. split; [by apply listing_end |].
    split; [by rewrite app_nil_r | simpl; lia].
  - destruct (sleep_error P (API_DELAY cfg)) as [se|] eqn:Hs;
      cbn [after out world trace]; [done |].
    intros Hout. destruct (IH _ _ _ _ _ Hout) as (batches & Hl & -> & Hlen).
    exists ((m :: b) :: batches). split; [by eapply listing_page |].
    split; [by rewrite <- app_assoc | simpl; lia].
Qed.

(** The listing returns only after an empty page: what it returns is the
    concatenation of the non-empty pages that came before it. *)
Theorem get_all_channel_members_returns fuel channel w l :
  out (get_all_channel_members P cfg fuel channel w) = Ok l →
  ∃ batches,
    listing P cfg channel 0 w batches
      (world (get_all_channel_members P cfg fuel channel w))
    ∧ l = concat batches
    ∧ (length batches < fuel)%nat
    ∧ trace (get_all_channel_members P cfg fuel channel w)
      = paging cfg channel 0 batches.
Proof.
  intros Hout. destruct (fetch_pages_returns _ _ _ _ _ _ Hout) as (bs & Hl & -> & Hn).
  exists bs. repeat split; try done. unfold get_all_channel_members.
  by rewrite (fetch_pages_listing _ _ _ _ _ _ _ Hl fuel [] Hn).
Qed.

Lemma fetch_pages_raises fuel : ∀ channel page all_members w c p pp e,
  GetChannelMembers c p pp (inl e)
    ∈ trace (fetch_pages P cfg fuel channel page all_members w) →
  out (fetch_pages P cfg fuel channel page all_members w) = Raise e
  ∧ last (trace (fetch_pages P cfg fuel channel page all_members w))
    = Some (GetChannelMembers c p pp (inl e))
  ∧ c = channel ∧ pp = per_page ∧ (page ≤ p)%nat.
Proof.
  induction fuel as [|fuel IH]; intros channel page all_members w c p pp e.
  { simpl. by intros ?%elem_of_nil. }
  rewrite fetch_pages_step.
  destruct (mm_get_channel_members P channel page per_page w) as [[e0|[|m b]] w1] eqn:Hc;
    cbn [after out world trace app].
  - intros Hin%list_elem_of_singleton. by injection Hin as -> -> -> ->.
  - intros Hin%list_elem_of_singleton. done.
  - destruct (sleep_error P (API_DELAY cfg)) as [se|] eqn:Hs;
      cbn [after out world trace app].
    { intros Hin. apply elem_of_cons in Hin as [Hin | Hin]; [done |].
      by apply list_elem_of_singleton in Hin. }
    intros Hin. apply elem_of_cons in Hin as [Hin | Hin]; [done |].
    apply elem_of_cons in Hin as [Hin | Hin]; [done |].
    destruct (IH _ _ _ _ _ _ _ _ Hin) as (Ho & Hl & -> & -> & Hp).
    split; [done |]. split; [| split; [done | split; [done | lia]]].
    destruct (trace (fetch_pages P cfg fuel channel (S page) _ _)) as [|ev t];
      [done | exact Hl].
Qed.

(** Pagination does not retry: a call of the listing that raises is its
    last call, and its exception is that of the whole listing; the pages
    received before it are dropped. *)
Theorem listing_error_is_final fuel channel w c p pp e :
  GetChannelMembers c p pp (inl e)
    ∈ trace (get_all_channel_members P cfg fuel channel w) →
  out (get_all_channel_members P cfg fuel channel w) = Raise e
  ∧ last (trace (get_all_channel_members P cfg fuel channel w))
    = Some (GetChannelMembers c p pp (inl e))
  ∧ c = channel ∧ pp = per_page.
Proof.
  intros Hin. destruct (fetch_pages_raises _ _ _ _ _ _ _ _ _ Hin) as (? & ? & ? & ? & _).
  done.
Qed.

Lemma fetch_pages_endless channel :
  sleep_error P (API_DELAY cfg) = None →
  (∀ page w, ∃ m b w', mm_get_channel_members P channel page per_page w
                       = (inr (m :: b), w')) →
  ∀ fuel page all_members w,
    out (fetch_pages P cfg fuel channel page all_members w) = OutOfFuel
    ∧ length (fetches (trace (fetch_pages P cfg fuel channel page all_members w)))
      = fuel.
Proof.
  intros Hs Hmore. induction fuel as [|fuel IH]; intros page all_members w; [done |].
  rewrite fetch_pages_step.
  destruct (Hmore page w) as (m & b & w1 & ->). rewrite Hs.
  cbn [after out world trace app].
  destruct (IH (S page) (all_members ++ m :: b) (time_sleep P (API_DELAY cfg) w1))
    as [Ho Hn].
  split; [done |]. etrans; [| exact (f_equal S Hn)]. reflexivity.
Qed.

(** A driver that never returns an empty page keeps the listing going for
    ever, when the pause is accepted: whatever the fuel, it is spent, one
    call per unit. *)
Theorem listing_needs_an_empty_page channel fuel w :
  sleep_error P (API_DELAY cfg) = None →
  (∀ page w, ∃ m b w', mm_get_channel_members P channel page per_page w
                       = (inr (m :: b), w')) →
  out (get_all_channel_members P cfg fuel channel w) = OutOfFuel
  ∧ length (fetches (trace (get_all_channel_members P cfg fuel channel w))) = fuel.
Proof. intros Hs Hmore. by apply fetch_pages_endless. Qed.

Lemma fetch_pages_refused fuel channel page all_members w e m b w1 :
  sleep_error P (API_DELAY cfg) = Some e →
  mm_get_channel_members P channel page per_page w = (inr (m :: b), w1) →
  fetch_pages P cfg (S fuel) channel page all_members w
  = Run (Raise e) w1
      [GetChannelMembers channel page per_page (inr (m :: b));
       Sleep (API_DELAY cfg) (Some e)].
Proof. intros Hs Hc. by rewrite fetch_pages_step, Hc, Hs. Qed.

(** A delay that [time.sleep] refuses ends the listing of a channel with
    members after its first page, with the exception of the pause; a
    channel without members is listed all the same. *)
Theorem refused_delay_ends_listing fuel channel w e :
  sleep_error P (API_DELAY cfg) = Some e →
  (∀ m b w1,
     mm_get_channel_members P channel 0 per_page w = (inr (m :: b), w1) →
     get_all_channel_members P cfg (S fuel) channel w
     = Run (Raise e) w1
         [GetChannelMembers channel 0 per_page (inr (m :: b));
          Sleep (API_DELAY cfg) (Some e)])
  ∧ (∀ l, out (get_all_channel_members P cfg fuel channel w) = Ok l → l = []).
Proof.
  intros Hs. split.
  - intros m b w1 Hc. by apply fetch_pages_refused.
  - intros l Hout. destruct (fetch_pages_returns _ _ _ _ _ _ Hout) as (bs & Hl & -> & _).
    inversion Hl; [done | congruence].
Qed.
End PaginationMore.
Section PaginationOrder.
Context {W : Type} (P : Platform W) (cfg : config).
Implicit Types (w : W).

Lemma fetch_pages_calls fuel : ∀ channel page all_members w,
  fetch_page <$> fetches (trace (fetch_pages P cfg fuel channel page all_members w))
  = seq page (length (fetches (trace (fetch_pages P cfg fuel channel page all_members w))))
  ∧ Forall (λ f, fetch_channel f = channel ∧ fetch_per_page f = 200%nat)
      (fetches (trace (fetch_pages P cfg fuel channel page all_members w)))
  ∧ count is_sleep (trace (fetch_pages P cfg fuel channel page all_members w))
    = length (filter (λ f, fetch_more f = true)
                (fetches (trace (fetch_pages P cfg fuel channel page all_members w))))
  ∧ Forall (λ ev, is_sleep ev = false
                  ∨ ev = Sleep (API_DELAY cfg) (sleep_error P (API_DELAY cfg)))
      (trace (fetch_pages P cfg fuel channel page all_members w)).
Proof.
  induction fuel as [|fuel IH]; intros channel page all_members w.
  { simpl. by repeat split. }
  rewrite fetch_pages_step.
  destruct (mm_get_channel_members P channel page per_page w) as [[e|[|m b]] w1];
    cbn [after out world trace app].
  - repeat split; try done; repeat constructor; by left.
  - repeat split; try done; repeat constructor; by left.
  - destruct (sleep_error P (API_DELAY cfg)) as [se|] eqn:Hse;
      cbn [after out world trace app].
    { repeat split; try done; repeat constructor; by (left + right). }
    destruct (IH channel (S page) (all_members ++ m :: b)
                (time_sleep P (API_DELAY cfg) w1)) as (Hp & Hc & Hs & Hd).
    set (r := fetch_pages P cfg fuel channel (S page) _ _) in *.
    change (fetches (?a :: ?s :: trace r))
      with ((channel, page, per_page, inr (m :: b) : exn + list dict) :: fetches (trace r)).
    repeat split.
    + cbn [fmap list_fmap length seq]. unfold fetch_page at 1. cbn [fst snd].
      f_equal. exact Hp.
    + constructor; [done | exact Hc].
    + unfold count in *. rewrite filter_cons_False by done.
      rewrite filter_cons_True by done. rewrite filter_cons_True by done.
      cbn [length]. by rewrite Hs.
    + constructor; [by left |]. constructor; [by right | exact Hd].
Qed.

(** Whatever the driver answers, the listing asks for the pages 0, 1, 2,
    ... of its channel, in this order and with page size 200, and calls
    [time.sleep] with [API_DELAY] once for every page that had members on
    it. *)
Theorem listing_calls_in_order fuel channel w :
  fetch_page <$> fetches (trace (get_all_channel_members P cfg fuel channel w))
  = seq 0 (length (fetches (trace (get_all_channel_members P cfg fuel channel w))))
  ∧ Forall (λ f, fetch_channel f = channel ∧ fetch_per_page f = 200%nat)
      (fetches (trace (get_all_channel_members P cfg fuel channel w)))
  ∧ count is_sleep (trace (get_all_channel_members P cfg fuel channel w))
    = length (filter (λ f, fetch_more f = true)
                (fetches (trace (get_all_channel_members P cfg fuel channel w))))
  ∧ Forall (λ ev, is_sleep ev = false
                  ∨ ev = Sleep (API_DELAY cfg) (sleep_error P (API_DELAY cfg)))
      (trace (get_all_channel_members P cfg fuel channel w)).
Proof. apply fetch_pages_calls. Qed.
End PaginationOrder.

(** The 250 members again, now from the result to the pages. *)
Lemma get_all_channel_members_returns_witness :
  out (get_all_channel_members (Scenario.platform Scenario.big_channel) Scenario.cfg
         4 "hall" 0) = Ok (Scenario.crowd 250)
  ∧ ∃ batches,
      listing (Scenario.platform Scenario.big_channel) Scenario.cfg "hall" 0 0 batches
        (world (get_all_channel_members (Scenario.platform Scenario.big_channel)
                  Scenario.cfg 4 "hall" 0))
      ∧ Scenario.crowd 250 = concat batches
      ∧ (length batches < 4)%nat
      ∧ trace (get_all_channel_members (Scenario.platform Scenario.big_channel)
                 Scenario.cfg 4 "hall" 0)
        = paging Scenario.cfg "hall" 0 batches.
Proof.
  split; [reflexivity |].
  apply (get_all_channel_members_returns (Scenario.platform Scenario.big_channel)
           Scenario.cfg 4 "hall" 0 (Scenario.crowd 250)).
  reflexivity.
Defined.

(** The second page fails: the 200 members of the first page are lost
    with it. *)
Lemma listing_error_is_final_witness :
  GetChannelMembers "hall" 1 200 (inl (ApiError "502 Bad Gateway"))
    ∈ trace (get_all_channel_members Faults.flaky_listing Scenario.cfg 4 "hall" 0)
  ∧ length (fetches (trace (get_all_channel_members Faults.flaky_listing Scenario.cfg
                              4 "hall" 0))) = 2%nat
  ∧ (out (get_all_channel_members Faults.flaky_listing Scenario.cfg 4 "hall" 0)
     = Raise (ApiError "502 Bad Gateway")
     ∧ last (trace (get_all_channel_members Faults.flaky_listing Scenario.cfg 4 "hall" 0))
       = Some (GetChannelMembers "hall" 1 200 (inl (ApiError "502 Bad Gateway")))
     ∧ "hall" = "hall" ∧ 200%nat = per_page).
Proof.
  assert (Hin : GetChannelMembers "hall" 1 200 (inl (ApiError "502 Bad Gateway"))
    ∈ trace (get_all_channel_members Faults.flaky_listing Scenario.cfg 4 "hall" 0)).
  { apply elem_of_cons; right. apply elem_of_cons; right. apply elem_of_cons; by left. }
  split; [exact Hin |]. split; [reflexivity |].
  exact (listing_error_is_final Faults.flaky_listing Scenario.cfg 4 "hall" 0
           "hall" 1 200 (ApiError "502 Bad Gateway") Hin).
Defined.

(** A driver that ignores the page index: seven iterations, seven calls,
    and no end. *)
Lemma listing_needs_an_empty_page_witness :
  mm_get_channel_members Faults.stuck_listing "ca" 3 per_page 10
  = (inr [Scenario.member "u1"; Scenario.member "u2"], 11)
  ∧ out (get_all_channel_members Faults.stuck_listing Scenario.cfg 7 "ca" 0) = OutOfFuel
  ∧ length (fetches (trace (get_all_channel_members Faults.stuck_listing Scenario.cfg
                              7 "ca" 0))) = 7%nat.
Proof.
  split; [reflexivity |].
  apply (listing_needs_an_empty_page Faults.stuck_listing Scenario.cfg "ca" 7 0);
    [reflexivity |].
  intros page w. by eexists _, _, _.
Defined.

(** With [API_DELAY=-0.001] the listing of the 250 members ends after the
    first page, with the [ValueError] of [time.sleep]. *)
Lemma refused_delay_ends_listing_witness :
  sleep_error (Scenario.platform Scenario.big_channel) (API_DELAY Faults.negative_delay)
  = Some ValueError
  ∧ (∀ m b w1,
       mm_get_channel_members (Scenario.platform Scenario.big_channel) "hall" 0 per_page 0
       = (inr (m :: b), w1) →
       get_all_channel_members (Scenario.platform Scenario.big_channel)
         Faults.negative_delay 4 "hall" 0
       = Run (Raise ValueError) w1
           [GetChannelMembers "hall" 0 per_page (inr (m :: b));
            Sleep (API_DELAY Faults.negative_delay) (Some ValueError)])
  ∧ (∀ l, out (get_all_channel_members (Scenario.platform Scenario.big_channel)
                 Faults.negative_delay 3 "hall" 0) = Ok l → l = []).
Proof.
  split; [reflexivity |].
  apply (refused_delay_ends_listing (Scenario.platform Scenario.big_channel)
           Faults.negative_delay 3 "hall" 0 ValueError).
  reflexivity.
Defined.

(** ** More on provisioning (main.py:51-141) *)

Lemma statements_app (t1 t2 : list event) :
  statements (t1 ++ t2) = statements t1 ++ statements t2.
Proof. apply omap_app. Qed.

Lemma statements_none (t : list event) :
  Forall (λ ev, is_db ev = false) t → statements t = [].
Proof.
  intros H. apply omap_none_forall. eapply Forall_impl; [exact H |]. by intros [].
Qed.

Section ProvisionerMore.
Context {W : Type} (P : Platform W).
Implicit Types (w : W).

Lemma ensure_extension_run w :
  out (ensure_extension P w) = Ok tt
  ∧ statements (trace (ensure_extension P w)) = [CREATE_EXTENSION]
  ∧ count is_rollback (trace (ensure_extension P w))
    = match (pg_execute P CREATE_EXTENSION w).1 with
      | Some _ => 1%nat
      | None => 0%nat
      end.
Proof.
  unfold ensure_extension, try_except_pg, try_except, bind, execute, rollback,
    command, log, emit.
  destruct (pg_execute P CREATE_EXTENSION w) as [[e|] w1]; [| done].
  cbn [after out world trace app fst].
  by destruct (pg_rollback P w1) as [[e'|] w2].
Qed.

(** Enabling the extension is never fatal: the step returns normally
    whatever the database answers, even when the rollback that follows a
    refusal fails in its turn.  It sends one statement, and it rolls
    back exactly when that statement was refused. *)
Theorem ensure_extension_never_raises w :
  out (ensure_extension P w) = Ok tt
  ∧ statements (trace (ensure_extension P w)) = [CREATE_EXTENSION]
  ∧ count is_rollback (trace (ensure_extension P w))
    = match (pg_execute P CREATE_EXTENSION w).1 with
      | Some _ => 1%nat
      | None => 0%nat
      end.
Proof. apply ensure_extension_run. Qed.

(** What a step of provisioning sends: one statement, and no commit. *)
Let sends (q : sql) (m : M W unit) : Prop :=
  ∀ w, statements (trace (m w)) = [q]
       ∧ Forall (λ ev, is_commit ev = false) (trace (m w)).

(** What the steps from some point on do. *)
Let goes_through (qs : list sql) (m : M W unit) : Prop :=
  ∀ w, statements (trace (m w)) `prefix_of` qs
       ∧ (out (m w) = Ok tt →
            statements (trace (m w)) = qs ∧ last (trace (m w)) = Some (Commit None))
       ∧ (count is_commit (trace (m w)) ≤ 1)%nat
       ∧ (∀ ans, Commit ans ∈ trace (m w) →
            statements (trace (m w)) = qs ∧ last (trace (m w)) = Some (Commit ans)).

Lemma goes_through_commit : goes_through [] (commit P).
Proof.
  intros w. unfold commit, command. destruct (pg_commit P w) as [[e|] w1];
    cbn [out trace].
  - split; [done |]. split; [done |]. split; [unfold count; simpl; lia |].
    by intros ans [= <-]%list_elem_of_singleton.
  - split; [done |]. split; [done |]. split; [unfold count; simpl; lia |].
    by intros ans [= <-]%list_elem_of_singleton.
Qed.

Lemma goes_through_step q qs (m k : M W unit) :
  sends q m → goes_through qs k → goes_through (q :: qs) (m ;; k).
Proof.
  intros Hm Hk w. destruct (Hm w) as [Hq Hc].
  rewrite trace_bind, out_bind, statements_app, count_app, Hq, (count_none _ _ Hc).
  destruct (out (m w)) as [[]|e|].
  - destruct (Hk (world (m w))) as (Hpre & Hok & Hn & Hlast).
    split; [by apply prefix_cons |].
    split.
    { intros Ho. destruct (Hok Ho) as [-> Hl]. split; [done |].
      rewrite last_app, Hl. done. }
    split; [done |].
    intros ans [Hin | Hin]%elem_of_app.
    { rewrite Forall_forall in Hc. by specialize (Hc _ Hin). }
    destruct (Hlast ans Hin) as [-> Hl]. split; [done |]. by rewrite last_app, Hl.
  - rewrite !app_nil_r. split; [by apply prefix_cons, prefix_nil |].
    split; [done |]. split; [unfold count; simpl; lia |].
    intros ans Hin. rewrite Forall_forall in Hc. by specialize (Hc _ Hin).
  - rewrite !app_nil_r. split; [by apply prefix_cons, prefix_nil |].
    split; [done |]. split; [unfold count; simpl; lia |].
    intros ans Hin. rewrite Forall_forall in Hc. by specialize (Hc _ Hin).
Qed.

Lemma sends_ensure_extension : sends CREATE_EXTENSION (ensure_extension P).
Proof.
  intros w. split; [apply ensure_extension_run |]. by_emits.
  unfold ensure_extension, execute, rollback, log. by repeat emits_step.
Qed.

Lemma sends_create_table : sends CREATE_TABLE (create_table P).
Proof.
  intros w. split.
  - unfold create_table, bind, execute, command, log, emit.
    by destruct (pg_execute P CREATE_TABLE w) as [[e|] w1].
  - by_emits. unfold create_table, execute, log. by repeat emits_step.
Qed.

Lemma sends_convert_hypertable : sends CREATE_HYPERTABLE (convert_hypertable P).
Proof.
  intros w. split.
  - unfold convert_hypertable, try_except_pg, try_except, bind, execute, rollback,
      command, log, emit.
    destruct (pg_execute P CREATE_HYPERTABLE w) as [[e|] w1]; [| done].
    cbn [after out world trace app].
    destruct (bool_decide _); [done |]. destruct (contains _ _); [done |].
    by destruct (pg_rollback P w1) as [[e'|] w2].
  - by_emits. unfold convert_hypertable, execute, rollback, log. by repeat emits_step.
Qed.

Lemma sends_set_compression : sends SET_COMPRESSION (set_compression P).
Proof.
  intros w. split.
  - unfold set_compression, try_except_pg, try_except, bind, execute, rollback,
      command, log, emit.
    destruct (pg_execute P SET_COMPRESSION w) as [[e|] w1]; [| done].
    cbn [after out world trace app].
    by destruct (pg_rollback P w1) as [[e'|] w2].
  - by_emits. unfold set_compression, execute, rollback, log. by repeat emits_step.
Qed.

Lemma sends_add_compression_policy :
  sends ADD_COMPRESSION_POLICY (add_compression_policy P).
Proof.
  intros w. split.
  - unfold add_compression_policy, try_except_pg, try_except, bind, execute, rollback,
      command, log, emit.
    destruct (pg_execute P ADD_COMPRESSION_POLICY w) as [[e|] w1]; [| done].
    cbn [after out world trace app].
    destruct (policy_exists e); [done |].
    by destruct (pg_rollback P w1) as [[e'|] w2].
  - by_emits. unfold add_compression_policy, execute, rollback, log.
    by repeat emits_step.
Qed.

Lemma ensure_table_exists_goes_through :
  goes_through provisioning (ensure_table_exists P).
Proof.
  unfold ensure_table_exists, provisioning.
  apply goes_through_step; [apply sends_ensure_extension |].
  apply goes_through_step; [apply sends_create_table |].
  apply goes_through_step; [apply sends_convert_hypertable |].
  apply goes_through_step; [apply sends_set_compression |].
  apply goes_through_step; [apply sends_add_compression_policy |].
  apply goes_through_commit.
Qed.

Lemma ensure_table_exists_statements w :
  statements (trace (ensure_table_exists P w)) `prefix_of` provisioning
  ∧ (out (ensure_table_exists P w) = Ok tt →
       statements (trace (ensure_table_exists P w)) = provisioning
       ∧ last (trace (ensure_table_exists P w)) = Some (Commit None))
  ∧ (count is_commit (trace (ensure_table_exists P w)) ≤ 1)%nat
  ∧ (∀ ans, Commit ans ∈ trace (ensure_table_exists P w) →
       statements (trace (ensure_table_exists P w)) = provisioning
       ∧ last (trace (ensure_table_exists P w)) = Some (Commit ans)).
Proof. apply ensure_table_exists_goes_through. Qed.

(** Provisioning sends its five statements in the order of the source
    and stops at the first step that raises; it commits at most once, as
    its last action and only after all five statements; when it returns
    normally all five were sent and the commit went through. *)
Theorem provisioning_in_order w :
  statements (trace (ensure_table_exists P w)) `prefix_of` provisioning
  ∧ (out (ensure_table_exists P w) = Ok tt →
       statements (trace (ensure_table_exists P w)) = provisioning
       ∧ last (trace (ensure_table_exists P w)) = Some (Commit None))
  ∧ (count is_commit (trace (ensure_table_exists P w)) ≤ 1)%nat
  ∧ (∀ ans, Commit ans ∈ trace (ensure_table_exists P w) →
       statements (trace (ensure_table_exists P w)) = provisioning
       ∧ last (trace (ensure_table_exists P w)) = Some (Commit ans)).
Proof. apply ensure_table_exists_statements. Qed.

Lemma create_table_run w :
  create_table P w
  = match pg_execute P CREATE_TABLE w with
    | (Some e, w1) => Run (Raise (PsycopgError e)) w1 [Execute CREATE_TABLE (Some e)]
    | (None, w1) =>
        Run (Ok tt) w1
          [Execute CREATE_TABLE None;
           Log INFO "Table 'channel_user_status' schema ensured."]
    end.
Proof.
  unfold create_table, bind, execute, command.
  by destruct (pg_execute P CREATE_TABLE w) as [[e|] w1].
Qed.

(** Table creation has no handler: when the statement is refused,
    provisioning raises its error at once, with no rollback. *)
Lemma ensure_table_exists_no_table w e :
  Execute CREATE_TABLE (Some e) ∈ trace (ensure_table_exists P w) →
  out (ensure_table_exists P w) = Raise (PsycopgError e)
  ∧ trace (ensure_table_exists P w)
    = trace (ensure_extension P w) ++ [Execute CREATE_TABLE (Some e)].
Proof.
  assert (Hq : ∀ (m : M W unit) w' ans,
            emits (λ ev, statement ev ≠ Some CREATE_TABLE) m →
            Execute CREATE_TABLE ans ∈ trace (m w') → False).
  { intros m w' ans Hm Hin. specialize (Hm w'). rewrite Forall_forall in Hm.
    by apply (Hm _ Hin). }
  unfold ensure_table_exists. rewrite trace_bind, out_bind.
  destruct (ensure_extension_run w) as (-> & _ & _).
  set (w1 := world (ensure_extension P w)).
  intros [Hin | Hin]%elem_of_app.
  { exfalso. revert Hin. apply Hq.
    unfold ensure_extension, execute, rollback, log. by repeat emits_step. }
  revert Hin. rewrite trace_bind, out_bind, create_table_run.
  destruct (pg_execute P CREATE_TABLE w1) as [[e'|] w2]; cbn [out world trace app].
  - by intros [= ->]%list_elem_of_singleton.
  - intros [Hin | Hin]%elem_of_cons; [done |].
    apply elem_of_cons in Hin as [Hin | Hin]; [done |].
    exfalso. revert Hin. apply Hq.
    unfold convert_hypertable, set_compression, add_compression_policy,
      execute, commit, rollback, log.
    by repeat emits_step.
Qed.
End ProvisionerMore.

(** *** The errors that provisioning takes for success *)




(** ** More on the write phase (main.py:220-244) *)

Lemma for_each_ext {W A S} (l : list A) (body1 body2 : A → S → M W S) :
  (∀ x s w, body1 x s w = body2 x s w) →
  ∀ s w, for_each l body1 s w = for_each l body2 s w.
Proof.
  intros Hb. induction l as [|x l IH]; intros s w; simpl; [done |].
  unfold bind. rewrite Hb. destruct (body2 x s w) as [[s'|e|] w1 t1]; try done.
  by rewrite IH.
Qed.

Lemma mod_opp_zero (a b : Z) : (a mod - b =? 0) = (a mod b =? 0).
Proof.
  destruct (Z.eqb_spec (a mod b) 0) as [H | H].
  - apply Z.eqb_eq. by apply Z_mod_zero_opp_r.
  - apply Z.eqb_neq. intros H'. apply H.
    apply (Z.eq_mod_opp b a 0). by rewrite H', Zmod_0_l.
Qed.

Lemma mod_succ (b n : nat) :
  (0 < b)%nat →
  (S n mod b = if decide (S (n mod b) = b) then 0 else S (n mod b))%nat.
Proof.
  intros Hb. pose proof (Nat.div_mod_eq n b) as Hn.
  pose proof (Nat.mod_upper_bound n b ltac:(lia)) as Hlt.
  case_decide as Hs.
  - symmetry. apply (Nat.mod_unique (S n) b (S (n / b)) 0); lia.
  - symmetry. apply (Nat.mod_unique (S n) b (n / b) (S (n mod b))); lia.
Qed.

Lemma uncommitted_app n (t1 t2 : list event) :
  uncommitted n (t1 ++ t2) = uncommitted (uncommitted n t1) t2.
Proof. apply foldl_app. Qed.

Lemma peak_app (t1 t2 : list event) : ∀ n,
  peak n (t1 ++ t2) = (peak n t1 `max` peak (uncommitted n t1) t2)%nat.
Proof.
  induction t1 as [|ev t1 IH]; intros n; cbn [app peak].
  - change (uncommitted n []) with n. destruct t2; simpl; lia.
  - rewrite IH. change (uncommitted n (ev :: t1))
      with (uncommitted (uncommitted_step n ev) t1). lia.
Qed.

Lemma peak_ge (t : list event) : ∀ n, (n ≤ peak n t)%nat.
Proof. destruct t; intros n; simpl; lia. Qed.

(** Events that are no INSERT, commit or rollback leave the open
    transaction as it is. *)
Lemma uncommitted_idle (t : list event) n :
  Forall (λ ev, written_row ev = None ∧ is_commit ev = false ∧ is_rollback ev = false) t →
  uncommitted n t = n ∧ peak n t = n.
Proof.
  induction 1 as [|ev t Hev _ IH]; [done |].
  assert (Hs : uncommitted_step n ev = n).
  { destruct Hev as (? & ? & ?).
    destruct ev as [| | | | | | | | | | |q [e|]|[e|]|[e|]|]; try done; by destruct q. }
  change (uncommitted n (ev :: t)) with (uncommitted (uncommitted_step n ev) t).
  cbn [peak]. rewrite Hs. destruct IH as [-> ->]. split; [done | lia].
Qed.

(** Without INSERT the open transaction does not grow. *)
Lemma uncommitted_no_insert (t : list event) :
  Forall (λ ev, written_row ev = None) t →
  uncommitted 0 t = 0%nat ∧ peak 0 t = 0%nat.
Proof.
  induction 1 as [|ev t Hev _ IH]; [done |].
  assert (Hs : uncommitted_step 0 ev = 0%nat).
  { destruct ev as [| | | | | | | | | | |q [e|]|[e|]|[e|]|]; try done; by destruct q. }
  change (uncommitted 0 (ev :: t)) with (uncommitted (uncommitted_step 0 ev) t).
  cbn [peak]. rewrite Hs. destruct IH as [-> ->]. split; [done | lia].
Qed.

Lemma peak_no_insert (t : list event) : ∀ n,
  Forall (λ ev, written_row ev = None) t →
  peak n t = n ∧ (uncommitted n t ≤ n)%nat.
Proof.
  induction t as [|ev t IH]; intros n Ht; [done |].
  apply Forall_cons in Ht as [Hev Ht].
  assert (Hs : (uncommitted_step n ev ≤ n)%nat).
  { destruct ev as [| | | | | | | | | | |q [e|]|[e|]|[e|]|]; simpl; try lia;
      destruct q; simpl in *; done || lia. }
  change (uncommitted n (ev :: t)) with (uncommitted (uncommitted_step n ev) t).
  cbn [peak]. destruct (IH (uncommitted_step n ev) Ht) as [-> Hu]. lia.
Qed.

Section WriterMore.
Context {W : Type} (P : Platform W) (cfg : config).
Context (names statuses : dict).
Implicit Types (w : W) (rd : record).

(** The four ways in which an iteration of the loop goes, when the batch
    size is not zero. *)
Lemma write_record_run rd pc w :
  BATCH_SIZE cfg ≠ 0 →
  write_record P cfg names statuses rd pc w
  = match pg_execute P (INSERT (enrich names statuses rd)) w with
    | (Some e, w1) =>
        Run (Raise (PsycopgError e)) w1
          [Execute (INSERT (enrich names statuses rd)) (Some e)]
    | (None, w1) =>
        if (pc + 1) mod BATCH_SIZE cfg =? 0 then
          match pg_commit P w1 with
          | (Some e, w2) =>
              Run (Raise (PsycopgError e)) w2
                [Execute (INSERT (enrich names statuses rd)) None; Commit (Some e)]
          | (None, w2) =>
              Run (Ok (pc + 1)) w2
                [Execute (INSERT (enrich names statuses rd)) None; Commit None;
                 Log INFO "Committed batch"]
          end
        else Run (Ok (pc + 1)) w1 [Execute (INSERT (enrich names statuses rd)) None]
    end.
Proof.
  intros HB. unfold write_record, bind at 1, execute, command at 1.
  destruct (pg_execute P _ w) as [[e|] w1]; [done |].
  cbn [after out world trace app]. unfold bind at 1, py_mod.
  destruct (Z.eqb_spec (BATCH_SIZE cfg) 0) as [|_]; [done |].
  cbn [ret after out world trace app].
  destruct ((pc + 1) mod BATCH_SIZE cfg =? 0); [| done].
  unfold bind at 1, commit, command. destruct (pg_commit P w1) as [[e|] w2]; done.
Qed.

(** *** A batch size of zero *)

(** With [BATCH_SIZE=0] the modulo of main.py:236 raises after the first
    INSERT: the row is not committed, and no other row is sent.  With no
    record to write the modulo is never computed. *)
Theorem zero_batch_size rd rest w w1 :
  BATCH_SIZE cfg = 0 →
  pg_execute P (INSERT (enrich names statuses rd)) w = (None, w1) →
  write_records P cfg names statuses (rd :: rest) w
  = Run (Raise ZeroDivisionError) w1
      [Log INFO "Preparing to insert records.";
       Execute (INSERT (enrich names statuses rd)) None]
  ∧ write_records P cfg names statuses [] w
    = Run (Ok tt) w
        [Log INFO "Preparing to insert records.";
         Log INFO "No records were processed or inserted."].
Proof.
  intros HB Hex. split; [| done].
  unfold write_records, log. rewrite bind_emit. cbn [for_each].
  unfold bind at 1. unfold bind at 1.
  unfold write_record, bind at 1, execute, command at 1. rewrite Hex.
  cbn [after out world trace app]. unfold bind at 1, py_mod. by rewrite HB.
Qed.

(** *** The sign of the batch size *)

Lemma py_mod_opp {A} a B (f : bool → bool) (X Y : M W A) w :
  bind (py_mod a (- B)) (λ m, if f (m =? 0) then X else Y) w
  = bind (py_mod a B) (λ m, if f (m =? 0) then X else Y) w.
Proof.
  unfold bind, py_mod.
  replace (- B =? 0) with (B =? 0)
    by (destruct (Z.eqb_spec B 0), (Z.eqb_spec (- B) 0); lia || done).
  destruct (B =? 0); [done |]. cbn [ret after out world trace app].
  by rewrite mod_opp_zero.
Qed.

Lemma write_record_opp d B rd pc w :
  write_record P (Config d (- B)) names statuses rd pc w
  = write_record P (Config d B) names statuses rd pc w.
Proof.
  unfold write_record. do 2 rewrite (bind_run (execute P _)).
  destruct (out (execute P _ w)); [| done | done]. f_equal. cbn [BATCH_SIZE].
  exact (py_mod_opp (pc + 1) B id _ _ _).
Qed.

Lemma write_records_opp d B records w :
  write_records P (Config d (- B)) names statuses records w
  = write_records P (Config d B) names statuses records w.
Proof.
  unfold write_records. do 2 rewrite (bind_run (log _ _)).
  cbn [log emit out world trace]. f_equal.
  do 2 rewrite (bind_run (for_each _ _ _)).
  rewrite (for_each_ext records _ (write_record P (Config d B) names statuses))
    by (intros; apply write_record_opp).
  destruct (out (for_each records _ 0 w)) as [pc|e|]; [| done | done].
  f_equal. destruct (0 <? pc); [| done]. cbn [BATCH_SIZE].
  exact (py_mod_opp pc B negb _ _ _).
Qed.

(** A negative batch size works as its opposite: Python's [%] gives a
    remainder with the sign of the divisor, and the script only asks
    whether it is zero.  The two write phases end alike, leave the same
    world and make the same calls; their log lines differ in the numbers
    they print, which the model leaves out. *)
Theorem batch_size_sign d B records w :
  out (write_records P (Config d (- B)) names statuses records w)
  = out (write_records P (Config d B) names statuses records w)
  ∧ world (write_records P (Config d (- B)) names statuses records w)
    = world (write_records P (Config d B) names statuses records w)
  ∧ interactions (trace (write_records P (Config d (- B)) names statuses records w))
    = interactions (trace (write_records P (Config d B) names statuses records w)).
Proof. by rewrite write_records_opp. Qed.

(** *** Database errors *)

(** [stops m]: a database call of [m] that raises is its last event, and
    its error is what [m] raises. *)
Let stops {A} (m : M W A) : Prop :=
  ∀ w ev, ev ∈ trace (m w) → db_failed ev = true →
    last (trace (m w)) = Some ev
    ∧ ∃ e, db_error ev = Some e ∧ out (m w) = Raise (PsycopgError e).

Lemma stops_bind {A B} (m : M W A) (k : A → M W B) :
  stops m → (∀ a, stops (k a)) → stops (bind m k).
Proof.
  intros Hm Hk w ev. rewrite trace_bind, out_bind.
  intros [Hin | Hin]%elem_of_app Hev.
  - destruct (Hm w ev Hin Hev) as (Hl & e & He & Ho). rewrite Ho, app_nil_r.
    split; [done |]. by exists e.
  - destruct (out (m w)) as [a|e|]; [| by apply elem_of_nil in Hin ..].
    destruct (Hk a _ ev Hin Hev) as (Hl & e & He & Ho).
    rewrite last_app, Hl. split; [done |]. by exists e.
Qed.

Lemma stops_quiet {A} (m : M W A) :
  emits (λ ev, db_failed ev = false) m → stops m.
Proof.
  intros Hm w ev Hin Hev. specialize (Hm w). rewrite Forall_forall in Hm.
  specialize (Hm ev Hin). congruence.
Qed.

Lemma stops_execute q : stops (execute P q).
Proof.
  intros w ev. unfold execute, command.
  destruct (pg_execute P q w) as [[e|] w1]; cbn [out trace];
    intros ->%list_elem_of_singleton; [| done]. intros _. split; [done |]. by exists e.
Qed.

Lemma stops_commit : stops (commit P).
Proof.
  intros w ev. unfold commit, command.
  destruct (pg_commit P w) as [[e|] w1]; cbn [out trace];
    intros ->%list_elem_of_singleton; [| done]. intros _. split; [done |]. by exists e.
Qed.

Lemma stops_for_each {A S} (l : list A) (body : A → S → M W S) :
  (∀ x s, stops (body x s)) → ∀ s, stops (for_each l body s).
Proof.
  intros Hb. induction l as [|x l IH]; intros s; cbn [for_each].
  - apply stops_quiet, emits_ret.
  - apply stops_bind; [apply Hb | done].
Qed.

Lemma stops_write_records records :
  stops (write_records P cfg names statuses records).
Proof.
  unfold write_records.
  apply stops_bind; [apply stops_quiet; unfold log; by repeat emits_step | intros _].
  apply stops_bind.
  - apply stops_for_each. intros rd pc. unfold write_record.
    apply stops_bind; [apply stops_execute | intros _].
    apply stops_bind; [apply stops_quiet, emits_py_mod | intros m].
    destruct (m =? 0); [| apply stops_quiet, emits_ret].
    apply stops_bind; [apply stops_commit | intros _].
    apply stops_quiet. unfold log. by repeat emits_step.
  - intros pc. destruct (0 <? pc).
    + apply stops_bind; [apply stops_quiet, emits_py_mod | intros m].
      destruct (negb (m =? 0)); [| apply stops_quiet, emits_ret].
      apply stops_bind; [apply stops_commit | intros _].
      apply stops_quiet. unfold log. by repeat emits_step.
    + destruct (pc =? 0); apply stops_quiet; unfold log; by repeat emits_step.
Qed.

(** The write phase handles no database error: an INSERT or a commit
    that raises is its last action, and its error ends the phase.  No
    later row is sent, and nothing is rolled back. *)
Theorem write_stops_at_first_error records w ev :
  ev ∈ trace (write_records P cfg names statuses records w) →
  db_failed ev = true →
  last (trace (write_records P cfg names statuses records w)) = Some ev
  ∧ (∃ e, db_error ev = Some e
          ∧ out (write_records P cfg names statuses records w) = Raise (PsycopgError e))
  ∧ count is_rollback (trace (write_records P cfg names statuses records w)) = 0%nat.
Proof.
  intros Hin Hev. destruct (stops_write_records records w ev Hin Hev) as [Hl He].
  split; [done |]. split; [done |]. apply count_none. by_emits.
  unfold write_records, write_record, execute, commit, log. by repeat emits_step.
Qed.

(** *** The open transaction *)

Lemma write_record_peak rd (n : nat) w :
  0 < BATCH_SIZE cfg →
  (peak (n mod Z.to_nat (BATCH_SIZE cfg))
     (trace (write_record P cfg names statuses rd (Z.of_nat n) w))
   ≤ Z.to_nat (BATCH_SIZE cfg))%nat
  ∧ ∀ pc', out (write_record P cfg names statuses rd (Z.of_nat n) w) = Ok pc' →
      pc' = Z.of_nat (S n)
      ∧ uncommitted (n mod Z.to_nat (BATCH_SIZE cfg))
          (trace (write_record P cfg names statuses rd (Z.of_nat n) w))
        = (S n mod Z.to_nat (BATCH_SIZE cfg))%nat.
Proof.
  intros HB. rewrite write_record_run by lia.
  replace (Z.of_nat n + 1) with (Z.of_nat (S n)) by lia.
  rewrite (batch_test cfg (S n) HB).
  set (b := Z.to_nat (BATCH_SIZE cfg)).
  assert (Hb : (0 < b)%nat) by (unfold b; lia).
  pose proof (Nat.mod_upper_bound n b ltac:(lia)) as Hlt.
  pose proof (mod_succ b n Hb) as Hs.
  destruct (pg_execute P _ w) as [[e|] w1]; cbn [out trace].
  { split; [simpl; lia | done]. }
  case_bool_decide as Hz.
  - destruct (pg_commit P w1) as [[e|] w2]; cbn [out trace].
    + split; [simpl; lia | done].
    + split; [simpl; lia |]. intros pc' [= <-]. split; [done |]. by rewrite Hz.
  - cbn [out trace]. split; [simpl; lia |]. intros pc' [= <-]. split; [done |].
    simpl. destruct (decide (S (n mod b) = b)) as [Hd | Hd]; congruence.
Qed.

Lemma write_loop_peak records : ∀ (n : nat) w,
  0 < BATCH_SIZE cfg →
  (peak (n mod Z.to_nat (BATCH_SIZE cfg))
     (trace (for_each records (write_record P cfg names statuses) (Z.of_nat n) w))
   ≤ Z.to_nat (BATCH_SIZE cfg))%nat
  ∧ ∀ pc', out (for_each records (write_record P cfg names statuses) (Z.of_nat n) w)
           = Ok pc' →
      pc' = Z.of_nat (n + length records)
      ∧ uncommitted (n mod Z.to_nat (BATCH_SIZE cfg))
          (trace (for_each records (write_record P cfg names statuses) (Z.of_nat n) w))
        = ((n + length records) mod Z.to_nat (BATCH_SIZE cfg))%nat.
Proof.
  induction records as [|rd records IH]; intros n w HB; cbn [for_each length].
  - cbn [ret out trace peak]. rewrite Nat.add_0_r. split.
    + pose proof (Nat.mod_upper_bound n (Z.to_nat (BATCH_SIZE cfg)) ltac:(lia)). lia.
    + by intros pc' [= <-].
  - rewrite trace_bind, out_bind.
    destruct (write_record_peak rd n w HB) as [Hp Hok].
    destruct (out (write_record P cfg names statuses rd (Z.of_nat n) w)) as [pc1|e|].
    + destruct (Hok pc1 eq_refl) as [-> Hu].
      destruct (IH (S n) (world (write_record P cfg names statuses rd (Z.of_nat n) w)) HB)
        as [Hp' Hok'].
      rewrite peak_app, uncommitted_app, Hu. split; [lia |].
      intros pc' Ho. destruct (Hok' pc' Ho) as [-> Hu'].
      split; [f_equal; lia |]. rewrite Hu'. f_equal. lia.
    + rewrite app_nil_r. split; [done | done].
    + rewrite app_nil_r. split; [done | done].
Qed.

Lemma write_records_peak records w :
  0 < BATCH_SIZE cfg →
  (peak 0 (trace (write_records P cfg names statuses records w))
   ≤ Z.to_nat (BATCH_SIZE cfg))%nat
  ∧ (out (write_records P cfg names statuses records w) = Ok tt →
       uncommitted 0 (trace (write_records P cfg names statuses records w)) = 0%nat).
Proof.
  intros HB. set (b := Z.to_nat (BATCH_SIZE cfg)).
  assert (Hb : (0 < b)%nat) by (unfold b; lia).
  unfold write_records. rewrite trace_bind, out_bind. cbn [log emit out world trace].
  rewrite trace_bind, out_bind.
  destruct (write_loop_peak records 0 w HB) as [Hp Hok].
  change (Z.of_nat 0) with 0 in *. rewrite Nat.Div0.mod_0_l in *. fold b in Hp, Hok.
  cbn [app]. change (peak 0 (Log ?l ?m :: ?t)) with (0 `max` peak 0 t)%nat.
  change (uncommitted 0 (Log ?l ?m :: ?t)) with (uncommitted 0 t).
  destruct (out (for_each records _ 0 w)) as [pc|e|].
  2, 3: rewrite app_nil_r; split; [lia | done].
  destruct (Hok pc eq_refl) as [-> Hu]. cbn [Nat.add] in *.
  rewrite peak_app, uncommitted_app, Hu.
  set (w1 := world _).
  destruct (0 <? Z.of_nat (length records)) eqn:Hpos.
  - rewrite trace_bind, out_bind. unfold py_mod.
    destruct (Z.eqb_spec (BATCH_SIZE cfg) 0) as [|_]; [lia |].
    cbn [ret out world trace app]. rewrite (batch_test cfg (length records) HB).
    fold b. case_bool_decide as Hz; cbn [negb].
    + cbn [ret out trace]. rewrite Hz. cbn [peak uncommitted foldl]. split; [lia | done].
    + rewrite trace_bind, out_bind. unfold commit, command.
      pose proof (Nat.mod_upper_bound (length records) b ltac:(lia)).
      destruct (pg_commit P w1) as [[e|] w2]; cbn [log emit out world trace app].
      * split; [simpl; lia | done].
      * split; [simpl; lia | done].
  - assert (length records = 0%nat) as -> by (apply Z.ltb_ge in Hpos; lia).
    rewrite Nat.Div0.mod_0_l. cbn [Z.of_nat Z.eqb log emit out trace].
    split; [simpl; lia | done].
Qed.

(** *** The statements of the write phase *)

Lemma write_record_statements rd pc w :
  statements (trace (write_record P cfg names statuses rd pc w))
  = [INSERT (enrich names statuses rd)].
Proof.
  unfold write_record, execute, commit, log, py_mod, command, bind, emit, raise, ret.
  destruct (pg_execute P _ w) as [[e|] w1]; cbn [after out world trace app]; [done |].
  destruct (BATCH_SIZE cfg =? 0); cbn [after out world trace app]; [done |].
  destruct (_ =? 0); cbn [after out world trace app]; [| done].
  by destruct (pg_commit P w1) as [[e|] w2].
Qed.

Lemma write_loop_statements records : ∀ pc w,
  statements (trace (for_each records (write_record P cfg names statuses) pc w))
    `prefix_of` (INSERT ∘ enrich names statuses <$> records)
  ∧ ∀ pc', out (for_each records (write_record P cfg names statuses) pc w) = Ok pc' →
      statements (trace (for_each records (write_record P cfg names statuses) pc w))
      = (INSERT ∘ enrich names statuses <$> records).
Proof.
  induction records as [|rd records IH]; intros pc w; cbn [for_each fmap list_fmap].
  - split; [done | done].
  - rewrite trace_bind, out_bind, statements_app, write_record_statements.
    destruct (out (write_record P cfg names statuses rd pc w)) as [pc1|e|].
    + destruct (IH pc1 (world (write_record P cfg names statuses rd pc w))) as [Hp He].
      split; [by apply (prefix_app [_]) |].
      intros pc' Ho. by rewrite (He pc' Ho).
    + split; [| done]. by apply prefix_cons, prefix_nil.
    + split; [| done]. by apply prefix_cons, prefix_nil.
Qed.

Lemma write_records_statements records w :
  statements (trace (write_records P cfg names statuses records w))
    `prefix_of` (INSERT ∘ enrich names statuses <$> records)
  ∧ (out (write_records P cfg names statuses records w) = Ok tt →
       statements (trace (write_records P cfg names statuses records w))
       = (INSERT ∘ enrich names statuses <$> records)).
Proof.
  unfold write_records. rewrite trace_bind, out_bind. cbn [log emit out world trace].
  rewrite trace_bind, out_bind, !statements_app.
  change (statements [Log _ _]) with (@nil sql). cbn [app].
  destruct (write_loop_statements records 0 w) as [Hp He].
  destruct (out (for_each records _ 0 w)) as [pc|e|].
  2, 3: by rewrite app_nil_r.
  rewrite (He pc eq_refl).
  set (w1 := world _).
  assert (Htail : ∀ (m : M W unit),
            emits (λ ev, statement ev = None) m → statements (trace (m w1)) = []).
  { intros m Hm. apply omap_none_forall, Hm. }
  rewrite Htail, app_nil_r; [done |].
  unfold py_mod, commit, log. repeat emits_step.
Qed.
End WriterMore.

(** ** More on collection (main.py:166-200) *)

(** A loop invariant that speaks of the trace so far. *)
Lemma for_each_traced {W A S} (I : list event → S → Prop) (body : A → S → M W S)
    (l : list A) :
  (∀ x s w s' t, x ∈ l → I t s → out (body x s w) = Ok s' →
     I (t ++ trace (body x s w)) s') →
  ∀ s w s' t, I t s → out (for_each l body s w) = Ok s' →
    I (t ++ trace (for_each l body s w)) s'.
Proof.
  induction l as [|x l IH]; intros Hbody s w s' t Ht; cbn [for_each].
  - intros [= <-]. by rewrite app_nil_r.
  - rewrite trace_bind, out_bind.
    destruct (out (body x s w)) as [s1| |] eqn:Ho; [| done | done].
    intros Hout. rewrite app_assoc. apply IH; [| | done].
    + intros x' s0 w0 s0' t0 Hx'. apply Hbody. by apply list_elem_of_further.
    + apply Hbody; [by apply list_elem_of_here | done | done].
Qed.

Lemma for_each_all {W A S} (Q : A → Prop) (body : A → S → M W S) (l : list A) :
  (∀ x s w s', out (body x s w) = Ok s' → Q x) →
  ∀ s w s', out (for_each l body s w) = Ok s' → Forall Q l.
Proof.
  intros Hbody. induction l as [|x l IH]; intros s w s'; cbn [for_each]; [done |].
  rewrite out_bind. destruct (out (body x s w)) as [s1| |] eqn:Ho; [| done | done].
  intros Hout. constructor; [by eapply Hbody | by eapply IH].
Qed.

Lemma for_each_raises {W A S} (R : exn → Prop) (body : A → S → M W S) (l : list A) :
  (∀ x s w e, out (body x s w) = Raise e → R e) →
  ∀ s w e, out (for_each l body s w) = Raise e → R e.
Proof.
  intros Hbody. induction l as [|x l IH]; intros s w e; cbn [for_each]; [done |].
  rewrite out_bind. destruct (out (body x s w)) as [s1|e'|] eqn:Ho; [| | done].
  - apply IH.
  - intros [= <-]. by eapply Hbody.
Qed.

Lemma sourced_mono (t t' : list event) rd :
  (∀ ev, ev ∈ t → ev ∈ t') → sourced t rd → sourced t' rd.
Proof.
  intros Hsub ((e1 & x1 & H1 & ?) & (e2 & x2 & H2 & ?) & (e3 & x3 & H3 & ?)).
  split; [| split].
  - exists e1, x1. split; [by apply Hsub | done].
  - exists e2, x2. split; [by apply Hsub | done].
  - exists e3, x3. split; [by apply Hsub | done].
Qed.

Lemma mapM_lookup_elem (key : string) (l : list dict) (ks : list string) u :
  mapM (λ m : dict, m !! key) l = Some ks → u ∈ ks →
  ∃ m, m ∈ l ∧ m !! key = Some u.
Proof.
  intros H%mapM_Some. induction H as [|m k l ks Hm _ IH]; intros Hu.
  - by apply elem_of_nil in Hu.
  - apply elem_of_cons in Hu as [-> | Hu].
    + exists m. split; [apply list_elem_of_here | done].
    + destruct (IH Hu) as (m' & ? & ?). exists m'. split; [by apply list_elem_of_further | done].
Qed.

Section CollectorMore.
Context {W : Type} (P : Platform W) (cfg : config).
Implicit Types (w : W) (a : acc) (channel team : dict).

(** The three ways in which collection begins. *)
Lemma collect_cases fuel w :
  (∃ e w1,
     mm_login P w = (Some e, w1)
     ∧ collect P cfg fuel w
       = Run (Raise e) w1
           [Log INFO "Starting Mattermost online user collection script.";
            Login (Some e)])
  ∨ (∃ e w1 w2,
       mm_login P w = (None, w1)
       ∧ mm_get_user_teams P w1 = (inl e, w2)
       ∧ collect P cfg fuel w
         = Run (Raise e) w2
             [Log INFO "Starting Mattermost online user collection script.";
              Login None;
              Log INFO "Logged in to Mattermost";
              GetUserTeams (inl e)])
  ∨ (∃ teams now w3,
       collect P cfg fuel w
       = after (collect_prefix teams now)
           (for_each teams (process_team P cfg fuel now) (∅, []) w3)).
Proof.
  remember (collect P cfg fuel w) as c eqn:Hc. revert Hc.
  unfold collect, log, driver_login, get_user_teams, utcnow, command, call.
  rewrite bind_emit. unfold bind at 1.
  destruct (mm_login P w) as [[e|] w1]; cbn [after out world trace app].
  { intros ->. left. by eexists _, _. }
  rewrite bind_emit. unfold bind at 1.
  destruct (mm_get_user_teams P w1) as [[e|teams] w2] eqn:Ht;
    cbn [after out world trace app].
  { intros ->. right. left. by exists e, w1, w2. }
  rewrite bind_emit. unfold bind at 1.
  destruct (clock_now P w2) as [now w3]; cbn [after out world trace app].
  intros ->. right. right. by exists teams, now, w3.
Qed.

(** The body of the channel loop, by the ways in which the listing and
    the set comprehension end. *)
Lemma process_channel_run fuel now tid tname channel cid a w :
  channel !! "id" = Some cid →
  process_channel P cfg fuel now tid tname channel a w
  = match get_all_channel_members P cfg fuel cid w with
    | Run (Ok members) w1 t1 =>
        match mapM (λ m : dict, m !! "user_id") members with
        | Some ks =>
            if bool_decide (list_to_set ks = (∅ : gset string)) then
              Run (Ok a) w1
                (Log DEBUG "Processing channel" :: t1
                   ++ [Log DEBUG "No members found in channel"])
            else
              Run (Ok (a.1 ∪ list_to_set ks,
                       a.2 ++ channel_records now tid tname cid
                                (channel_display_name channel) (list_to_set ks)))
                w1 (Log DEBUG "Processing channel" :: t1)
        | None =>
            Run (Ok a) w1
              (Log DEBUG "Processing channel" :: t1
                 ++ [Log ERROR "Error processing channel"])
        end
    | Run (Raise e) w1 t1 =>
        Run (Ok a) w1
          (Log DEBUG "Processing channel" :: t1
             ++ [Log ERROR "Error processing channel"])
    | Run OutOfFuel w1 t1 =>
        Run OutOfFuel w1 (Log DEBUG "Processing channel" :: t1)
    end.
Proof.
  intros Hid. unfold process_channel, getitem. rewrite Hid, bind_ret.
  unfold log. rewrite bind_emit. unfold try_except. rewrite bind_run.
  destruct (get_all_channel_members P cfg fuel cid w) as [[members|e|] w1 t1];
    cbn [out world trace].
  - rewrite bind_run, set_comprehension_run.
    destruct (mapM _ members) as [ks|]; cbn [out world trace].
    + case_bool_decide; unfold after, bind, emit, ret; cbn [out world trace app];
        by rewrite ?app_nil_r.
    + unfold after, bind, emit, ret; cbn [out world trace app]. by rewrite ?app_nil_r.
  - unfold after, bind, emit, ret; cbn [out world trace app]. by rewrite ?app_nil_r.
  - done.
Qed.

Lemma process_channel_no_id fuel now tid tname channel a w :
  channel !! "id" = None →
  process_channel P cfg fuel now tid tname channel a w = Run (Raise (KeyError "id")) w [].
Proof. intros Hid. unfold process_channel, getitem. by rewrite Hid. Qed.

(** The body of the team loop, by the answer to the channel listing. *)
Lemma process_team_run fuel now team tid tname a w :
  team !! "id" = Some tid →
  team !! "name" = Some tname →
  process_team P cfg fuel now team a w
  = match mm_get_channels_for_user P tid w with
    | (inl e, w1) =>
        Run (Ok a) w1
          [Log INFO "Processing team"; GetChannelsForUser tid (inl e);
           Log ERROR "Error fetching channels for team"]
    | (inr channels, w1) =>
        after [Log INFO "Processing team"; GetChannelsForUser tid (inr channels);
               Log INFO "Found channels in team"]
          (for_each channels (process_channel P cfg fuel now tid tname) a w1)
    end.
Proof.
  intros Hid Hname. unfold process_team, getitem. rewrite Hid, Hname, !bind_ret.
  unfold log. rewrite bind_emit. unfold bind at 1, try_except, bind at 1.
  unfold get_channels_for_user, call.
  destruct (mm_get_channels_for_user P tid w) as [[e|channels] w1];
    unfold bind, emit, ret, after; cbn [out world trace app]; [done |].
  by destruct (for_each channels _ a w1) as [[a'|e|] w2 t2].
Qed.

Lemma process_team_malformed fuel now team a w :
  team !! "id" = None ∨ team !! "name" = None →
  process_team P cfg fuel now team a w
  = Run (Raise (KeyError (match team !! "id" with Some _ => "name" | None => "id" end)))
      w [].
Proof.
  intros H. unfold process_team, getitem.
  destruct (team !! "id") as [tid|]; [| done].
  destruct H as [H | H]; [done |]. by rewrite H.
Qed.

(** A member without [user_id] costs the whole channel: the listing went
    through, but the [KeyError] of the set comprehension is caught by
    the handler of main.py:198, which logs it and goes on to the next
    channel with the accumulators as they were. *)
Theorem member_without_id_drops_channel
    fuel now tid tname channel cid a w members w1 t1 :
  channel !! "id" = Some cid →
  get_all_channel_members P cfg fuel cid w = Run (Ok members) w1 t1 →
  Exists (λ m : dict, m !! "user_id" = None) members →
  process_channel P cfg fuel now tid tname channel a w
  = Run (Ok a) w1
      (Log DEBUG "Processing channel" :: t1 ++ [Log ERROR "Error processing channel"]).
Proof.
  intros Hid Hm Hex. rewrite (process_channel_run _ _ _ _ _ _ _ _ Hid), Hm.
  destruct (mapM _ members) as [ks|] eqn:Hks; [| done]. exfalso.
  assert (His : is_Some (mapM (λ m : dict, m !! "user_id") members)) by by exists ks.
  apply mapM_is_Some in His. apply Exists_exists in Hex as (m & Hin & Hnone).
  rewrite Forall_forall in His. specialize (His m Hin). simpl in His.
  rewrite Hnone in His. by destruct His.
Qed.

(** *** The ids and the records *)

Lemma channel_records_ids now tid tname cid cname (s : gset string) :
  r_user_id <$> channel_records now tid tname cid cname s = elements s.
Proof.
  unfold channel_records. rewrite <- list_fmap_compose.
  rewrite <- (list_fmap_id (elements s)) at 2. by apply list_fmap_ext.
Qed.

(** What every step of the two loops does to the accumulators. *)
Lemma channels_loop_invariant (I : acc → Prop) fuel now tid tname channels :
  (∀ a cid cname s, I a →
     I (a.1 ∪ s, a.2 ++ channel_records now tid tname cid cname s)) →
  ∀ a w a', I a →
    out (for_each channels (process_channel P cfg fuel now tid tname) a w) = Ok a' →
    I a'.
Proof.
  intros Hstep. apply for_each_invariant.
  intros channel a w a' Ha Hout.
  destruct (process_channel_inv P cfg _ _ _ _ _ _ _ _ Hout) as (cid & s & _ & ->).
  by apply Hstep.
Qed.

Lemma teams_loop_invariant (I : acc → Prop) fuel now teams :
  (∀ a tid tname cid cname s, I a →
     I (a.1 ∪ s, a.2 ++ channel_records now tid tname cid cname s)) →
  ∀ a w a', I a →
    out (for_each teams (process_team P cfg fuel now) a w) = Ok a' →
    I a'.
Proof.
  intros Hstep. apply for_each_invariant.
  intros team a w a' Ha.
  destruct (team !! "id") as [tid|] eqn:Hid;
    [| by rewrite process_team_malformed by by left].
  destruct (team !! "name") as [tname|] eqn:Hname;
    [| by rewrite process_team_malformed by by right].
  rewrite (process_team_run _ _ _ _ _ _ _ Hid Hname).
  destruct (mm_get_channels_for_user P tid w) as [[e|channels] w1]; cbn [out].
  - by intros [= <-].
  - unfold after. cbn [out]. apply channels_loop_invariant; [| done].
    intros. by apply Hstep.
Qed.

Lemma collect_invariant (I : acc → Prop) fuel w a :
  I (∅, []) →
  (∀ a now tid tname cid cname s, I a →
     I (a.1 ∪ s, a.2 ++ channel_records now tid tname cid cname s)) →
  out (collect P cfg fuel w) = Ok a → I a.
Proof.
  intros H0 Hstep.
  destruct (collect_run P cfg fuel w) as [(teams & now & w3 & ->) | (e & w1 & t & -> & _)];
    [| done].
  unfold after. cbn [out]. apply teams_loop_invariant; [| done].
  intros. by apply Hstep.
Qed.

(** At the end of collection the set of ids is the set of the user ids
    of the collected records: the resolver is asked about the users of
    the rows to be written, and about no one else. *)
Theorem ids_are_those_of_the_records fuel w a :
  out (collect P cfg fuel w) = Ok a →
  a.1 = list_to_set (r_user_id <$> a.2).
Proof.
  apply (collect_invariant (λ a, a.1 = list_to_set (r_user_id <$> a.2))).
  - done.
  - intros a0 now tid tname cid cname s Ha. cbn [fst snd].
    rewrite fmap_app, list_to_set_app_L, channel_records_ids, list_to_set_elements_L.
    by rewrite <- Ha.
Qed.

(** *** Where the records come from *)

Lemma fetch_pages_members fuel : ∀ cid page all_members w l m,
  out (fetch_pages P cfg fuel cid page all_members w) = Ok l →
  m ∈ l →
  m ∈ all_members
  ∨ ∃ ev, ev ∈ trace (fetch_pages P cfg fuel cid page all_members w)
          ∧ m ∈ listed cid ev.
Proof.
  induction fuel as [|fuel IH]; intros cid page all_members w l m; [done |].
  rewrite fetch_pages_step.
  destruct (mm_get_channel_members P cid page per_page w) as [[e|[|m0 b]] w1];
    cbn [after out world trace app]; [done | |].
  - intros [= <-] Hm. by left.
  - destruct (sleep_error P (API_DELAY cfg)) as [se|];
      cbn [after out world trace app]; [done |].
    intros Hout Hm. destruct (IH _ _ _ _ _ _ Hout Hm) as [Hin | (ev & Hev & Hl)].
    + apply elem_of_app in Hin as [Hin | Hin]; [by left |]. right.
      exists (GetChannelMembers cid page per_page (inr (m0 :: b))).
      split; [apply list_elem_of_here |]. simpl. by rewrite decide_True.
    + right. exists ev. split; [| done]. by do 2 apply list_elem_of_further.
Qed.

Lemma process_channel_sourced fuel now team tid tname channels channel a w a' t :
  team !! "id" = Some tid →
  team !! "name" = Some tname →
  channel ∈ channels →
  (∃ ev, ev ∈ t ∧ team ∈ teams_listed ev) →
  GetChannelsForUser tid (inr channels) ∈ t →
  Forall (sourced t) a.2 →
  out (process_channel P cfg fuel now tid tname channel a w) = Ok a' →
  Forall (sourced (t ++ trace (process_channel P cfg fuel now tid tname channel a w)))
    a'.2.
Proof.
  intros Hid Hname Hch (evt & Hevt & Hteam) Hcs Ha.
  assert (Hold : Forall (sourced (t ++ trace (process_channel P cfg fuel now tid tname
                                                channel a w))) a.2).
  { eapply Forall_impl; [exact Ha |]. intros rd. apply sourced_mono.
    intros ev Hev. apply elem_of_app. by left. }
  destruct (channel !! "id") as [cid|] eqn:Hcid;
    [| by rewrite process_channel_no_id].
  revert Hold. rewrite (process_channel_run _ _ _ _ _ _ _ _ Hcid).
  destruct (get_all_channel_members P cfg fuel cid w) as [[members|e|] w1 t1] eqn:Hm;
    [| by intros ? [= <-] | done].
  destruct (mapM _ members) as [ks|] eqn:Hks; [| by intros ? [= <-]].
  case_bool_decide as Hempty; [by intros ? [= <-] |].
  cbn [out trace]. intros Hold [= <-]. cbn [snd].
  apply Forall_app. split; [done |].
  unfold channel_records. apply Forall_fmap, Forall_forall. intros u Hu.
  apply elem_of_elements, elem_of_list_to_set in Hu.
  destruct (mapM_lookup_elem _ _ _ _ Hks Hu) as (member & Hmem & Huid).
  assert (Hfetch : out (fetch_pages P cfg fuel cid 0 [] w) = Ok members).
  { unfold get_all_channel_members in Hm. by rewrite Hm. }
  destruct (fetch_pages_members _ _ _ _ _ _ _ Hfetch Hmem) as [Hin | (ev & Hev & Hl)];
    [by apply elem_of_nil in Hin |].
  split; [| split]; cbn [r_team_id r_team_name r_channel_id r_channel_name r_user_id].
  - exists evt, team. split; [apply elem_of_app; by left | done].
  - exists (GetChannelsForUser tid (inr channels)), channel.
    split; [apply elem_of_app; by left |]. simpl. by rewrite decide_True.
  - exists ev, member. split; [| done].
    apply elem_of_app. right. apply list_elem_of_further.
    unfold get_all_channel_members in Hm. by rewrite Hm in Hev.
Qed.

Lemma process_team_sourced fuel now teams team a w a' t :
  team ∈ teams →
  GetUserTeams (inr teams) ∈ t →
  Forall (sourced t) a.2 →
  out (process_team P cfg fuel now team a w) = Ok a' →
  Forall (sourced (t ++ trace (process_team P cfg fuel now team a w))) a'.2.
Proof.
  intros Hteam Hteams Ha.
  destruct (team !! "id") as [tid|] eqn:Hid;
    [| by rewrite process_team_malformed by by left].
  destruct (team !! "name") as [tname|] eqn:Hname;
    [| by rewrite process_team_malformed by by right].
  rewrite (process_team_run _ _ _ _ _ _ _ Hid Hname).
  destruct (mm_get_channels_for_user P tid w) as [[e|channels] w1]; cbn [out trace].
  - intros [= <-]. eapply Forall_impl; [exact Ha |]. intros rd. apply sourced_mono.
    intros ev Hev. apply elem_of_app. by left.
  - unfold after. cbn [out trace]. rewrite app_assoc.
    set (t0 := t ++ [Log INFO "Processing team"; GetChannelsForUser tid (inr channels);
                     Log INFO "Found channels in team"]).
    assert (Hsub : ∀ ev, ev ∈ t → ev ∈ t0).
    { intros ev Hev. apply elem_of_app. by left. }
    intros Hout.
    apply (for_each_traced
             (λ t' (a : acc),
                (∃ ev, ev ∈ t' ∧ team ∈ teams_listed ev)
                ∧ GetChannelsForUser tid (inr channels) ∈ t'
                ∧ Forall (sourced t') a.2)
             (process_channel P cfg fuel now tid tname) channels) with (s := a) (w := w1);
      [| | done].
    + intros channel s w' s' t' Hch ((evt & Hevt & Hl) & Hcs & Hs) Ho.
      split; [| split].
      * exists evt. split; [apply elem_of_app; by left | done].
      * apply elem_of_app. by left.
      * apply (process_channel_sourced _ _ team _ _ channels); try done. by exists evt.
    + split; [| split].
      * exists (GetUserTeams (inr teams)). split; [by apply Hsub | done].
      * apply elem_of_app. right. apply list_elem_of_further, list_elem_of_here.
      * eapply Forall_impl; [exact Ha |]. intros rd. by apply sourced_mono.
Qed.

Lemma collect_sourced fuel w a :
  out (collect P cfg fuel w) = Ok a →
  Forall (sourced (trace (collect P cfg fuel w))) a.2.
Proof.
  destruct (collect_run P cfg fuel w) as [(teams & now & w3 & ->) | (e & w1 & t & -> & _)];
    [| done].
  unfold after. cbn [out trace]. intros Hout.
  apply (for_each_traced
           (λ t' (a : acc), GetUserTeams (inr teams) ∈ t' ∧ Forall (sourced t') a.2)
           (process_team P cfg fuel now) teams) with (s := (∅, [])) (w := w3);
    [| | done].
  - intros team s w' s' t' Hteam [Hteams Hs] Ho. split.
    + apply elem_of_app. by left.
    + by apply (process_team_sourced _ _ teams).
  - split; [| constructor]. unfold collect_prefix.
    do 3 apply list_elem_of_further. apply list_elem_of_here.
Qed.

(** *** Entries without their keys *)

Lemma process_channel_raises fuel now tid tname channel a w e :
  out (process_channel P cfg fuel now tid tname channel a w) = Raise e →
  e = KeyError "id".
Proof.
  destruct (channel !! "id") as [cid|] eqn:Hcid.
  - rewrite (process_channel_run _ _ _ _ _ _ _ _ Hcid).
    destruct (get_all_channel_members P cfg fuel cid w) as [[members|e'|] w1 t1];
      [| done | done].
    destruct (mapM _ members) as [ks|]; [| done]. by case_bool_decide.
  - rewrite process_channel_no_id by done. by intros [= <-].
Qed.

Lemma process_channel_ok fuel now tid tname channel a w a' :
  out (process_channel P cfg fuel now tid tname channel a w) = Ok a' →
  well_formed_channel channel.
Proof.
  unfold well_formed_channel. destruct (channel !! "id") as [cid|] eqn:Hcid; [by eexists |].
  by rewrite process_channel_no_id.
Qed.

Lemma process_team_raises fuel now team a w e :
  out (process_team P cfg fuel now team a w) = Raise e →
  e = KeyError "id" ∨ e = KeyError "name".
Proof.
  destruct (team !! "id") as [tid|] eqn:Hid; cycle 1.
  { rewrite process_team_malformed by by left. rewrite Hid. intros [= <-]. by left. }
  destruct (team !! "name") as [tname|] eqn:Hname; cycle 1.
  { rewrite process_team_malformed by by right. rewrite Hid. intros [= <-]. by right. }
  rewrite (process_team_run _ _ _ _ _ _ _ Hid Hname).
  destruct (mm_get_channels_for_user P tid w) as [[e'|channels] w1]; [done |].
  unfold after. cbn [out]. intros Hout. left. revert Hout.
  apply (for_each_raises (λ e, e = KeyError "id")).
  intros channel a0 w0 e0. apply process_channel_raises.
Qed.

Lemma process_team_ok fuel now team a w a' :
  out (process_team P cfg fuel now team a w) = Ok a' →
  well_formed_team team
  ∧ ∀ tid channels,
      GetChannelsForUser tid (inr channels) ∈ trace (process_team P cfg fuel now team a w) →
      Forall well_formed_channel channels.
Proof.
  destruct (team !! "id") as [tid|] eqn:Hid;
    [| by rewrite process_team_malformed by by left].
  destruct (team !! "name") as [tname|] eqn:Hname;
    [| by rewrite process_team_malformed by by right].
  rewrite (process_team_run _ _ _ _ _ _ _ Hid Hname).
  assert (Hwf : well_formed_team team).
  { split; [by rewrite Hid | by rewrite Hname]. }
  destruct (mm_get_channels_for_user P tid w) as [[e'|channels] w1]; cbn [out trace].
  - intros _. split; [done |]. intros tid' channels' Hin.
    do 3 (apply elem_of_cons in Hin as [Hin | Hin]; [done |]). by apply elem_of_nil in Hin.
  - unfold after. cbn [out trace app]. intros Hout. split; [done |].
    intros tid' channels' Hin.
    apply elem_of_cons in Hin as [Hin | Hin]; [done |].
    apply elem_of_cons in Hin as [Hin | Hin].
    { injection Hin as -> ->. revert Hout. apply for_each_all.
      intros channel a0 w0 a0'. apply process_channel_ok. }
    apply elem_of_cons in Hin as [Hin | Hin]; [done |]. exfalso.
    assert (Hq : emits (λ ev, fetch ev ≠ None ∨ is_log ev = true ∨ is_sleep ev = true)
              (for_each channels (process_channel P cfg fuel now tid tname) a)).
    { apply emits_for_each. intros channel a0.
      unfold process_channel, get_all_channel_members, log.
      repeat emits_step. apply emits_fetch_pages; emits_side. }
    specialize (Hq w1). rewrite Forall_forall in Hq.
    by destruct (Hq _ Hin) as [? | [? | ?]].
Qed.

Lemma collect_ok fuel w a :
  out (collect P cfg fuel w) = Ok a →
  (∀ teams, GetUserTeams (inr teams) ∈ trace (collect P cfg fuel w) →
     Forall well_formed_team teams)
  ∧ (∀ tid channels,
       GetChannelsForUser tid (inr channels) ∈ trace (collect P cfg fuel w) →
       Forall well_formed_channel channels).
Proof.
  destruct (collect_run P cfg fuel w) as [(teams & now & w3 & ->) | (e & w1 & t & -> & _)];
    [| done].
  unfold after. cbn [out trace]. intros Hout.
  pose proof (emits_process_team P cfg fuel now) as Hq.
  assert (Hloop : ∀ teams', GetUserTeams (inr teams')
                   ∈ trace (for_each teams (process_team P cfg fuel now) (∅, []) w3) → False).
  { intros teams' Hin.
    assert (He : emits (λ ev, stage ev ≠ Some 1%nat)
                   (for_each teams (process_team P cfg fuel now) (∅, []))).
    { apply emits_for_each. intros team a0.
      unfold process_team, process_channel, get_all_channel_members,
        get_channels_for_user, log.
      repeat emits_step. apply emits_fetch_pages; emits_side. }
    specialize (He w3). rewrite Forall_forall in He. by apply (He _ Hin). }
  split.
  - intros teams' [Hin | Hin]%elem_of_app; [| destruct (Hloop _ Hin)].
    unfold collect_prefix in Hin.
    do 3 (apply elem_of_cons in Hin as [Hin | Hin]; [done |]).
    apply elem_of_cons in Hin as [Hin | Hin].
    { injection Hin as ->. revert Hout. apply for_each_all.
      intros team a0 w0 a0' Ho. by destruct (process_team_ok _ _ _ _ _ _ Ho). }
    apply elem_of_cons in Hin as [Hin | Hin]; [done |].
    by apply list_elem_of_singleton in Hin.
  - intros tid channels [Hin | Hin]%elem_of_app.
    { unfold collect_prefix in Hin.
      do 5 (apply elem_of_cons in Hin as [Hin | Hin]; [done |]).
      by apply list_elem_of_singleton in Hin. }
    revert tid channels Hin.
    change (trace (for_each teams (process_team P cfg fuel now) (∅, []) w3))
      with ([] ++ trace (for_each teams (process_team P cfg fuel now) (∅, []) w3)).
    apply (for_each_traced
             (λ t' (_ : acc), ∀ tid channels,
                GetChannelsForUser tid (inr channels) ∈ t' →
                Forall well_formed_channel channels)
             (process_team P cfg fuel now) teams) with (s := (∅, [])) (s' := a);
      [| | done].
    + intros team s w0 s' t' _ Ht' Ho tid channels [Hin | Hin]%elem_of_app.
      * by eapply Ht'.
      * destruct (process_team_ok _ _ _ _ _ _ Ho) as [_ H]. by eapply H.
    + intros tid channels Hin. by apply elem_of_nil in Hin.
Qed.

Lemma collect_raises fuel w e ev :
  out (collect P cfg fuel w) = Raise e →
  ev ∈ trace (collect P cfg fuel w) →
  (∃ teams, ev = GetUserTeams (inr teams)) ∨ stage ev = Some 3%nat →
  e = KeyError "id" ∨ e = KeyError "name".
Proof.
  destruct (collect_cases fuel w)
    as [(e' & w1 & _ & ->) | [(e' & w1 & w2 & _ & _ & ->) | (teams & now & w3 & ->)]];
    cbn [out trace].
  - intros _ Hin Hev. exfalso.
    apply elem_of_cons in Hin as [-> | Hin]; [by destruct Hev as [[? ?] | ?] |].
    apply list_elem_of_singleton in Hin as ->. by destruct Hev as [[? ?] | ?].
  - intros _ Hin Hev. exfalso.
    do 3 (apply elem_of_cons in Hin as [-> | Hin]; [by destruct Hev as [[? ?] | ?] |]).
    apply list_elem_of_singleton in Hin as ->. by destruct Hev as [[? ?] | ?].
  - unfold after. cbn [out]. intros Hout _ _. revert Hout.
    apply (for_each_raises (λ e, e = KeyError "id" ∨ e = KeyError "name")).
    intros team a0 w0 e0. apply process_team_raises.
Qed.
End CollectorMore.

(** ** More on the resolver (main.py:202-218) *)

(** The dict comprehension as a whole: it raises when an entry lacks a
    key, and otherwise builds the map of its pairs in which, for a key
    that occurs more than once, the last pair counts. *)
Lemma build_dict_pairs key val (l : list dict) : ∀ acc : dict,
  match mapM (entry key val) l with
  | Some ps => build_dict key val l acc = inr (list_to_map (reverse ps) ∪ acc)
  | None => ∃ k, build_dict key val l acc = inl (KeyError k)
  end.
Proof.
  induction l as [|m l IH]; intros acc; cbn [build_dict mapM].
  - cbn. by rewrite (left_id_L ∅ (∪)).
  - assert (He : entry key val m
                 = match m !! key, m !! val with
                   | Some k, Some v => Some (k, v)
                   | _, _ => None
                   end).
    { unfold entry. destruct (m !! key); [| done]. cbn. by destruct (m !! val). }
    rewrite He. clear He.
    destruct (m !! key) as [k|]; cbn; [| by eexists].
    destruct (m !! val) as [v|]; cbn; [| by eexists].
    specialize (IH (<[k := v]> acc)).
    destruct (mapM (entry key val) l) as [ps|]; cbn; [| done].
    rewrite IH. change (rev_append ps [(k, v)]) with (reverse ((k, v) :: ps)).
    rewrite reverse_cons, list_to_map_app. cbn.
    rewrite <- (assoc_L (∪)). do 2 f_equal.
    by rewrite insert_union_singleton_l, insert_empty.
Qed.

Lemma world_bind {W A B} (m : M W A) (k : A → M W B) (w : W) :
  world (bind m k w)
  = match out (m w) with
    | Ok a => world (k a (world (m w)))
    | _ => world (m w)
    end.
Proof. rewrite bind_run. by destruct (out (m w)). Qed.

Lemma out_try_except {W A} (m : M W A) h (w : W) :
  out (try_except m h w)
  = match out (m w) with
    | Raise e => out (h e (world (m w)))
    | o => o
    end.
Proof. unfold try_except. by destruct (m w) as [[a|e|] w1 t1]. Qed.

Lemma world_try_except {W A} (m : M W A) h (w : W) :
  world (try_except m h w)
  = match out (m w) with
    | Raise e => world (h e (world (m w)))
    | _ => world (m w)
    end.
Proof. unfold try_except. by destruct (m w) as [[a|e|] w1 t1]. Qed.

Section ResolverMore.
Context {W : Type} (P : Platform W) (cfg : config).
Implicit Types (w : W) (ids : gset string).

(** The resolver when both lookups return. *)
Lemma resolve_run ids w statuses_list w1 users_list w2 :
  ids ≠ ∅ →
  sleep_error P (API_DELAY cfg) = None →
  mm_get_user_statuses_by_id P (elements ids) w = (inr statuses_list, w1) →
  mm_get_users_by_ids P (elements ids) (time_sleep P (API_DELAY cfg) w1)
  = (inr users_list, w2) →
  out (resolve P cfg ids w)
  = Ok (match build_dict "id" "username" users_list ∅ with
        | inl _ => (∅, ∅)
        | inr names =>
            (names,
             match build_dict "user_id" "status" statuses_list ∅ with
             | inl _ => ∅
             | inr statuses => statuses
             end)
        end)
  ∧ world (resolve P cfg ids w) = w2.
Proof.
  intros Hids Hse Hs Hu.
  assert (H1 : get_user_statuses_by_id P (elements ids) w
               = Run (Ok statuses_list) w1
                   [GetUserStatusesById (elements ids) (inr statuses_list)]).
  { unfold get_user_statuses_by_id, call. by rewrite Hs. }
  assert (H2 : get_users_by_ids P (elements ids) (time_sleep P (API_DELAY cfg) w1)
               = Run (Ok users_list) w2 [GetUsersByIds (elements ids) (inr users_list)]).
  { unfold get_users_by_ids, call. by rewrite Hu. }
  unfold resolve. case_bool_decide as He; [by destruct Hids |].
  repeat (progress (rewrite ?out_bind, ?world_bind, ?out_try_except, ?world_try_except,
                      ?H1, ?H2, ?Hse, ?dict_comprehension_run;
                    unfold sleep, log, emit, ret; cbn [out world])).
  destruct (build_dict "id" "username" users_list ∅) as [e|names]; [done |].
  repeat (progress (rewrite ?out_bind, ?world_bind, ?out_try_except, ?world_try_except,
                      ?dict_comprehension_run;
                    unfold sleep, log, emit, ret; cbn [out world])).
  destruct (build_dict "user_id" "status" statuses_list ∅) as [e|statuses]; [done |].
  by repeat (progress (rewrite ?out_bind, ?world_bind; cbn [out world])).
Qed.

(** When both lookups return, the resolver builds the two mappings from
    their answers, the last entry counting where an id occurs twice.  An
    identity entry without [id] or [username] leaves both mappings empty;
    a status entry without [user_id] or [status] leaves the statuses
    empty and keeps the user names, which main.py:213 had assigned
    before main.py:214 raised. *)
Theorem resolve_maps ids w statuses_list w1 users_list w2 :
  ids ≠ ∅ →
  sleep_error P (API_DELAY cfg) = None →
  mm_get_user_statuses_by_id P (elements ids) w = (inr statuses_list, w1) →
  mm_get_users_by_ids P (elements ids) (time_sleep P (API_DELAY cfg) w1)
  = (inr users_list, w2) →
  ∃ names statuses,
    out (resolve P cfg ids w) = Ok (names, statuses)
    ∧ world (resolve P cfg ids w) = w2
    ∧ match mapM (entry "id" "username") users_list with
      | Some ps =>
          names = list_to_map (reverse ps)
          ∧ match mapM (entry "user_id" "status") statuses_list with
            | Some qs => statuses = list_to_map (reverse qs)
            | None => statuses = ∅
            end
      | None => names = ∅ ∧ statuses = ∅
      end.
Proof.
  intros Hids Hse Hs Hu.
  destruct (resolve_run ids w _ _ _ _ Hids Hse Hs Hu) as [-> ->].
  pose proof (build_dict_pairs "id" "username" users_list ∅) as Hn.
  pose proof (build_dict_pairs "user_id" "status" statuses_list ∅) as Hst.
  destruct (mapM (entry "id" "username") users_list) as [ps|].
  - rewrite Hn. eexists _, _. split; [done |]. split; [done |].
    split; [by rewrite (right_id_L ∅ (∪)) |].
    destruct (mapM (entry "user_id" "status") statuses_list) as [qs|].
    + by rewrite Hst, (right_id_L ∅ (∪)).
    + by destruct Hst as [k ->].
  - destruct Hn as [k ->]. by eexists _, _.
Qed.
End ResolverMore.

(** ** More on the whole run (main.py:156-247) *)

Lemma in_order_weaken (t : list event) (n m : nat) :
  (n ≤ m)%nat → in_order m t = true → in_order n t = true.
Proof.
  revert n m. induction t as [|ev t IH]; intros n m Hnm; cbn [in_order]; [done |].
  destruct (stage ev) as [k|]; [| by apply IH].
  intros [Hk Ht]%andb_prop. apply Nat.leb_le in Hk.
  apply andb_true_intro. split; [apply Nat.leb_le; lia | done].
Qed.

(** [upto m t]: no event of [t] belongs to a station after [m]. *)
Lemma in_order_app (t1 t2 : list event) (m : nat) : ∀ n,
  (n ≤ m)%nat →
  in_order n t1 = true →
  Forall (λ ev, from_option (λ k, (k ≤ m)%nat) True (stage ev)) t1 →
  in_order m t2 = true →
  in_order n (t1 ++ t2) = true.
Proof.
  induction t1 as [|ev t1 IH]; intros n Hnm H1 Hb H2; cbn [app in_order] in *.
  - by apply (in_order_weaken t2 n m).
  - apply Forall_cons in Hb as [Hev Hb].
    destruct (stage ev) as [k|]; [| by apply IH].
    apply andb_prop in H1 as [Hk H1]. rewrite Hk. cbn [andb]. by apply IH.
Qed.

Lemma in_order_at (t : list event) (k n : nat) :
  (n ≤ k)%nat →
  Forall (λ ev, stage ev = None ∨ stage ev = Some k) t →
  in_order n t = true.
Proof.
  intros Hnk Ht. revert n Hnk. induction Ht as [|ev t [Hev | Hev] _ IH]; intros n Hnk;
    cbn [in_order]; [done | |]; rewrite Hev; [by apply IH |].
  apply andb_true_intro. split; [by apply Nat.leb_le | by apply IH].
Qed.

Lemma upto_at (t : list event) (k m : nat) :
  (k ≤ m)%nat →
  Forall (λ ev, stage ev = None ∨ stage ev = Some k) t →
  Forall (λ ev, from_option (λ k, (k ≤ m)%nat) True (stage ev)) t.
Proof.
  intros Hkm Ht. eapply Forall_impl; [exact Ht |].
  intros ev [-> | ->]; simpl; [done | lia].
Qed.

Lemma in_order_from (t : list event) : ∀ n,
  in_order n t = true →
  Forall (λ ev, from_option (λ k, (n ≤ k)%nat) True (stage ev)) t.
Proof.
  induction t as [|ev t IH]; intros n; cbn [in_order]; [constructor |].
  destruct (stage ev) as [k|] eqn:Hk.
  - intros [Hn Ht]%andb_prop. apply Nat.leb_le in Hn. constructor.
    + by rewrite Hk.
    + eapply Forall_impl; [apply (IH k Ht) |].
      intros ev'; cbv beta. destruct (stage ev'); simpl; lia.
  - intros Ht. constructor; [by rewrite Hk | by apply IH].
Qed.

Lemma uncommitted_le_peak (t : list event) : ∀ n, (uncommitted n t ≤ peak n t)%nat.
Proof.
  induction t as [|ev t IH]; intros n; [done |].
  change (uncommitted n (ev :: t)) with (uncommitted (uncommitted_step n ev) t).
  cbn [peak]. specialize (IH (uncommitted_step n ev)). lia.
Qed.

Lemma idle_before (t X : list event) n :
  Forall (λ ev, written_row ev = None ∧ is_commit ev = false ∧ is_rollback ev = false) t →
  peak n (t ++ X) = peak n X ∧ uncommitted n (t ++ X) = uncommitted n X.
Proof.
  intros Ht. destruct (uncommitted_idle t n Ht) as [Hu Hp].
  rewrite peak_app, uncommitted_app, Hu, Hp. split; [| done].
  pose proof (peak_ge X n). lia.
Qed.

Lemma idle_after (t X : list event) n :
  Forall (λ ev, written_row ev = None ∧ is_commit ev = false ∧ is_rollback ev = false) t →
  peak n (X ++ t) = peak n X ∧ uncommitted n (X ++ t) = uncommitted n X.
Proof.
  intros Ht. destruct (uncommitted_idle t (uncommitted n X) Ht) as [Hu Hp].
  rewrite peak_app, uncommitted_app, Hu, Hp. split; [| done].
  pose proof (uncommitted_le_peak X n). lia.
Qed.

Ltac upto_list := repeat (constructor; [simpl; lia |]); constructor.

Section RunMore.
Context {W : Type} (P : Platform W) (cfg : config).
Implicit Types (w : W) (a : acc).

(** A run is collection alone when collection does not return, and
    otherwise collection, resolution, and the write phase with what
    follows it. *)
Lemma main_split fuel w :
  (∃ a w1 t1 maps w2 t2,
     collect P cfg fuel w = Run (Ok a) w1 t1
     ∧ resolve P cfg a.1 w1 = Run (Ok maps) w2 t2
     ∧ main P cfg fuel w
       = after (t1 ++ t2)
           ((persist P cfg maps.1 maps.2 a.2 ;; driver_logout P ;;
             log INFO "Mattermost online user collection script finished.") w2))
  ∨ (∃ e w1 t1,
       collect P cfg fuel w = Run (Raise e) w1 t1
       ∧ main P cfg fuel w = Run (Raise e) w1 t1)
  ∨ (∃ w1 t1,
       collect P cfg fuel w = Run OutOfFuel w1 t1
       ∧ main P cfg fuel w = Run OutOfFuel w1 t1).
Proof.
  remember (main P cfg fuel w) as r eqn:Hr. revert Hr.
  unfold main. unfold bind at 1.
  destruct (collect P cfg fuel w) as [[a|e|] w1 t1] eqn:Hcol.
  - intros ->. left. destruct (resolve_returns P cfg a.1 w1) as [maps Hm].
    unfold bind at 1.
    destruct (resolve P cfg a.1 w1) as [o w2 t2] eqn:Hres. cbn [out] in Hm. subst o.
    exists a, w1, t1, maps, w2, t2. split; [done |]. split; [done |].
    by rewrite after_after.
  - intros ->. right. left. by exists e, w1, t1.
  - intros ->. right. right. by exists w1, t1.
Qed.

(** *** The stations of a run *)

Let upto (m : nat) (t : list event) : Prop :=
  Forall (λ ev, from_option (λ k, (k ≤ m)%nat) True (stage ev)) t.

Let within (lo hi : nat) (t : list event) : Prop := in_order lo t = true ∧ upto hi t.

Lemma within_app (lo mid lo2 hi : nat) (t1 t2 : list event) :
  within lo mid t1 → within lo2 hi t2 →
  (lo ≤ lo2)%nat → (mid ≤ lo2)%nat → (mid ≤ hi)%nat →
  within lo hi (t1 ++ t2).
Proof.
  intros [H1 B1] [H2 B2] Hlo Hmid Hhi. split.
  - apply (in_order_app t1 t2 lo2); try done.
    eapply Forall_impl; [exact B1 |]. intros ev; cbv beta. destruct (stage ev); simpl; lia.
  - apply Forall_app. split; [| done].
    eapply Forall_impl; [exact B1 |]. intros ev; cbv beta. destruct (stage ev); simpl; lia.
Qed.

Lemma within_at (k lo hi : nat) (t : list event) :
  Forall (λ ev, stage ev = None ∨ stage ev = Some k) t →
  (lo ≤ k)%nat → (k ≤ hi)%nat →
  within lo hi t.
Proof.
  intros Ht Hlo Hhi. split; [by apply (in_order_at t k) | by apply (upto_at t k)].
Qed.

Lemma within_nil lo hi : within lo hi [].
Proof. split; [done | constructor]. Qed.

Lemma stations_teams fuel now teams a :
  emits (λ ev, stage ev = None ∨ stage ev = Some 3%nat)
    (for_each teams (process_team P cfg fuel now) a).
Proof.
  apply emits_for_each. intros team a'.
  unfold process_team, process_channel, get_all_channel_members,
    get_channels_for_user, log.
  repeat emits_step. apply emits_fetch_pages; emits_side.
Qed.

Lemma stations_resolve ids :
  emits (λ ev, stage ev = None ∨ stage ev = Some 4%nat ∨ stage ev = Some 5%nat)
    (resolve P cfg ids).
Proof.
  unfold resolve, get_user_statuses_by_id, get_users_by_ids, log.
  repeat emits_step; apply emits_sleep; emits_side.
Qed.

Lemma stations_ensure_table_exists :
  emits (λ ev, stage ev = None ∨ stage ev = Some 7%nat) (ensure_table_exists P).
Proof.
  unfold ensure_table_exists, ensure_extension, create_table,
    convert_hypertable, set_compression, add_compression_policy,
    execute, commit, rollback, log.
  repeat emits_step.
Qed.

Lemma stations_write_records names statuses records :
  emits (λ ev, stage ev = None ∨ stage ev = Some 8%nat)
    (write_records P cfg names statuses records).
Proof.
  unfold write_records, write_record, execute, commit, log.
  repeat emits_step.
Qed.

Lemma stations_goodbye :
  emits (λ ev, stage ev = None ∨ stage ev = Some 10%nat)
    (driver_logout P ;;
     log INFO "Mattermost online user collection script finished.").
Proof. unfold driver_logout, log. repeat emits_step. Qed.

Lemma in_order_interactions (t : list event) n :
  in_order n (interactions t) = in_order n t.
Proof.
  revert n. unfold interactions. induction t as [|ev t IH]; intros n; [done |].
  destruct ev; rewrite ?filter_cons_True by done; rewrite ?filter_cons_False by done;
    cbn [in_order stage]; try destruct q; cbn [in_order stage]; by rewrite ?IH.
Qed.

Lemma within_resolve ids w : within 4 5 (trace (resolve P cfg ids w)).
Proof.
  split.
  - rewrite <- in_order_interactions, interactions_resolve. unfold lookups.
    case_decide; [done |].
    destruct (mm_get_user_statuses_by_id P (elements ids) w) as [[e|l] w1]; [done |].
    by destruct (sleep_error P (API_DELAY cfg)).
  - eapply Forall_impl; [apply stations_resolve |].
    intros ev [-> | [-> | ->]]; simpl; lia.
Qed.

Lemma within_collect fuel w a w1 t1 :
  collect P cfg fuel w = Run (Ok a) w1 t1 → within 0 3 t1.
Proof.
  destruct (collect_cases P cfg fuel w)
    as [(e & w' & _ & ->) | [(e & w' & w'' & _ & _ & ->) | (teams & now & w3 & ->)]];
    [done | done |].
  intros [= _ _ <-].
  apply (within_app 0 2 3 3 (collect_prefix teams now)
           (trace (for_each teams (process_team P cfg fuel now) (∅, []) w3))); try lia.
  - split; [done |]. unfold collect_prefix. upto_list.
  - apply (within_at 3); try lia. apply stations_teams.
Qed.

Lemma within_persist names statuses records w :
  within 6 9 (trace (persist P cfg names statuses records w)).
Proof.
  destruct (persist_split P cfg names statuses records w)
    as [(e & w1 & _ & ->) | (w1 & _ & ->)].
  { split; [done |]. upto_list. }
  unfold after. cbn [trace]. rewrite trace_finally, trace_bind.
  apply (within_app 6 6 6 9 [_]); try lia.
  { split; [done |]. upto_list. }
  apply (within_app 6 8 9 9); try lia.
  - apply (within_app 6 7 8 8); try lia.
    + apply (within_at 7); try lia. apply stations_ensure_table_exists.
    + destruct (out (ensure_table_exists P w1)); try apply within_nil.
      apply (within_at 8); try lia. apply stations_write_records.
  - destruct (out _); try apply within_nil;
      (split; [done |]); upto_list.
Qed.

Lemma main_in_order fuel w : in_order 0 (trace (main P cfg fuel w)) = true.
Proof.
  destruct (main_split fuel w)
    as [(a & w1 & t1 & maps & w2 & t2 & Hc & Hr & ->)
       | [(e & w1 & t1 & Hc & ->) | (w1 & t1 & Hc & ->)]]; cbn [trace].
  - unfold after. cbn [trace]. rewrite trace_bind.
    assert (H : within 0 10
      ((t1 ++ t2) ++ trace (persist P cfg maps.1 maps.2 a.2 w2)
         ++ match out (persist P cfg maps.1 maps.2 a.2 w2) with
            | Ok a0 =>
                trace ((driver_logout P;;
                        log INFO "Mattermost online user collection script finished.")
                         (world (persist P cfg maps.1 maps.2 a.2 w2)))
            | _ => []
            end)); [| apply H].
    apply (within_app 0 5 6 10); try lia.
    + apply (within_app 0 3 4 5); try lia; [by eapply within_collect |].
      pose proof (within_resolve a.1 w1) as H. by rewrite Hr in H.
    + apply (within_app 6 9 10 10); try lia; [apply within_persist |].
      destruct (out _); try apply within_nil.
      apply (within_at 10); try lia. apply stations_goodbye.
  - destruct (collect_cases P cfg fuel w)
      as [(e' & w' & _ & Hc') | [(e' & w' & w'' & _ & _ & Hc') | (teams & now & w3 & Hc')]];
      rewrite Hc' in Hc.
    + by injection Hc as _ _ <-.
    + by injection Hc as _ _ <-.
    + unfold after in Hc. injection Hc as _ _ <-.
      apply (in_order_app (collect_prefix teams now)
               (trace (for_each teams (process_team P cfg fuel now) (∅, []) w3)) 3);
        try lia; [done | |].
      * unfold collect_prefix. upto_list.
      * apply (in_order_at _ 3); [lia | apply stations_teams].
  - destruct (collect_cases P cfg fuel w)
      as [(e' & w' & _ & Hc') | [(e' & w' & w'' & _ & _ & Hc') | (teams & now & w3 & Hc')]];
      rewrite Hc' in Hc; [done | done |].
    unfold after in Hc. injection Hc as _ _ <-.
    apply (in_order_app (collect_prefix teams now)
             (trace (for_each teams (process_team P cfg fuel now) (∅, []) w3)) 3);
      try lia; [done | |].
    + unfold collect_prefix. upto_list.
    + apply (in_order_at _ 3); [lia | apply stations_teams].
Qed.

(** A run goes through its stations in the order of the source and never
    back: login, team listing, clock, channel and member listings,
    status lookup, identity lookup, connection, provisioning statements,
    INSERT statements, exit of the connection block, logout.  Whatever
    fails, no station is visited after a later one: no listing after the
    clock was read, no lookup after the database was opened, no INSERT
    before provisioning. *)
Theorem run_in_order fuel w : in_order 0 (trace (main P cfg fuel w)) = true.
Proof. apply main_in_order. Qed.

(** *** Where the database events of a run are *)

Lemma no_db_idle (t : list event) :
  Forall (λ ev, is_db ev = false) t →
  Forall (λ ev, written_row ev = None ∧ is_commit ev = false ∧ is_rollback ev = false) t.
Proof. intros H. eapply Forall_impl; [exact H |]. by intros []. Qed.

Lemma collect_no_db fuel w : Forall (λ ev, is_db ev = false) (trace (collect P cfg fuel w)).
Proof.
  destruct (collect_spec P cfg fuel w) as [H _].
  eapply Forall_impl; [exact H |]. by intros ev [? _].
Qed.

Lemma resolve_no_db ids w : Forall (λ ev, is_db ev = false) (trace (resolve P cfg ids w)).
Proof. eapply Forall_impl; [apply emits_resolve |]. by intros ev [? _]. Qed.

Lemma goodbye_no_db w :
  Forall (λ ev, is_db ev = false)
    (trace ((driver_logout P ;;
             log INFO "Mattermost online user collection script finished.") w)).
Proof. eapply Forall_impl; [apply emits_goodbye |]. by intros ev [? _]. Qed.

Lemma not_in_no_db (t : list event) ev :
  Forall (λ ev, is_db ev = false) t → is_db ev = true → ev ∈ t → False.
Proof. intros H Hev Hin. rewrite Forall_forall in H. specialize (H _ Hin). congruence. Qed.

Lemma main_db_event fuel w ev :
  ev ∈ trace (main P cfg fuel w) → is_db ev = true →
  ∃ a w1 t1 maps w2 t2,
    collect P cfg fuel w = Run (Ok a) w1 t1
    ∧ resolve P cfg a.1 w1 = Run (Ok maps) w2 t2
    ∧ main P cfg fuel w
      = after (t1 ++ t2)
          ((persist P cfg maps.1 maps.2 a.2 ;; driver_logout P ;;
            log INFO "Mattermost online user collection script finished.") w2)
    ∧ Forall (λ ev, is_db ev = false) (t1 ++ t2)
    ∧ ev ∈ trace (persist P cfg maps.1 maps.2 a.2 w2).
Proof.
  intros Hin Hev.
  pose proof (collect_no_db fuel w) as Hc1.
  destruct (main_split fuel w)
    as [(a & w1 & t1 & maps & w2 & t2 & Hc & Hr & Hm)
       | [(e & w1 & t1 & Hc & Hm) | (w1 & t1 & Hc & Hm)]];
    rewrite Hm in Hin; rewrite Hc in Hc1; cbn [trace] in *.
  - pose proof (resolve_no_db a.1 w1) as Hr1. rewrite Hr in Hr1. cbn [trace] in Hr1.
    assert (H12 : Forall (λ ev, is_db ev = false) (t1 ++ t2)) by by apply Forall_app.
    exists a, w1, t1, maps, w2, t2. do 4 (split; [done |]).
    unfold after in Hin. cbn [trace] in Hin.
    apply elem_of_app in Hin as [Hin | Hin]; [destruct (not_in_no_db _ _ H12 Hev Hin) |].
    rewrite trace_bind in Hin. apply elem_of_app in Hin as [Hin | Hin]; [done |].
    destruct (out (persist _ _ _ _ _ _)); try by apply elem_of_nil in Hin.
    destruct (not_in_no_db _ _ (goodbye_no_db _) Hev Hin).
  - destruct (not_in_no_db _ _ Hc1 Hev Hin).
  - destruct (not_in_no_db _ _ Hc1 Hev Hin).
Qed.

(** *** A refused table creation *)

Lemma persist_no_table names statuses records w e :
  Execute CREATE_TABLE (Some e) ∈ trace (persist P cfg names statuses records w) →
  ∃ w1 w2,
    persist P cfg names statuses records w
    = Run (Raise (PsycopgError e)) w2
        (Connect None :: trace (ensure_extension P w1)
           ++ [Execute CREATE_TABLE (Some e); ConnExit true]).
Proof.
  destruct (persist_split P cfg names statuses records w)
    as [(e' & w1 & _ & ->) | (w1 & _ & ->)]; cbn [trace].
  { by intros [=]%list_elem_of_singleton. }
  unfold after. cbn [out world trace app].
  intros [Hin | Hin]%elem_of_cons; [done |].
  assert (He : Execute CREATE_TABLE (Some e) ∈ trace (ensure_table_exists P w1)).
  { rewrite trace_finally, trace_bind in Hin.
    apply elem_of_app in Hin as [Hin | Hin].
    - apply elem_of_app in Hin as [Hin | Hin]; [done |]. exfalso.
      destruct (out (ensure_table_exists P w1)); try by apply elem_of_nil in Hin.
      pose proof (stations_write_records names statuses records
                    (world (ensure_table_exists P w1))) as Hw.
      rewrite Forall_forall in Hw. by destruct (Hw _ Hin).
    - exfalso. destruct (out _); by apply list_elem_of_singleton in Hin || apply elem_of_nil in Hin. }
  destruct (ensure_table_exists_no_table P w1 e He) as [Ho Ht].
  exists w1, (world (ensure_table_exists P w1)).
  unfold finally. rewrite bind_run, Ho, Ht. cbn [out world trace].
  by rewrite <- app_assoc.
Qed.

Lemma main_no_table fuel w e :
  Execute CREATE_TABLE (Some e) ∈ trace (main P cfg fuel w) →
  out (main P cfg fuel w) = Raise (PsycopgError e)
  ∧ (∃ t, trace (main P cfg fuel w)
          = t ++ [Execute CREATE_TABLE (Some e); ConnExit true]
          ∧ statements t = [CREATE_EXTENSION])
  ∧ written (trace (main P cfg fuel w)) = []
  ∧ count is_commit (trace (main P cfg fuel w)) = 0%nat.
Proof.
  intros Hin.
  destruct (main_db_event fuel w _ Hin eq_refl)
    as (a & w1 & t1 & maps & w2 & t2 & _ & _ & -> & H12 & Hp).
  destruct (persist_no_table _ _ _ _ _ Hp) as (w3 & w4 & Hrun).
  unfold after. rewrite bind_run, Hrun. cbn [out world trace].
  destruct (ensure_extension_run P w3) as (_ & Hst & _).
  assert (Hext : Forall (λ ev, written_row ev = None ∧ is_commit ev = false)
                   (trace (ensure_extension P w3))).
  { by_emits. unfold ensure_extension, execute, rollback, log. by repeat emits_step. }
  split; [done |]. split; [| split].
  - exists ((t1 ++ t2) ++ Connect None :: trace (ensure_extension P w3)).
    split; [by rewrite <- !app_assoc |].
    rewrite statements_app, (statements_none _ H12).
    change (statements (Connect None :: ?t)) with (statements t). by rewrite Hst.
  - rewrite written_app, (written_no_db _ H12).
    change (written (Connect None :: ?t)) with (written t).
    rewrite written_app, written_none; [done |].
    eapply Forall_impl; [exact Hext |]. by intros ev [? _].
  - rewrite count_app, (count_none is_commit (t1 ++ t2));
      [| eapply Forall_impl; [exact H12 |]; by intros []].
    change (count is_commit (Connect None :: ?t)) with (count is_commit t).
    rewrite count_app, count_none; [done |].
    eapply Forall_impl; [exact Hext |]. by intros ev [_ ?].
Qed.

(** Table creation is fatal, and differently from the hypertable
    conversion: a refused CREATE TABLE ends the run with its error at
    once, without a log line and without a rollback.  Before it the
    database saw only the extension statement; no row is written and
    nothing is committed. *)
Theorem table_creation_is_fatal fuel w e :
  Execute CREATE_TABLE (Some e) ∈ trace (main P cfg fuel w) →
  out (main P cfg fuel w) = Raise (PsycopgError e)
  ∧ (∃ t, trace (main P cfg fuel w)
          = t ++ [Execute CREATE_TABLE (Some e); ConnExit true]
          ∧ statements t = [CREATE_EXTENSION])
  ∧ written (trace (main P cfg fuel w)) = []
  ∧ count is_commit (trace (main P cfg fuel w)) = 0%nat.
Proof. apply main_no_table. Qed.

(** *** The open transaction *)

Lemma persist_peak names statuses records w :
  0 < BATCH_SIZE cfg →
  (peak 0 (trace (persist P cfg names statuses records w))
   ≤ Z.to_nat (BATCH_SIZE cfg))%nat
  ∧ (out (persist P cfg names statuses records w) = Ok tt →
       uncommitted 0 (trace (persist P cfg names statuses records w)) = 0%nat).
Proof.
  intros HB.
  destruct (persist_split P cfg names statuses records w)
    as [(e & w1 & _ & ->) | (w1 & _ & ->)]; cbn [out trace].
  { split; [simpl; lia | done]. }
  unfold after. cbn [out trace].
  destruct (idle_before [Connect None]
              (trace (finally (ensure_table_exists P ;;
                               write_records P cfg names statuses records) ConnExit w1)) 0)
    as [-> ->]; [by repeat constructor |].
  rewrite trace_finally, out_finally.
  set (block := (ensure_table_exists P ;; write_records P cfg names statuses records)).
  destruct (idle_after (match out (block w1) with
                        | Ok _ => [ConnExit false]
                        | Raise _ => [ConnExit true]
                        | OutOfFuel => []
                        end) (trace (block w1)) 0) as [-> ->].
  { destruct (out (block w1)); by repeat constructor. }
  unfold block. rewrite trace_bind, out_bind, peak_app, uncommitted_app.
  destruct (peak_no_insert (trace (ensure_table_exists P w1)) 0) as [-> Hu].
  { eapply Forall_impl; [apply emits_ensure_table_exists |]. by intros ev (_ & ? & _). }
  assert (uncommitted 0 (trace (ensure_table_exists P w1)) = 0%nat) as -> by lia.
  destruct (out (ensure_table_exists P w1)) as [[]|e|].
  - destruct (write_records_peak P cfg names statuses records
                (world (ensure_table_exists P w1)) HB) as [Hp Hz].
    split; [lia | done].
  - split; [simpl; lia | done].
  - split; [simpl; lia | done].
Qed.

Lemma main_peak fuel w :
  0 < BATCH_SIZE cfg →
  (peak 0 (trace (main P cfg fuel w)) ≤ Z.to_nat (BATCH_SIZE cfg))%nat
  ∧ (out (main P cfg fuel w) = Ok tt → uncommitted 0 (trace (main P cfg fuel w)) = 0%nat).
Proof.
  intros HB. pose proof (collect_no_db fuel w) as Hc1.
  destruct (main_split fuel w)
    as [(a & w1 & t1 & maps & w2 & t2 & Hc & Hr & ->)
       | [(e & w1 & t1 & Hc & ->) | (w1 & t1 & Hc & ->)]];
    rewrite Hc in Hc1; cbn [out trace] in *.
  - pose proof (resolve_no_db a.1 w1) as Hr1. rewrite Hr in Hr1. cbn [trace] in Hr1.
    unfold after. cbn [out trace].
    destruct (idle_before (t1 ++ t2)
                (trace ((persist P cfg maps.1 maps.2 a.2 ;; driver_logout P ;;
                         log INFO "Mattermost online user collection script finished.")
                          w2)) 0) as [-> ->].
    { apply no_db_idle. by apply Forall_app. }
    rewrite trace_bind, out_bind.
    destruct (persist_peak maps.1 maps.2 a.2 w2 HB) as [Hp Hz].
    destruct (idle_after
                (match out (persist P cfg maps.1 maps.2 a.2 w2) with
                 | Ok a0 =>
                     trace ((driver_logout P ;;
                             log INFO "Mattermost online user collection script finished.")
                              (world (persist P cfg maps.1 maps.2 a.2 w2)))
                 | _ => []
                 end)
                (trace (persist P cfg maps.1 maps.2 a.2 w2)) 0) as [-> ->].
    { destruct (out (persist P cfg maps.1 maps.2 a.2 w2)); try constructor.
      apply no_db_idle, goodbye_no_db. }
    split; [done |].
    destruct (out (persist P cfg maps.1 maps.2 a.2 w2)) as [[]|e|]; [auto | done | done].
  - destruct (uncommitted_idle t1 0 (no_db_idle _ Hc1)) as [_ ->]. split; [lia | done].
  - destruct (uncommitted_idle t1 0 (no_db_idle _ Hc1)) as [_ ->]. split; [lia | done].
Qed.

(** With a positive batch size, at no moment of a run are more than
    [BATCH_SIZE] inserted rows waiting for their commit, whatever fails;
    and a run that ends normally leaves none behind. *)
Theorem open_transaction_bounded fuel w :
  0 < BATCH_SIZE cfg →
  (peak 0 (trace (main P cfg fuel w)) ≤ Z.to_nat (BATCH_SIZE cfg))%nat
  ∧ (out (main P cfg fuel w) = Ok tt → uncommitted 0 (trace (main P cfg fuel w)) = 0%nat).
Proof. apply main_peak. Qed.

(** *** What the database is sent *)

Lemma persist_sends names statuses records w :
  statements (trace (persist P cfg names statuses records w))
    `prefix_of` provisioning ++ (INSERT ∘ enrich names statuses <$> records)
  ∧ (out (persist P cfg names statuses records w) = Ok tt →
       statements (trace (persist P cfg names statuses records w))
       = provisioning ++ (INSERT ∘ enrich names statuses <$> records))
  ∧ (∀ r ans, Execute (INSERT r) ans ∈ trace (persist P cfg names statuses records w) →
       provisioning `prefix_of` statements (trace (persist P cfg names statuses records w))).
Proof.
  destruct (persist_split P cfg names statuses records w)
    as [(e & w1 & _ & ->) | (w1 & _ & ->)]; cbn [out trace].
  { split; [apply prefix_nil |]. split; [done |].
    by intros r ans [=]%list_elem_of_singleton. }
  unfold after. cbn [out trace app].
  change (statements (Connect None :: ?t)) with (statements t).
  rewrite trace_finally, out_finally, statements_app.
  set (block := (ensure_table_exists P ;; write_records P cfg names statuses records)).
  assert (statements (match out (block w1) with
                      | Ok _ => [ConnExit false]
                      | Raise _ => [ConnExit true]
                      | OutOfFuel => []
                      end) = []) as -> by by destruct (out (block w1)).
  rewrite app_nil_r. unfold block. rewrite trace_bind, out_bind, statements_app.
  destruct (ensure_table_exists_statements P w1) as (Hpre & Hok & _).
  pose proof (stations_ensure_table_exists w1) as Hst. rewrite Forall_forall in Hst.
  destruct (out (ensure_table_exists P w1)) as [[]|e|].
  - destruct (Hok eq_refl) as [-> _].
    destruct (write_records_statements P cfg names statuses records
                (world (ensure_table_exists P w1))) as [Hp He].
    split; [by apply prefix_app |]. split; [by intros ->%He |].
    intros _ _ _. by apply prefix_app_r.
  - rewrite app_nil_r. split; [by apply prefix_app_r |]. split; [done |].
    intros r ans [Hin | Hin]%elem_of_cons; [done |]. exfalso.
    apply elem_of_app in Hin as [Hin | Hin].
    + apply elem_of_app in Hin as [Hin | Hin]; [| by apply elem_of_nil in Hin].
      by destruct (Hst _ Hin).
    + by apply list_elem_of_singleton in Hin.
  - rewrite app_nil_r. split; [by apply prefix_app_r |]. split; [done |].
    intros r ans [Hin | Hin]%elem_of_cons; [done |]. exfalso.
    apply elem_of_app in Hin as [Hin | Hin].
    + apply elem_of_app in Hin as [Hin | Hin]; [| by apply elem_of_nil in Hin].
      by destruct (Hst _ Hin).
    + by apply elem_of_nil in Hin.
Qed.

(** The database is sent the five provisioning statements and then one
    INSERT for every collected record, in the order of the records, each
    with the enriched record as its row, and nothing else; a write phase
    that raises has sent a beginning of this sequence.  No INSERT is sent
    before all of provisioning. *)
Theorem persist_statements names statuses records w :
  statements (trace (persist P cfg names statuses records w))
    `prefix_of` provisioning ++ (INSERT ∘ enrich names statuses <$> records)
  ∧ (out (persist P cfg names statuses records w) = Ok tt →
       statements (trace (persist P cfg names statuses records w))
       = provisioning ++ (INSERT ∘ enrich names statuses <$> records))
  ∧ (∀ r ans, Execute (INSERT r) ans ∈ trace (persist P cfg names statuses records w) →
       provisioning `prefix_of` statements (trace (persist P cfg names statuses records w))).
Proof. apply persist_sends. Qed.

(** *** Failures at the start *)

Lemma main_of_collect_raise fuel w e w1 t1 :
  collect P cfg fuel w = Run (Raise e) w1 t1 → main P cfg fuel w = Run (Raise e) w1 t1.
Proof. intros Hc. unfold main, bind. by rewrite Hc. Qed.

(** Once the clock is read, login and team listing are over. *)
Lemma main_after_clock fuel w teams now w3 :
  collect P cfg fuel w
  = after (collect_prefix teams now)
      (for_each teams (process_team P cfg fuel now) (∅, []) w3) →
  ∃ X, trace (main P cfg fuel w) = collect_prefix teams now ++ X
       ∧ Forall (λ ev, from_option (λ k, (2 ≤ k)%nat) True (stage ev)) X.
Proof.
  intros Hcol. pose proof (main_in_order fuel w) as Hord.
  assert (∃ X, trace (main P cfg fuel w) = collect_prefix teams now ++ X) as [X HX].
  { destruct (main_split fuel w)
      as [(a & w1 & t1 & maps & w2 & t2 & Hc & Hr & ->)
         | [(e & w1 & t1 & Hc & ->) | (w1 & t1 & Hc & ->)]];
      rewrite Hcol in Hc; unfold after in Hc; injection Hc as _ _ <-; cbn [trace].
    - eexists. unfold after. cbn [trace]. by rewrite <- !app_assoc.
    - by eexists.
    - by eexists. }
  exists X. split; [done |]. rewrite HX in Hord. by apply in_order_from.
Qed.

Lemma main_startup_failure fuel w e :
  Login (Some e) ∈ trace (main P cfg fuel w)
  ∨ GetUserTeams (inl e) ∈ trace (main P cfg fuel w) →
  out (main P cfg fuel w) = Raise e
  ∧ (last (trace (main P cfg fuel w)) = Some (Login (Some e))
     ∨ last (trace (main P cfg fuel w)) = Some (GetUserTeams (inl e)))
  ∧ clock_reads (trace (main P cfg fuel w)) = []
  ∧ Forall (λ ev, is_db ev = false) (trace (main P cfg fuel w)).
Proof.
  destruct (collect_cases P cfg fuel w)
    as [(e' & w1 & _ & Hc) | [(e' & w1 & w2 & _ & _ & Hc) | (teams & now & w3 & Hc)]].
  - rewrite (main_of_collect_raise _ _ _ _ _ Hc). cbn [out trace].
    intros [Hin | Hin].
    + apply elem_of_cons in Hin as [Hin | Hin]; [done |].
      apply list_elem_of_singleton in Hin as [= ->].
      split; [done |]. split; [by left |]. split; [done | by repeat constructor].
    + apply elem_of_cons in Hin as [Hin | Hin]; [done |].
      by apply list_elem_of_singleton in Hin.
  - rewrite (main_of_collect_raise _ _ _ _ _ Hc). cbn [out trace].
    intros [Hin | Hin].
    + do 3 (apply elem_of_cons in Hin as [Hin | Hin]; [done |]).
      by apply list_elem_of_singleton in Hin.
    + do 3 (apply elem_of_cons in Hin as [Hin | Hin]; [done |]).
      apply list_elem_of_singleton in Hin as [= ->].
      split; [done |]. split; [by right |]. split; [done | by repeat constructor].
  - destruct (main_after_clock _ _ _ _ _ Hc) as (X & -> & HX).
    rewrite Forall_forall in HX.
    intros [Hin | Hin]; exfalso;
      (apply elem_of_app in Hin as [Hin | Hin];
       [ unfold collect_prefix in Hin;
         do 5 (apply elem_of_cons in Hin as [Hin | Hin]; [done |]);
         by apply list_elem_of_singleton in Hin
       | specialize (HX _ Hin); simpl in HX; lia ]).
Qed.

(** There is no failure isolation at the start of a run: a refused login
    or a failed team listing ends it with the exception of the call, as
    its last action, before the clock is read and before the database is
    touched. *)
Theorem startup_failure_aborts fuel w e :
  Login (Some e) ∈ trace (main P cfg fuel w)
  ∨ GetUserTeams (inl e) ∈ trace (main P cfg fuel w) →
  out (main P cfg fuel w) = Raise e
  ∧ (last (trace (main P cfg fuel w)) = Some (Login (Some e))
     ∨ last (trace (main P cfg fuel w)) = Some (GetUserTeams (inl e)))
  ∧ clock_reads (trace (main P cfg fuel w)) = []
  ∧ Forall (λ ev, is_db ev = false) (trace (main P cfg fuel w)).
Proof. apply main_startup_failure. Qed.

(** *** The connection and the logout *)

Lemma main_no_connection fuel w e :
  Connect (Some e) ∈ trace (main P cfg fuel w) →
  out (main P cfg fuel w) = Raise e
  ∧ last (trace (main P cfg fuel w)) = Some (Connect (Some e))
  ∧ statements (trace (main P cfg fuel w)) = [].
Proof.
  intros Hin.
  destruct (main_db_event fuel w _ Hin eq_refl)
    as (a & w1 & t1 & maps & w2 & t2 & Hc & _ & -> & H12 & Hp).
  destruct (persist_split P cfg maps.1 maps.2 a.2 w2)
    as [(e' & w3 & _ & Hrun) | (w3 & _ & Hrun)]; rewrite Hrun in Hp; cbn [trace] in Hp.
  - apply list_elem_of_singleton in Hp as [= ->].
    unfold after. rewrite bind_run, Hrun. cbn [out world trace].
    split; [done |]. split; [by rewrite last_snoc |].
    by rewrite statements_app, (statements_none _ H12).
  - exfalso. unfold after in Hp. cbn [trace app] in Hp.
    apply elem_of_cons in Hp as [Hp | Hp]; [done |].
    rewrite trace_finally, trace_bind in Hp.
    pose proof (stations_ensure_table_exists w3) as H7. rewrite Forall_forall in H7.
    apply elem_of_app in Hp as [Hp | Hp].
    + apply elem_of_app in Hp as [Hp | Hp]; [by destruct (H7 _ Hp) |].
      destruct (out (ensure_table_exists P w3)); try by apply elem_of_nil in Hp.
      pose proof (stations_write_records maps.1 maps.2 a.2
                    (world (ensure_table_exists P w3))) as H8.
      rewrite Forall_forall in H8. by destruct (H8 _ Hp).
    + destruct (out _);
        by apply list_elem_of_singleton in Hp || apply elem_of_nil in Hp.
Qed.

(** A database that cannot be reached ends the run with the error of
    the connection attempt, as its last action: the collected records
    are dropped, and no statement is sent. *)
Theorem connection_failure fuel w e :
  Connect (Some e) ∈ trace (main P cfg fuel w) →
  out (main P cfg fuel w) = Raise e
  ∧ last (trace (main P cfg fuel w)) = Some (Connect (Some e))
  ∧ statements (trace (main P cfg fuel w)) = [].
Proof. apply main_no_connection. Qed.

Lemma collect_stations fuel w : upto 3 (trace (collect P cfg fuel w)).
Proof.
  destruct (collect_cases P cfg fuel w)
    as [(e' & w1 & _ & ->) | [(e' & w1 & w2 & _ & _ & ->) | (teams & now & w3 & ->)]];
    cbn [trace].
  - upto_list.
  - upto_list.
  - unfold after. cbn [trace]. apply Forall_app. split.
    + unfold collect_prefix. upto_list.
    + apply (upto_at _ 3); [lia | apply stations_teams].
Qed.

Lemma not_upto (t : list event) (m k : nat) ev :
  upto m t → stage ev = Some k → (m < k)%nat → ev ∈ t → False.
Proof.
  intros Ht Hev Hlt Hin. unfold upto in Ht. rewrite Forall_forall in Ht.
  specialize (Ht _ Hin). rewrite Hev in Ht. simpl in Ht. lia.
Qed.

Lemma persist_exit names statuses records w :
  out (persist P cfg names statuses records w) = Ok tt →
  last (trace (persist P cfg names statuses records w)) = Some (ConnExit false).
Proof.
  destruct (persist_split P cfg names statuses records w)
    as [(e & w1 & _ & ->) | (w1 & _ & ->)]; cbn [out trace]; [done |].
  unfold after. cbn [out trace]. rewrite out_finally, trace_finally. intros Ho.
  rewrite Ho. cbn [app]. by rewrite app_comm_cons, last_snoc.
Qed.

Lemma main_logout fuel w ans :
  Logout ans ∈ trace (main P cfg fuel w) →
  ConnExit false ∈ trace (main P cfg fuel w)
  ∧ out (main P cfg fuel w) = match ans with
                              | None => Ok tt
                              | Some e => Raise e
                              end
  ∧ count is_logout (trace (main P cfg fuel w)) = 1%nat.
Proof.
  pose proof (collect_stations fuel w) as Hc3.
  destruct (main_split fuel w)
    as [(a & w1 & t1 & maps & w2 & t2 & Hc & Hr & ->)
       | [(e & w1 & t1 & Hc & ->) | (w1 & t1 & Hc & ->)]];
    rewrite Hc in Hc3; cbn [out trace] in *.
  2, 3: intros Hin; destruct (not_upto _ 3 10 (Logout ans) Hc3 eq_refl ltac:(lia) Hin).
  destruct (within_resolve a.1 w1) as [_ Hr5]. rewrite Hr in Hr5. cbn [trace] in Hr5.
  destruct (within_persist maps.1 maps.2 a.2 w2) as [_ Hp9].
  assert (Hcount : ∀ (t : list event) m, upto m t → (m < 10)%nat →
                     count is_logout t = 0%nat).
  { intros t m Ht Hm. apply count_none. eapply Forall_impl; [exact Ht |].
    intros [] Hev; try done. simpl in Hev. lia. }
  unfold after. cbn [out trace]. rewrite trace_bind, out_bind.
  intros [Hin | Hin]%elem_of_app.
  { apply elem_of_app in Hin as [Hin | Hin].
    - destruct (not_upto _ 3 10 (Logout ans) Hc3 eq_refl ltac:(lia) Hin).
    - destruct (not_upto _ 5 10 (Logout ans) Hr5 eq_refl ltac:(lia) Hin). }
  apply elem_of_app in Hin as [Hin | Hin].
  { destruct (not_upto _ 9 10 (Logout ans) Hp9 eq_refl ltac:(lia) Hin). }
  pose proof (persist_exit maps.1 maps.2 a.2 w2) as Hexit.
  destruct (out (persist P cfg maps.1 maps.2 a.2 w2)) as [[]|e|];
    [| by apply elem_of_nil in Hin ..].
  specialize (Hexit eq_refl).
  rewrite !count_app, (Hcount t1 3%nat), (Hcount t2 5%nat), (Hcount _ 9%nat Hp9)
    by (done || lia).
  split.
  { apply elem_of_app. right. apply elem_of_app. left.
    destruct (trace (persist P cfg maps.1 maps.2 a.2 w2)) as [|ev t] using rev_ind;
      [done |].
    rewrite last_snoc in Hexit. injection Hexit as ->.
    apply elem_of_app. right. by apply list_elem_of_singleton. }
  revert Hin. unfold driver_logout, command, bind, log, emit.
  destruct (mm_logout P _) as [[e|] w3]; cbn [after out trace app].
  - by intros [= ->]%list_elem_of_singleton.
  - intros [Hin | Hin]%elem_of_cons; [by injection Hin as -> |].
    by apply list_elem_of_singleton in Hin.
Qed.

(** The script logs out only at the end: a logout is found in a run only
    after the connection block was left normally, it is the only one,
    and the run ends normally or with the error of the logout itself.
    So after any earlier exception the session stays logged in. *)
Theorem logout_after_writing fuel w ans :
  Logout ans ∈ trace (main P cfg fuel w) →
  ConnExit false ∈ trace (main P cfg fuel w)
  ∧ out (main P cfg fuel w) = match ans with
                              | None => Ok tt
                              | Some e => Raise e
                              end
  ∧ count is_logout (trace (main P cfg fuel w)) = 1%nat.
Proof. apply main_logout. Qed.

(** *** Collection seen from the whole run *)

Lemma not_from (t : list event) (n k : nat) ev :
  in_order n t = true → stage ev = Some k → (k < n)%nat → ev ∈ t → False.
Proof.
  intros Ht%in_order_from Hev Hlt Hin. rewrite Forall_forall in Ht.
  specialize (Ht _ Hin). rewrite Hev in Ht. simpl in Ht. lia.
Qed.

(** The listings of a run are those of its collection. *)
Lemma main_early_event fuel w a w1 t1 maps w2 t2 ev k :
  collect P cfg fuel w = Run (Ok a) w1 t1 →
  resolve P cfg a.1 w1 = Run (Ok maps) w2 t2 →
  ev ∈ trace (after (t1 ++ t2)
                ((persist P cfg maps.1 maps.2 a.2 ;; driver_logout P ;;
                  log INFO "Mattermost online user collection script finished.") w2)) →
  stage ev = Some k → (k ≤ 3)%nat →
  ev ∈ t1.
Proof.
  intros Hc Hr Hin Hev Hk. unfold after in Hin. cbn [trace] in Hin.
  destruct (within_resolve a.1 w1) as [Hr4 _]. rewrite Hr in Hr4. cbn [trace] in Hr4.
  destruct (within_persist maps.1 maps.2 a.2 w2) as [Hp6 _].
  apply elem_of_app in Hin as [Hin | Hin].
  { apply elem_of_app in Hin as [Hin | Hin]; [done |].
    destruct (not_from _ 4 k ev Hr4 Hev ltac:(lia) Hin). }
  exfalso. rewrite trace_bind in Hin. apply elem_of_app in Hin as [Hin | Hin].
  { destruct (not_from _ 6 k ev Hp6 Hev ltac:(lia) Hin). }
  destruct (out (persist P cfg maps.1 maps.2 a.2 w2)); try by apply elem_of_nil in Hin.
  pose proof (stations_goodbye (world (persist P cfg maps.1 maps.2 a.2 w2))) as Hg.
  rewrite Forall_forall in Hg. destruct (Hg _ Hin) as [Hs | Hs]; rewrite Hs in Hev;
    [done |]. injection Hev as <-. lia.
Qed.

Lemma main_malformed fuel w teams team tid channels channel :
  (GetUserTeams (inr teams) ∈ trace (main P cfg fuel w)
   ∧ team ∈ teams ∧ ¬ well_formed_team team)
  ∨ (GetChannelsForUser tid (inr channels) ∈ trace (main P cfg fuel w)
     ∧ channel ∈ channels ∧ ¬ well_formed_channel channel) →
  (out (main P cfg fuel w) = Raise (KeyError "id")
   ∨ out (main P cfg fuel w) = Raise (KeyError "name")
   ∨ out (main P cfg fuel w) = OutOfFuel)
  ∧ Forall (λ ev, is_db ev = false) (trace (main P cfg fuel w)).
Proof.
  pose proof (collect_no_db fuel w) as Hdb.
  destruct (main_split fuel w)
    as [(a & w1 & t1 & maps & w2 & t2 & Hc & Hr & ->)
       | [(e & w1 & t1 & Hc & ->) | (w1 & t1 & Hc & ->)]]; cbn [out trace].
  - intros H. exfalso.
    destruct (collect_ok P cfg fuel w a) as [Ht Hch]; [by rewrite Hc |].
    rewrite Hc in Ht, Hch. cbn [trace] in Ht, Hch.
    destruct H as [(Hin & Hteam & Hwf) | (Hin & Hchan & Hwf)].
    + apply (main_early_event _ _ _ _ _ _ _ _ _ 1%nat Hc Hr) in Hin; [| done | lia].
      specialize (Ht _ Hin). rewrite Forall_forall in Ht. by apply Hwf, Ht.
    + apply (main_early_event _ _ _ _ _ _ _ _ _ 3%nat Hc Hr) in Hin; [| done | lia].
      specialize (Hch _ _ Hin). rewrite Forall_forall in Hch. by apply Hwf, Hch.
  - rewrite Hc in Hdb. cbn [trace] in Hdb. intros H. split; [| done].
    assert (e = KeyError "id" ∨ e = KeyError "name") as [-> | ->]; [| by left | by right; left].
    destruct H as [(Hin & _) | (Hin & _)].
    + apply (collect_raises P cfg fuel w e (GetUserTeams (inr teams)));
        [by rewrite Hc | by rewrite Hc | left; by eexists].
    + apply (collect_raises P cfg fuel w e (GetChannelsForUser tid (inr channels)));
        [by rewrite Hc | by rewrite Hc | by right].
  - rewrite Hc in Hdb. cbn [trace] in Hdb. intros _. split; [by right; right | done].
Qed.

(** Failure isolation stops at the shape of the answers: a team entry
    without [id] or [name], or a channel entry without [id], anywhere in
    a listing, is not skipped.  The run that received it does not end
    normally (its [KeyError] leaves both loops) and never opens the
    database: the records of all other teams and channels are lost. *)
Theorem malformed_entries_abort fuel w teams team tid channels channel :
  (GetUserTeams (inr teams) ∈ trace (main P cfg fuel w)
   ∧ team ∈ teams ∧ ¬ well_formed_team team)
  ∨ (GetChannelsForUser tid (inr channels) ∈ trace (main P cfg fuel w)
     ∧ channel ∈ channels ∧ ¬ well_formed_channel channel) →
  (out (main P cfg fuel w) = Raise (KeyError "id")
   ∨ out (main P cfg fuel w) = Raise (KeyError "name")
   ∨ out (main P cfg fuel w) = OutOfFuel)
  ∧ Forall (λ ev, is_db ev = false) (trace (main P cfg fuel w)).
Proof. apply main_malformed. Qed.

Lemma main_sourced fuel w :
  Forall (λ rw, sourced (trace (main P cfg fuel w)) (collected rw))
    (written (trace (main P cfg fuel w))).
Proof.
  pose proof (collect_no_db fuel w) as Hdb.
  destruct (main_split fuel w)
    as [(a & w1 & t1 & maps & w2 & t2 & Hc & Hr & ->)
       | [(e & w1 & t1 & Hc & ->) | (w1 & t1 & Hc & ->)]];
    rewrite Hc in Hdb; cbn [out trace] in *.
  2, 3: by rewrite (written_no_db _ Hdb).
  pose proof (resolve_no_db a.1 w1) as Hr1. rewrite Hr in Hr1. cbn [trace] in Hr1.
  pose proof (collect_sourced P cfg fuel w a) as Hsrc. rewrite Hc in Hsrc.
  cbn [out trace] in Hsrc. specialize (Hsrc eq_refl).
  unfold after. cbn [trace]. rewrite trace_bind.
  rewrite !written_app, (written_no_db t1 Hdb), (written_no_db t2 Hr1).
  assert (written (match out (persist P cfg maps.1 maps.2 a.2 w2) with
                   | Ok a0 =>
                       trace ((driver_logout P ;;
                               log INFO "Mattermost online user collection script finished.")
                                (world (persist P cfg maps.1 maps.2 a.2 w2)))
                   | _ => []
                   end) = []) as ->.
  { destruct (out (persist P cfg maps.1 maps.2 a.2 w2)); try done.
    apply written_no_db, goodbye_no_db. }
  cbn [app]. rewrite app_nil_r.
  destruct (persist_spec P cfg maps.1 maps.2 a.2 w2) as (_ & Hpre & _).
  eapply Forall_prefix; [exact Hpre |].
  apply Forall_fmap. eapply Forall_impl; [exact Hsrc |].
  intros rd Hrd. cbn [compose]. rewrite collected_enrich.
  eapply sourced_mono; [| exact Hrd].
  intros ev Hev. apply elem_of_app. left. apply elem_of_app. by left.
Qed.

(** No row is made up: the team, the channel and the user of every row
    that a run writes were returned by the driver in that same run: the
    team, with this id and name, by the team listing; the channel, with
    this id and the stored name, by the channel listing of that team; and
    the user by a page of the member listing of that channel. *)
Theorem rows_come_from_listings fuel w :
  Forall (λ rw, sourced (trace (main P cfg fuel w)) (collected rw))
    (written (trace (main P cfg fuel w))).
Proof. apply main_sourced. Qed.
End RunMore.

(** ** The fuel of the listing loop *)



Section Fuel.
Context {W : Type} (P : Platform W) (cfg : config).
Implicit Types (w : W) (a : acc).






End Fuel.

(** ** The further properties at work *)

(** The event at a given position of a trace. *)
Ltac event_at n := apply list_elem_of_lookup; exists n; by vm_compute.

(** The table cannot be created: the run ends there. *)
Lemma table_creation_is_fatal_witness :
  Execute CREATE_TABLE (Some (PgError (Some "42501") "permission denied for schema public"))
    ∈ trace (main (Scenario.platform Faults.table_down) Scenario.cfg 5 0)
  ∧ (out (main (Scenario.platform Faults.table_down) Scenario.cfg 5 0)
     = Raise (PsycopgError (PgError (Some "42501") "permission denied for schema public"))
     ∧ (∃ t, trace (main (Scenario.platform Faults.table_down) Scenario.cfg 5 0)
             = t ++ [Execute CREATE_TABLE
                       (Some (PgError (Some "42501")
                                "permission denied for schema public"));
                     ConnExit true]
             ∧ statements t = [CREATE_EXTENSION])
     ∧ written (trace (main (Scenario.platform Faults.table_down) Scenario.cfg 5 0)) = []
     ∧ count is_commit (trace (main (Scenario.platform Faults.table_down) Scenario.cfg 5 0))
       = 0%nat).
Proof.
  assert (Hin : Execute CREATE_TABLE
                  (Some (PgError (Some "42501") "permission denied for schema public"))
    ∈ trace (main (Scenario.platform Faults.table_down) Scenario.cfg 5 0))
    by event_at 28%nat.
  split; [exact Hin |].
  exact (table_creation_is_fatal (Scenario.platform Faults.table_down) Scenario.cfg 5 0
           _ Hin).
Defined.

(** [BATCH_SIZE=0]: the run inserts one row and raises; the only commit
    of the run is that of provisioning. *)
Lemma zero_batch_size_witness :
  BATCH_SIZE Faults.no_batches = 0
  ∧ pg_execute (Scenario.platform Scenario.two_teams)
      (INSERT (enrich ∅ ∅ (Record_ 7 "A" "alpha" "ca" "Town Square" "u1"))) 0
    = (None, 1)
  ∧ (out (main (Scenario.platform Scenario.two_teams) Faults.no_batches 5 0)
     = Raise ZeroDivisionError
     ∧ length (written (trace (main (Scenario.platform Scenario.two_teams)
                                 Faults.no_batches 5 0))) = 1%nat
     ∧ commit_points 0 (trace (main (Scenario.platform Scenario.two_teams)
                                 Faults.no_batches 5 0)) = [0%nat])
  ∧ (write_records (Scenario.platform Scenario.two_teams) Faults.no_batches ∅ ∅
       Scenario.five_records 0
     = Run (Raise ZeroDivisionError) 1
         [Log INFO "Preparing to insert records.";
          Execute (INSERT (enrich ∅ ∅ (Record_ 7 "A" "alpha" "ca" "Town Square" "u1")))
            None]
     ∧ write_records (Scenario.platform Scenario.two_teams) Faults.no_batches ∅ ∅ [] 0
       = Run (Ok tt) 0
           [Log INFO "Preparing to insert records.";
            Log INFO "No records were processed or inserted."]).
Proof.
  split; [reflexivity |]. split; [reflexivity |].
  split; [split; [reflexivity | by vm_compute] |].
  exact (zero_batch_size (Scenario.platform Scenario.two_teams) Faults.no_batches ∅ ∅
           (Record_ 7 "A" "alpha" "ca" "Town Square" "u1") (tail Scenario.five_records)
           0 1 eq_refl eq_refl).
Defined.

(** A negative batch size: five records, commits after the second, the
    fourth and the fifth. *)
Example negative_batch_size_commits :
  commit_points 0
    (trace (write_records (Scenario.platform Scenario.two_teams) Faults.negative_batches
              ∅ ∅ Scenario.five_records 0))
  = [2; 4; 5]%nat.
Proof. by vm_compute. Qed.

(** The row of u3 is refused: it is the third of five, the first two
    were committed, the last two are never sent. *)
Lemma write_stops_at_first_error_witness :
  Execute (INSERT (enrich ∅ ∅ (Record_ 7 "A" "alpha" "ca" "Town Square" "u3")))
    (Some (PgError (Some "23514") "check constraint violated"))
    ∈ trace (write_records (Scenario.platform Faults.row_refused) Scenario.cfg ∅ ∅
               Scenario.five_records 0)
  ∧ db_failed
      (Execute (INSERT (enrich ∅ ∅ (Record_ 7 "A" "alpha" "ca" "Town Square" "u3")))
         (Some (PgError (Some "23514") "check constraint violated"))) = true
  ∧ (insert_count (trace (write_records (Scenario.platform Faults.row_refused)
                            Scenario.cfg ∅ ∅ Scenario.five_records 0)) = 3%nat
     ∧ commit_points 0 (trace (write_records (Scenario.platform Faults.row_refused)
                                 Scenario.cfg ∅ ∅ Scenario.five_records 0)) = [2%nat])
  ∧ (last (trace (write_records (Scenario.platform Faults.row_refused) Scenario.cfg ∅ ∅
                    Scenario.five_records 0))
     = Some (Execute
               (INSERT (enrich ∅ ∅ (Record_ 7 "A" "alpha" "ca" "Town Square" "u3")))
               (Some (PgError (Some "23514") "check constraint violated")))
     ∧ (∃ e, db_error
               (Execute
                  (INSERT (enrich ∅ ∅ (Record_ 7 "A" "alpha" "ca" "Town Square" "u3")))
                  (Some (PgError (Some "23514") "check constraint violated")))
             = Some e
             ∧ out (write_records (Scenario.platform Faults.row_refused) Scenario.cfg
                      ∅ ∅ Scenario.five_records 0) = Raise (PsycopgError e))
     ∧ count is_rollback
         (trace (write_records (Scenario.platform Faults.row_refused) Scenario.cfg ∅ ∅
                   Scenario.five_records 0)) = 0%nat).
Proof.
  assert (Hin : Execute
                  (INSERT (enrich ∅ ∅ (Record_ 7 "A" "alpha" "ca" "Town Square" "u3")))
                  (Some (PgError (Some "23514") "check constraint violated"))
    ∈ trace (write_records (Scenario.platform Faults.row_refused) Scenario.cfg ∅ ∅
               Scenario.five_records 0))
    by event_at 5%nat.
  split; [exact Hin |]. split; [reflexivity |]. split; [by vm_compute |].
  exact (write_stops_at_first_error (Scenario.platform Faults.row_refused) Scenario.cfg
           ∅ ∅ Scenario.five_records 0 _ Hin eq_refl).
Defined.

(** Batches of two: never more than two rows are uncommitted, and two
    are at some moment. *)
Lemma open_transaction_bounded_witness :
  0 < BATCH_SIZE Scenario.cfg
  ∧ peak 0 (trace (main (Scenario.platform Scenario.two_teams) Scenario.cfg 5 0)) = 2%nat
  ∧ ((peak 0 (trace (main (Scenario.platform Scenario.two_teams) Scenario.cfg 5 0%Z))
      ≤ Z.to_nat (BATCH_SIZE Scenario.cfg))%nat
     ∧ (out (main (Scenario.platform Scenario.two_teams) Scenario.cfg 5 0) = Ok tt →
          uncommitted 0 (trace (main (Scenario.platform Scenario.two_teams)
                                  Scenario.cfg 5 0)) = 0%nat)).
Proof.
  split; [reflexivity |]. split; [by vm_compute |].
  exact (open_transaction_bounded (Scenario.platform Scenario.two_teams) Scenario.cfg
           5 0 eq_refl).
Defined.

(** Channel ca lists an entry without user id: the channel gives no row,
    channel cb gives its two. *)
Lemma member_without_id_drops_channel_witness :
  (Scenario.channel "ca" "Town Square" "town-square" !! "id" = Some "ca"
   ∧ get_all_channel_members (Scenario.platform Faults.odd_member) Scenario.cfg 5 "ca" 4
     = Run (Ok [Scenario.member "u1"; {[ "roles" := "channel_user" ]};
                Scenario.member "u2"])
         7 (trace (get_all_channel_members (Scenario.platform Faults.odd_member)
                     Scenario.cfg 5 "ca" 4))
   ∧ Exists (λ m : dict, m !! "user_id" = None)
       [Scenario.member "u1"; {[ "roles" := "channel_user" ]}; Scenario.member "u2"])
  ∧ channel_id <$> written (trace (main (Scenario.platform Faults.odd_member)
                                      Scenario.cfg 5 0))
    = ["cb"; "cb"]
  ∧ process_channel (Scenario.platform Faults.odd_member) Scenario.cfg 5 2 "A" "alpha"
      (Scenario.channel "ca" "Town Square" "town-square") Scenario.start 4
    = Run (Ok Scenario.start) 7
        (Log DEBUG "Processing channel"
           :: trace (get_all_channel_members (Scenario.platform Faults.odd_member)
                       Scenario.cfg 5 "ca" 4)
           ++ [Log ERROR "Error processing channel"]).
Proof.
  assert (Hex : Exists (λ m : dict, m !! "user_id" = None)
            [Scenario.member "u1"; {[ "roles" := "channel_user" ]}; Scenario.member "u2"]).
  { apply Exists_cons_tl, Exists_cons_hd. reflexivity. }
  split; [split; [reflexivity | split; [reflexivity | exact Hex]] |].
  split; [by vm_compute |].
  exact (member_without_id_drops_channel (Scenario.platform Faults.odd_member)
           Scenario.cfg 5 2 "A" "alpha"
           (Scenario.channel "ca" "Town Square" "town-square") "ca" Scenario.start 4
           _ 7 _ eq_refl eq_refl Hex).
Defined.

(** The three users of the two channels. *)
Lemma ids_are_those_of_the_records_witness :
  out (collect (Scenario.platform Scenario.two_teams) Scenario.cfg 5 0)
  = Ok (Scenario.collected_in Scenario.two_teams)
  ∧ r_user_id <$> (Scenario.collected_in Scenario.two_teams).2 = ["u1"; "u2"; "u3"; "u2"]
  ∧ (Scenario.collected_in Scenario.two_teams).1
    = list_to_set (r_user_id <$> (Scenario.collected_in Scenario.two_teams).2).
Proof.
  split; [reflexivity |]. split; [by vm_compute |].
  exact (ids_are_those_of_the_records (Scenario.platform Scenario.two_teams) Scenario.cfg
           5 0 _ eq_refl).
Defined.

(** The second team has no name: the run ends with the [KeyError], and
    the rows of the first team are lost with it. *)
Lemma malformed_entries_abort_witness :
  (GetUserTeams (inr [Scenario.team "A" "alpha"; {[ "id" := "B" ]}])
     ∈ trace (main (Scenario.platform Faults.nameless_team) Scenario.cfg 5 0)
   ∧ ({[ "id" := "B" ]} : dict) ∈ [Scenario.team "A" "alpha"; {[ "id" := "B" ]}]
   ∧ ¬ well_formed_team {[ "id" := "B" ]})
  ∧ out (main (Scenario.platform Faults.nameless_team) Scenario.cfg 5 0)
    = Raise (KeyError "name")
  ∧ ((out (main (Scenario.platform Faults.nameless_team) Scenario.cfg 5 0)
      = Raise (KeyError "id")
      ∨ out (main (Scenario.platform Faults.nameless_team) Scenario.cfg 5 0)
        = Raise (KeyError "name")
      ∨ out (main (Scenario.platform Faults.nameless_team) Scenario.cfg 5 0) = OutOfFuel)
     ∧ Forall (λ ev, is_db ev = false)
         (trace (main (Scenario.platform Faults.nameless_team) Scenario.cfg 5 0))).
Proof.
  assert (H : GetUserTeams (inr [Scenario.team "A" "alpha"; {[ "id" := "B" ]}])
                ∈ trace (main (Scenario.platform Faults.nameless_team) Scenario.cfg 5 0)
              ∧ ({[ "id" := "B" ]} : dict) ∈ [Scenario.team "A" "alpha"; {[ "id" := "B" ]}]
              ∧ ¬ well_formed_team {[ "id" := "B" ]}).
  { split; [event_at 3%nat |]. split; [apply list_elem_of_further, list_elem_of_here |].
    by intros [_ [x Hx]]. }
  split; [exact H |]. split; [reflexivity |].
  exact (malformed_entries_abort (Scenario.platform Faults.nameless_team) Scenario.cfg
           5 0 _ _ EmptyString [] ∅ (or_introl H)).
Defined.

(** A channel without id. *)
Example channel_without_id_aborts :
  out (main (Scenario.platform Faults.nameless_channel) Scenario.cfg 5 0)
  = Raise (KeyError "id")
  ∧ statements (trace (main (Scenario.platform Faults.nameless_channel) Scenario.cfg 5 0))
    = [].
Proof. split; [reflexivity | by vm_compute]. Qed.

(** A status entry without status: the user names are kept, the statuses
    are dropped. *)
Lemma resolve_maps_witness :
  (({[ "u1"; "u2" ]} : gset string) ≠ ∅
   ∧ sleep_error (Scenario.platform Faults.odd_status) (API_DELAY Scenario.cfg) = None
   ∧ mm_get_user_statuses_by_id (Scenario.platform Faults.odd_status)
       (elements ({[ "u1"; "u2" ]} : gset string)) 0
     = (inr [Scenario.user_status "u1" "away"; {[ "user_id" := "u2" ]}], 1)
   ∧ mm_get_users_by_ids (Scenario.platform Faults.odd_status)
       (elements ({[ "u1"; "u2" ]} : gset string))
       (time_sleep (Scenario.platform Faults.odd_status) (API_DELAY Scenario.cfg) 1)
     = (inr [Scenario.user "u1" "ann"; Scenario.user "u3" "cat"], 3))
  ∧ out (resolve (Scenario.platform Faults.odd_status) Scenario.cfg {[ "u1"; "u2" ]} 0)
    = Ok ({[ "u1" := "ann"; "u3" := "cat" ]}, ∅)
  ∧ ∃ names statuses,
      out (resolve (Scenario.platform Faults.odd_status) Scenario.cfg {[ "u1"; "u2" ]} 0)
      = Ok (names, statuses)
      ∧ world (resolve (Scenario.platform Faults.odd_status) Scenario.cfg
                 {[ "u1"; "u2" ]} 0) = 3
      ∧ match mapM (entry "id" "username")
                [Scenario.user "u1" "ann"; Scenario.user "u3" "cat"] with
        | Some ps =>
            names = list_to_map (reverse ps)
            ∧ match mapM (entry "user_id" "status")
                      [Scenario.user_status "u1" "away"; {[ "user_id" := "u2" ]}] with
              | Some qs => statuses = list_to_map (reverse qs)
              | None => statuses = ∅
              end
        | None => names = ∅ ∧ statuses = ∅
        end.
Proof.
  assert (Hne : ({[ "u1"; "u2" ]} : gset string) ≠ ∅).
  { intros He. assert (Hin : "u1" ∈ ({[ "u1"; "u2" ]} : gset string)) by set_solver.
    rewrite He in Hin. by apply not_elem_of_empty in Hin. }
  split; [split; [exact Hne | split; [reflexivity | split; reflexivity]] |].
  split; [reflexivity |].
  exact (resolve_maps (Scenario.platform Faults.odd_status) Scenario.cfg
           {[ "u1"; "u2" ]} 0 _ 1 _ 3 Hne eq_refl eq_refl eq_refl).
Defined.

(** The identity lookup names u1 twice: the second name counts. *)
Example last_entry_counts :
  out (resolve (Scenario.platform Faults.renamed_user) Scenario.cfg {[ "u1" ]} 0)
  = Ok ({[ "u1" := "anna" ]}, {[ "u1" := "online" ]}).
Proof. reflexivity. Qed.

(** The login is refused. *)
Lemma startup_failure_aborts_witness :
  Login (Some (ApiError "401 Unauthorized"))
    ∈ trace (main Faults.login_refused Scenario.cfg 5 0)
  ∧ (out (main Faults.login_refused Scenario.cfg 5 0) = Raise (ApiError "401 Unauthorized")
     ∧ (last (trace (main Faults.login_refused Scenario.cfg 5 0))
        = Some (Login (Some (ApiError "401 Unauthorized")))
        ∨ last (trace (main Faults.login_refused Scenario.cfg 5 0))
          = Some (GetUserTeams (inl (ApiError "401 Unauthorized"))))
     ∧ clock_reads (trace (main Faults.login_refused Scenario.cfg 5 0)) = []
     ∧ Forall (λ ev, is_db ev = false) (trace (main Faults.login_refused Scenario.cfg 5 0))).
Proof.
  assert (Hin : Login (Some (ApiError "401 Unauthorized"))
                  ∈ trace (main Faults.login_refused Scenario.cfg 5 0)) by event_at 1%nat.
  split; [exact Hin |].
  exact (startup_failure_aborts Faults.login_refused Scenario.cfg 5 0 _ (or_introl Hin)).
Defined.

(** The database cannot be reached: four records were collected, none is
    sent. *)
Lemma connection_failure_witness :
  Connect (Some (ApiError "connection refused"))
    ∈ trace (main Faults.db_unreachable Scenario.cfg 5 0)
  ∧ length (Scenario.collected_in Scenario.two_teams).2 = 4%nat
  ∧ (out (main Faults.db_unreachable Scenario.cfg 5 0)
     = Raise (ApiError "connection refused")
     ∧ last (trace (main Faults.db_unreachable Scenario.cfg 5 0))
       = Some (Connect (Some (ApiError "connection refused")))
     ∧ statements (trace (main Faults.db_unreachable Scenario.cfg 5 0)) = []).
Proof.
  assert (Hin : Connect (Some (ApiError "connection refused"))
                  ∈ trace (main Faults.db_unreachable Scenario.cfg 5 0)) by event_at 25%nat.
  split; [exact Hin |]. split; [by vm_compute |].
  exact (connection_failure Faults.db_unreachable Scenario.cfg 5 0 _ Hin).
Defined.

(** The logout of a run without faults. *)
Lemma logout_after_writing_witness :
  Logout None ∈ trace (main (Scenario.platform Scenario.two_teams) Scenario.cfg 5 0)
  ∧ (ConnExit false ∈ trace (main (Scenario.platform Scenario.two_teams) Scenario.cfg 5 0)
     ∧ out (main (Scenario.platform Scenario.two_teams) Scenario.cfg 5 0) = Ok tt
     ∧ count is_logout (trace (main (Scenario.platform Scenario.two_teams) Scenario.cfg 5 0))
       = 1%nat).
Proof.
  assert (Hin : Logout None
                  ∈ trace (main (Scenario.platform Scenario.two_teams) Scenario.cfg 5 0))
    by event_at 47%nat.
  split; [exact Hin |].
  exact (logout_after_writing (Scenario.platform Scenario.two_teams) Scenario.cfg 5 0
           None Hin).
Defined.


(** Neither the extension nor the rollback goes through, and the step
    returns. *)
Example rollback_failure_is_swallowed :
  ensure_extension (Scenario.platform Faults.no_extension) 0
  = Run (Ok tt) 2
      [Execute CREATE_EXTENSION (Some (PgError (Some "42501") "permission denied"));
       Log WARNING "Could not ensure TimescaleDB extension";
       Rollback (Some (PgError None "no transaction in progress"));
       Log WARNING "Rollback attempt failed"].
Proof. reflexivity. Qed.
